(** * smpl: sphere-vs-world collision query and scenario loading

    A shallow embedding of

    - [CheckSphereCollision]
      (sbpl_collision_checking/src/collision_operations.cpp), and
    - [GetCollisionCube], [GetCollisionCubes], [GetCollisionObjects] and
      [MakeRobotState] (smpl_test/src/test_scenario.cpp),

    together with the properties the specification states about them,
    and of

    - [FindParam], [ReadRobotModelConfig], [GetRobotDescription],
      [ReadInitialConfiguration], [InitTestScenarioPrePlanningModel],
      [InitRobotState] and [WritePathCSV] (smpl_test/src/test_scenario.cpp),

    together with properties that can be read off the code. *)

From Stdlib Require Import Floats.
From Stdlib Require Import Bool List String Ascii ZArith Lia Lra Psatz.
From Stdlib Require Import Reals.
Import ListNotations.

Set Implicit Arguments.

(* ===================================================================== *)
(** * Part I: collision_operations.cpp                                    *)
(* ===================================================================== *)

Module Collision.

(** ** The arithmetic of [double]

    [CheckSphereCollision] uses [double] through the constant [0.0], the
    constant [0.5], [+], [*] and [<=]; the voxel grid of the specification
    additionally uses [-], [/] and [floor].  The query is written once over
    this interface and read at two instances: IEEE binary64 ([binary64],
    what the C++ computes with) and the real numbers ([ideal], in which the
    geometric statements of the specification are phrased). *)

Class Double (D : Type) : Type := {
  d_zero  : D;
  d_half  : D;
  d_add   : D -> D -> D;
  d_sub   : D -> D -> D;
  d_mul   : D -> D -> D;
  d_div   : D -> D -> D;
  d_leb   : D -> D -> bool;
  d_floor : D -> Z
}.

Declare Scope double_scope.
Delimit Scope double_scope with D.
Infix "+" := d_add : double_scope.
Infix "-" := d_sub : double_scope.
Infix "*" := d_mul : double_scope.
Infix "/" := d_div : double_scope.
Infix "<=?" := d_leb : double_scope.

(** [floor] of a binary64 value, read off its sign, mantissa and exponent:
    [Z.shiftl] by a negative amount is a right shift, which rounds towards
    minus infinity.  Infinities and NaN have no integer part; they are sent
    to 0. *)
Definition float_floor (f : float) : Z :=
  match Prim2SF f with
  | S754_finite s m e => Z.shiftl (if s then Z.neg m else Z.pos m) e
  | _ => 0%Z
  end.

#[export] Instance binary64 : Double float := {|
  d_zero  := 0%float;
  d_half  := 0.5%float;
  d_add   := PrimFloat.add;
  d_sub   := PrimFloat.sub;
  d_mul   := PrimFloat.mul;
  d_div   := PrimFloat.div;
  d_leb   := PrimFloat.leb;
  d_floor := float_floor
|}.

Definition Rleb (a b : R) : bool := if Rle_dec a b then true else false.

#[export] Instance ideal : Double R := {|
  d_zero  := 0%R;
  d_half  := (1 / 2)%R;
  d_add   := Rplus;
  d_sub   := Rminus;
  d_mul   := Rmult;
  d_div   := Rdiv;
  d_leb   := Rleb;
  d_floor := Int_part
|}.

(** ** Data *)

Record Vector3 (D : Type) : Type := mkVector3 { vx : D; vy : D; vz : D }.

(** The fields of [CollisionSphereModel] and [CollisionSphereState] that
    the query reads. *)
Record CollisionSphereModel (D : Type) : Type := mkSphereModel {
  name   : string;
  radius : D
}.

Record CollisionSphereState (D : Type) : Type := mkSphereState {
  model : CollisionSphereModel D;
  pos   : Vector3 D
}.

(** [OccupancyGrid] comes with the header the file includes; the query
    uses four of its methods, which form the interface below.  [worldToGrid]
    writes its result through three [int&] arguments; here it returns
    them. *)
Record OccupancyGrid (D : Type) : Type := mkOccupancyGrid {
  worldToGrid   : D -> D -> D -> Z * Z * Z;
  isInBounds    : Z -> Z -> Z -> bool;
  getDistance   : Z -> Z -> Z -> D;
  getResolution : D
}.

(** [RobotCollisionState]: [updateSphereState] mutates the state (it
    refreshes the cached sphere position), [sphereState] reads it. *)
Class RobotCollisionStateOps (D S I : Type) : Type := {
  updateSphereState : S -> I -> S;
  sphereState       : S -> I -> CollisionSphereState D
}.

(** What [ROS_DEBUG_NAMED(CC_LOGGER, ...)] is given. *)
Inductive Diagnostic (D : Type) : Type :=
| SphereOutOfBounds (sphere : string) (center : Vector3 D) (gx gy gz : Z).

(** The outcome of one call: the returned [bool], the value left in the
    out-parameter [dist], the state after [updateSphereState], and the
    diagnostics emitted on the ["collision"] logger. *)
Record Outcome (D S : Type) : Type := mkOutcome {
  ret   : bool;
  dist  : D;
  after : S;
  trail : list (Diagnostic D)
}.

Section Query.
Context {D S I : Type} `{Double D} `{RobotCollisionStateOps D S I}.

Definition effective_radius
    (grid : OccupancyGrid D) (ss : CollisionSphereState D) (padding : D) : D :=
  (radius (model ss) + d_half * getResolution grid + padding)%D.

Definition CheckSphereCollision
    (grid : OccupancyGrid D) (state : S) (padding : D) (sidx : I)
    : Outcome D S :=
  let state := updateSphereState state sidx in
  let ss := sphereState state sidx in
  let '(gx, gy, gz) :=
    worldToGrid grid (vx (pos ss)) (vy (pos ss)) (vz (pos ss)) in
  (* check bounds *)
  if negb (isInBounds grid gx gy gz) then
    let sm := model ss in
    {| ret := false; dist := d_zero; after := state;
       trail := [SphereOutOfBounds (name sm) (pos ss) gx gy gz] |}
  else
    (* check for collision with world *)
    let obs_dist := getDistance grid gx gy gz in
    if (obs_dist <=? effective_radius grid ss padding)%D then
      {| ret := false; dist := obs_dist; after := state; trail := [] |}
    else
      {| ret := true; dist := obs_dist; after := state; trail := [] |}.

(** The function returns [false] exactly where it has found the sphere
    in collision (or out of bounds) and [true] where the sphere is
    free: the specification's [collides] is the negation of the C++
    return value. *)
Definition collides (o : Outcome D S) : bool := negb (ret o).

(** The sphere the query looks at, and the cell its center maps to. *)
Definition queried (state : S) (sidx : I) : CollisionSphereState D :=
  sphereState (updateSphereState state sidx) sidx.

Definition center_cell
    (grid : OccupancyGrid D) (state : S) (sidx : I) : Z * Z * Z :=
  let ss := queried state sidx in
  worldToGrid grid (vx (pos ss)) (vy (pos ss)) (vz (pos ss)).

Definition cell_in_bounds (grid : OccupancyGrid D) (c : Z * Z * Z) : bool :=
  let '(gx, gy, gz) := c in isInBounds grid gx gy gz.

Definition cell_distance (grid : OccupancyGrid D) (c : Z * Z * Z) : D :=
  let '(gx, gy, gz) := c in getDistance grid gx gy gz.

End Query.

(** ** The voxel grid of the specification *)

(** Modelled from the spec: the voxel grid behind [OccupancyGrid] (the
    source of the class is missing).  Section 3 of the
    specification gives it an origin, extents, a resolution [r] and a dense
    array of distances saturated at [max_distance]; section 4.1 gives
    [world_to_grid] as [floor((x - ox) / r)] per axis, without clamping,
    and [in_bounds] as an interval check against the extents.  The extents
    are kept as numbers of cells. *)
Record VoxelGrid (D : Type) : Type := mkVoxelGrid {
  origin       : Vector3 D;
  cells_x      : Z;
  cells_y      : Z;
  cells_z      : Z;
  resolution   : D;
  max_distance : D;
  stored       : Z -> Z -> Z -> D
}.

Section Grid.
Context {D : Type} `{Double D}.

(** Modelled from the spec: [world_to_grid] of section 4.1 (the source
    of [OccupancyGrid::worldToGrid] is missing),
    [gx = floor((x - ox) / r)] and likewise for [y] and [z], no clamping. *)
Definition world_to_grid (G : VoxelGrid D) (x y z : D) : Z * Z * Z :=
  (d_floor ((x - vx (origin G)) / resolution G)%D,
   d_floor ((y - vy (origin G)) / resolution G)%D,
   d_floor ((z - vz (origin G)) / resolution G)%D).

(** Modelled from the spec: [in_bounds] of section 4.1 (for the missing
    [OccupancyGrid::isInBounds]), an interval check of each index against
    the extents. *)
Definition in_bounds (G : VoxelGrid D) (gx gy gz : Z) : bool :=
  ((0 <=? gx) && (gx <? cells_x G) &&
   (0 <=? gy) && (gy <? cells_y G) &&
   (0 <=? gz) && (gz <? cells_z G))%Z.

(** The voxel grid behind the interface the query is written against;
    [distance] of section 4.1 returns the stored value. *)
Definition grid_of (G : VoxelGrid D) : OccupancyGrid D := {|
  worldToGrid   := world_to_grid G;
  isInBounds    := in_bounds G;
  getDistance   := stored G;
  getResolution := resolution G
|}.
End Grid.

(** A collision state in which every sphere position is already current:
    [updateSphereState] has nothing to recompute.  The index is the
    position of the sphere in the list; an index past the end reads a
    default sphere. *)
Definition FrozenState (D : Type) : Type := list (CollisionSphereState D).

Definition default_sphere {D : Type} `{Double D} : CollisionSphereState D :=
  {| model := {| name := ""; radius := d_zero |};
     pos := {| vx := d_zero; vy := d_zero; vz := d_zero |} |}.

#[export] Instance frozen_ops {D : Type} `{Double D}
  : RobotCollisionStateOps D (FrozenState D) nat := {|
  updateSphereState := fun st _ => st;
  sphereState := fun st i => nth i st default_sphere
|}.

(** ** Geometry over the reals *)

Definition sqr_dist (a b : Vector3 R) : R :=
  ((vx a - vx b) * (vx a - vx b) +
   (vy a - vy b) * (vy a - vy b) +
   (vz a - vz b) * (vz a - vz b))%R.

Definition euclid (a b : Vector3 R) : R := sqrt (sqr_dist a b).

(** Modelled from the spec: the point a cell of the voxel grid stands
    for, its center (the grid class is missing).  With [world_to_grid] a
    [floor], cell [g] covers [o + g r, o + (g + 1) r) on each axis. *)
Definition cell_center (G : VoxelGrid R) (c : Z * Z * Z) : Vector3 R :=
  let '(gx, gy, gz) := c in
  {| vx := (vx (origin G) + (IZR gx + 1 / 2) * resolution G)%R;
     vy := (vy (origin G) + (IZR gy + 1 / 2) * resolution G)%R;
     vz := (vz (origin G) + (IZR gz + 1 / 2) * resolution G)%R |}.

Definition cell_dist (G : VoxelGrid R) (c1 c2 : Z * Z * Z) : R :=
  euclid (cell_center G c1) (cell_center G c2).

(** Modelled from the spec: what the missing distance field stores by
    the invariant of section 3, the Euclidean distance from cell [c] to
    the nearest of the occupied cells [occ], saturated at
    [max_distance]. *)
Definition clamped_nearest
    (G : VoxelGrid R) (occ : list (Z * Z * Z)) (c : Z * Z * Z) : R :=
  fold_right (fun o acc => Rmin (cell_dist G c o) acc) (max_distance G) occ.

(** Modelled from the spec: the invariant of the missing voxel grid,
    section 3, "every cell's stored value equals the Euclidean distance
    (clamped to a configured max_distance) to the nearest occupied
    cell". *)
Definition field_invariant (G : VoxelGrid R) (occ : list (Z * Z * Z)) : Prop :=
  forall gx gy gz, in_bounds G gx gy gz = true ->
    stored G gx gy gz = clamped_nearest G occ (gx, gy, gz).

(** Every occupied cell is at least [m] away from the point [p]: the
    true nearest-obstacle distance of [p] is at least [m]. *)
Definition obstacles_at_least
    (G : VoxelGrid R) (occ : list (Z * Z * Z)) (p : Vector3 R) (m : R) : Prop :=
  forall c, In c occ -> (m <= euclid p (cell_center G c))%R.

(** ** Scenes *)

(** The occupancy grid of the test scenario: 3 m x 3 m x 3 m at a
    resolution of 0.02 m (150 cells per axis), origin (-0.75, -1.5, 0),
    distances saturated at 1.8; no obstacle has been added, so every cell
    stores the saturation value. *)
Definition empty_world : VoxelGrid float := {|
  origin := {| vx := (-0.75)%float; vy := (-1.5)%float; vz := 0%float |};
  cells_x := 150; cells_y := 150; cells_z := 150;
  resolution := 0x1.47ae147ae147bp-6%float;
  max_distance := 0x1.ccccccccccccdp+0%float;
  stored := fun _ _ _ => 0x1.ccccccccccccdp+0%float
|}.

Definition sphere_at (n : string) (r x y z : float) : CollisionSphereState float :=
  {| model := {| name := n; radius := r |};
     pos := {| vx := x; vy := y; vz := z |} |}.

(** One sphere of radius 0.05 far outside the grid, at (10, 10, 10). *)
Definition far_away : FrozenState float :=
  [sphere_at "s0" 0x1.999999999999ap-5%float 10%float 10%float 10%float].

(** The same sphere at the robot base, (0, 0, 0). *)
Definition at_base : FrozenState float :=
  [sphere_at "s0" 0x1.999999999999ap-5%float 0%float 0%float 0%float].

Local Open Scope R_scope.

(** A 4 x 4 x 4 grid of unit cells at the origin, saturating at 10. *)
Definition unit_cells : VoxelGrid R := {|
  origin := {| vx := 0; vy := 0; vz := 0 |};
  cells_x := 4; cells_y := 4; cells_z := 4;
  resolution := 1;
  max_distance := 10;
  stored := fun _ _ _ => 0
|}.

(** One occupied cell, diagonally away from cell (0, 0, 0). *)
Definition diagonal_obstacle : list (Z * Z * Z) := [(2, 2, 1)%Z].

(** The distance field of that obstacle over [unit_cells]. *)
Definition diagonal_world : VoxelGrid R := {|
  origin := origin unit_cells;
  cells_x := 4; cells_y := 4; cells_z := 4;
  resolution := 1;
  max_distance := 10;
  stored := fun gx gy gz => clamped_nearest unit_cells diagonal_obstacle (gx, gy, gz)
|}.

(** A sphere of radius 1/2 whose center sits in the corner of cell
    (0, 0, 0) that faces the obstacle. *)
Definition corner_sphere : FrozenState R :=
  [{| model := {| name := "s0"; radius := 1 / 2 |};
      pos := {| vx := 9 / 10; vy := 9 / 10; vz := 9 / 10 |} |}].

End Collision.

(* ===================================================================== *)
(** * Part II: test_scenario.cpp                                          *)
(* ===================================================================== *)

Module Scenario.
Open Scope string_scope.
Open Scope list_scope.

(** ** How a call can end

    A call returns, leaves through a C++ exception, or runs into
    behaviour the language leaves undefined (an index past the end of a
    vector, a read of an uninitialised buffer, a write past the end of
    [sTemp]). *)

Inductive exception : Type :=
| length_error
| out_of_range.

Inductive outcome (A : Type) : Type :=
| Returns (a : A)
| Throws (e : exception)
| Undefined.
Arguments Throws {A} e.
Arguments Undefined {A}.

Definition bind {A B : Type} (m : outcome A) (k : A -> outcome B) : outcome B :=
  match m with
  | Returns a => k a
  | Throws e => Throws e
  | Undefined => Undefined
  end.

Notation "x <- m ;; k" := (bind m (fun x => k))
  (at level 61, m at next level, right associativity).
Notation "' pat <- m ;; k" := (bind m (fun x => match x with pat => k end))
  (at level 61, pat pattern, m at next level, right associativity).

(** [for (i = lo; i < lo + n; ++i) st = body(i, st)]. *)
Fixpoint for_loop {St : Type}
    (n : nat) (body : nat -> St -> outcome St) (lo : nat) (st : St)
    : outcome St :=
  match n with
  | O => Returns st
  | S n' => st' <- body lo st ;; for_loop n' body (S lo) st'
  end.

(** ** [std::vector] *)

(** [v.resize(n)] with value-initialised new elements. *)
Definition vec_resize {A : Type} (n : nat) (dflt : A) (v : list A) : list A :=
  firstn n v ++ repeat dflt (n - List.length v).

(** [v[i]], undefined past the end. *)
Definition vec_get {A : Type} (v : list A) (i : nat) : outcome A :=
  match nth_error v i with
  | Some a => Returns a
  | None => Undefined
  end.

(** [v.at(i)], which throws past the end. *)
Definition vec_at {A : Type} (v : list A) (i : nat) : outcome A :=
  match nth_error v i with
  | Some a => Returns a
  | None => Throws out_of_range
  end.

Fixpoint replace_nth {A : Type} (v : list A) (i : nat) (a : A) : list A :=
  match v, i with
  | [], _ => []
  | _ :: v', O => a :: v'
  | b :: v', S i' => b :: replace_nth v' i' a
  end.

(** [v[i] = a], undefined past the end. *)
Definition vec_set {A : Type} (v : list A) (i : nat) (a : A) : outcome (list A) :=
  if (i <? List.length v)%nat then Returns (replace_nth v i a) else Undefined.

(** [resize] takes a [size_t]: an [int] count converts modulo 2^64, and a
    count above [max_size()] makes [resize] throw [std::length_error].
    For a vector of [std::vector<double>] (24 bytes each) [max_size()] is
    [PTRDIFF_MAX / 24].  Allocation itself is taken to succeed. *)
Definition size_t_of_int (n : Z) : Z := (n mod 2 ^ 64)%Z.

Definition max_size_rows : Z := ((2 ^ 63 - 1) / 24)%Z.

Definition resize_rows {A : Type} (count : Z) (v : list (list A))
    : outcome (list (list A)) :=
  let n := size_t_of_int count in
  if (max_size_rows <? n)%Z then Throws length_error
  else Returns (vec_resize (Z.to_nat n) [] v).

(** ** The C library *)

(** [isspace] in the "C" locale: space, and the five controls from
    horizontal tab (9) to carriage return (13). *)
Definition isspace (c : ascii) : bool :=
  let n := nat_of_ascii c in
  (n =? 32)%nat || ((9 <=? n)%nat && (n <=? 13)%nat).

Definition isdigit (c : ascii) : bool :=
  let n := nat_of_ascii c in (48 <=? n)%nat && (n <=? 57)%nat.

Definition digit_value (c : ascii) : Z := Z.of_nat (nat_of_ascii c) - 48.

(** The bytes of a buffer up to its first NUL: what [strlen], [atoi],
    [atof] and [std::string(const char* )] see of it. *)
Fixpoint c_string (s : string) : string :=
  match s with
  | EmptyString => EmptyString
  | String c s' => if (nat_of_ascii c =? 0)%nat then EmptyString
                   else String c (c_string s')
  end.

Definition strlen (s : string) : nat := String.length (c_string s).

Fixpoint skip_space (s : string) : string :=
  match s with
  | EmptyString => EmptyString
  | String c s' => if isspace c then skip_space s' else s
  end.

(** A leading ['+'] or ['-']: whether the sign is negative, and the rest. *)
Definition scan_sign (s : string) : bool * string :=
  match s with
  | String "-" s' => (true, s')
  | String "+" s' => (false, s')
  | _ => (false, s)
  end.

(** The longest prefix of decimal digits, and the rest. *)
Fixpoint scan_digits (s : string) : string * string :=
  match s with
  | EmptyString => (EmptyString, EmptyString)
  | String c s' =>
      if isdigit c then let (ds, r) := scan_digits s' in (String c ds, r)
      else (EmptyString, s)
  end.

Fixpoint digits_value (acc : Z) (ds : string) : Z :=
  match ds with
  | EmptyString => acc
  | String c ds' => digits_value (10 * acc + digit_value c) ds'
  end.

Definition INT_MIN : Z := (- 2 ^ 31)%Z.
Definition INT_MAX : Z := (2 ^ 31 - 1)%Z.

(** [atoi]: optional white space, an optional sign, then decimal digits;
    0 when there are none.  A value that does not fit [int] is undefined
    behaviour. *)
Definition atoi (s : string) : outcome Z :=
  let '(neg, s1) := scan_sign (skip_space (c_string s)) in
  let '(ds, _) := scan_digits s1 in
  let v := digits_value 0 ds in
  let v := if neg then (- v)%Z else v in
  if ((INT_MIN <=? v) && (v <=? INT_MAX))%Z then Returns v else Undefined.

(** *** [double] and [atof] *)

(** [double] is IEEE binary64. *)
Definition double : Type := float.
Bind Scope float_scope with double.

(** [double(n)] for an [int]: every [int] is a double. *)
Definition double_of_int (n : Z) : double :=
  SF2Prim (binary_normalize prec emax n 0 false).

(** The double nearest to [num / den], ties to even, infinite beyond the
    largest finite double, with the sign given: the quotient as IEEE 754
    rounds it, taken of the two integers. *)
Definition nearest_double (neg : bool) (num den : Z) : double :=
  match num, den with
  | Zpos _, Zpos _ =>
      let '(q, e, l) := SFdiv_core_binary prec emax num 0 den 0 in
      SF2Prim (binary_round_aux prec emax neg q e l)
  | _, _ => if neg then PrimFloat.neg_zero else PrimFloat.zero
  end.

(** The double nearest to [m * 10 ^ e]. *)
Definition decimal_double (neg : bool) (m e : Z) : double :=
  if (0 <=? e)%Z then nearest_double neg (m * 10 ^ e) 1
  else nearest_double neg m (10 ^ (- e)).

(** The double nearest to [m * 2 ^ e]. *)
Definition binary_double (neg : bool) (m e : Z) : double :=
  SF2Prim (binary_normalize prec emax (if neg then - m else m) e neg).

Definition isxdigit (c : ascii) : bool :=
  let n := nat_of_ascii c in
  isdigit c || ((97 <=? n)%nat && (n <=? 102)%nat)
  || ((65 <=? n)%nat && (n <=? 70)%nat).

Definition xdigit_value (c : ascii) : Z :=
  let n := Z.of_nat (nat_of_ascii c) in
  if isdigit c then n - 48 else if (97 <=? n)%Z then n - 87 else n - 55.

(** The longest prefix of hexadecimal digits, and the rest. *)
Fixpoint scan_xdigits (s : string) : string * string :=
  match s with
  | EmptyString => (EmptyString, EmptyString)
  | String c s' =>
      if isxdigit c then let (ds, r) := scan_xdigits s' in (String c ds, r)
      else (EmptyString, s)
  end.

Fixpoint xdigits_value (acc : Z) (ds : string) : Z :=
  match ds with
  | EmptyString => acc
  | String c ds' => xdigits_value (16 * acc + xdigit_value c) ds'
  end.

Definition tolower (c : ascii) : ascii :=
  let n := nat_of_ascii c in
  if ((65 <=? n) && (n <=? 90))%nat then ascii_of_nat (n + 32) else c.

(** Whether [s] starts with the letters of [word], in either case;
    [word] is given in lower case. *)
Fixpoint starts_with (word s : string) : bool :=
  match word, s with
  | EmptyString, _ => true
  | String a word', String c s' =>
      Ascii.eqb (tolower c) a && starts_with word' s'
  | String _ _, EmptyString => false
  end.

(** The exponent part of a numeral: the mark (['e'] or ['p'], in either
    case), an optional sign and at least one decimal digit; anything else
    is not an exponent and counts as 0. *)
Definition scan_exponent (mark : ascii) (s : string) : Z :=
  match s with
  | String c s' =>
      if Ascii.eqb (tolower c) mark then
        let '(neg, s1) := scan_sign s' in
        let '(ds, _) := scan_digits s1 in
        match ds with
        | EmptyString => 0%Z
        | _ => if neg then (- digits_value 0 ds)%Z else digits_value 0 ds
        end
      else 0%Z
  | EmptyString => 0%Z
  end.

(** A decimal numeral at the start of [s]: digits with an optional point
    (at least one digit on either side of it) and an optional exponent,
    as the integer its digits spell and the power of ten that scales
    it. *)
Definition scan_decimal (s : string) : option (Z * Z) :=
  let '(ip, s2) := scan_digits s in
  let '(fp, s3) :=
    match s2 with
    | String "." t => scan_digits t
    | _ => (EmptyString, s2)
    end in
  match (ip ++ fp)%string with
  | EmptyString => None
  | ds => Some (digits_value 0 ds,
                (scan_exponent "e" s3 - Z.of_nat (String.length fp))%Z)
  end.

(** A hexadecimal numeral at the start of [s]: [0x] or [0X], hexadecimal
    digits with an optional point (at least one digit on either side of
    it) and an optional binary exponent, as the integer its digits spell
    and the power of two that scales it. *)
Definition scan_hexadecimal (s : string) : option (Z * Z) :=
  match s with
  | String "0" (String x s1) =>
      if Ascii.eqb (tolower x) "x" then
        let '(ip, s2) := scan_xdigits s1 in
        let '(fp, s3) :=
          match s2 with
          | String "." t => scan_xdigits t
          | _ => (EmptyString, s2)
          end in
        match (ip ++ fp)%string with
        | EmptyString => None
        | ds => Some (xdigits_value 0 ds,
                      (scan_exponent "p" s3
                       - 4 * Z.of_nat (String.length fp))%Z)
        end
      else None
  | _ => None
  end.

(** [atof], which is [strtod] without the end pointer, in the "C" locale:
    optional white space, an optional sign, then [inf] or [infinity], or
    [nan] with an optional parenthesis, or a hexadecimal numeral, or a
    decimal numeral; 0.0 when none of these starts the string.  The
    result is the double nearest to the number written, an infinity when
    that is beyond the range of [double].  The one NaN of [float] stands
    for every NaN. *)
Definition atof (s : string) : double :=
  let '(neg, s1) := scan_sign (skip_space (c_string s)) in
  if starts_with "inf" s1 then
    if neg then PrimFloat.neg_infinity else PrimFloat.infinity
  else if starts_with "nan" s1 then PrimFloat.nan
  else
    match scan_hexadecimal s1 with
    | Some (m, e) => binary_double neg m e
    | None =>
        match scan_decimal s1 with
        | Some (m, e) => decimal_double neg m e
        | None => PrimFloat.zero
        end
    end.

(** *** Streams *)

(** An open [FILE*]: the bytes not yet read and the end-of-file
    indicator. *)
Record FILE : Type := mkFILE {
  unread : string;
  eof_indicator : bool
}.

(** The files that can be opened for reading, by name. *)
Definition filesystem : Type := string -> option string.

Definition fopen (fs : filesystem) (filename : string) : option FILE :=
  match fs filename with
  | Some contents => Some {| unread := contents; eof_indicator := false |}
  | None => None
  end.

Definition feof (f : FILE) : bool := eof_indicator f.

(** The longest prefix free of white space, and the rest. *)
Fixpoint scan_word (s : string) : string * string :=
  match s with
  | EmptyString => (EmptyString, EmptyString)
  | String c s' =>
      if isspace c then (EmptyString, s)
      else let (w, r) := scan_word s' in (String c w, r)
  end.

Definition string_is_empty (s : string) : bool :=
  match s with EmptyString => true | _ => false end.

(** A [char sTemp[1024]]: [None] while it is uninitialised, otherwise
    the bytes before the terminating NUL that was last written. *)
Definition buffer : Type := option string.

Definition buffer_size : nat := 1024.

Definition EOF : Z := (-1)%Z.

(** [fscanf(f, "%s", buf)]: skip white space, then store the following run
    of non-white-space bytes and a NUL into [buf].  It returns 1, or [EOF]
    when the input ends before any byte of a word; reaching the end of the
    input sets the end-of-file indicator.  A word that does not fit the
    buffer with its NUL is written past its end. *)
Definition fscanf_s (f : FILE) (buf : buffer) : outcome (Z * FILE * buffer) :=
  match skip_space (unread f) with
  | EmptyString =>
      Returns (EOF, {| unread := EmptyString; eof_indicator := true |}, buf)
  | s =>
      let (w, r) := scan_word s in
      if (String.length w <? buffer_size)%nat then
        Returns (1%Z,
                 {| unread := r;
                    eof_indicator := eof_indicator f || string_is_empty r |},
                 Some w)
      else Undefined
  end.

(** Reading a buffer as a C string. *)
Definition buffer_string (buf : buffer) : outcome string :=
  match buf with
  | Some s => Returns (c_string s)
  | None => Undefined
  end.

(** ** Messages *)

(** [ros::Time]. *)
Definition Time : Type := Z.

(** [std_msgs::Header], without [seq]. *)
Record Header : Type := mkHeader {
  frame_id : string;
  stamp : Time
}.

(** [geometry_msgs::Point], [Quaternion] and [Pose]; the fields are
    [x], [y], [z] (and [w]) in the source. *)
Record Point : Type := mkPoint { px : double; py : double; pz : double }.

Record Quaternion : Type := mkQuaternion {
  qx : double; qy : double; qz : double; qw : double
}.

Record Pose : Type := mkPose { position : Point; orientation : Quaternion }.

(** [shape_msgs::SolidPrimitive] and its [type] constants. *)
Inductive SolidPrimitiveType : Type := BOX | SPHERE | CYLINDER | CONE.

Record SolidPrimitive : Type := mkSolidPrimitive {
  type : SolidPrimitiveType;
  dimensions : list double
}.

(** [moveit_msgs::CollisionObject] and its [operation] constants; of the
    message, the fields the scenario code writes. *)
Inductive Operation : Type := ADD | REMOVE | APPEND | MOVE.

Record CollisionObject : Type := mkCollisionObject {
  header : Header;
  id : string;
  primitives : list SolidPrimitive;
  primitive_poses : list Pose;
  operation : Operation
}.

(** [sensor_msgs::JointState] (the fields are [name] and [position]) and
    the part of [moveit_msgs::RobotState] that is read. *)
Record JointState : Type := mkJointState {
  joint_name : list string;
  joint_position : list double
}.

Record RobotStateMsg : Type := mkRobotStateMsg { joint_state : JointState }.

(** [smpl::RobotState] is a [std::vector<double>]. *)
Definition RobotState : Type := list double.

(** A default-constructed object: empty lists, zeros, and the operation
    constant 0, which is [ADD]. *)
Definition default_CollisionObject : CollisionObject := {|
  header := {| frame_id := ""; stamp := 0%Z |};
  id := "";
  primitives := [];
  primitive_poses := [];
  operation := ADD
|}.

(** What is printed or logged. *)
Inductive Diag : Type :=
| UnableToOpenObjectsFile       (* ROS_INFO, GetCollisionObjects *)
| ParsedStringHasLengthLt1      (* printf, GetCollisionObjects *)
| ObjectsInFile (num_obs : Z)   (* ROS_INFO, GetCollisionObjects *)
| IdListLengthMismatch          (* ROS_INFO, GetCollisionCubes *)
| JointVariableNotFound (var_name : string). (* ROS_ERROR, MakeRobotState *)

(** ** test_scenario.cpp *)

(** [ros::Time::now()] is read once per cube; [clock k] is what its
    [k]-th reading within a call returns. *)
Definition Clock : Type := nat -> Time.

Definition GetCollisionCube
    (now : Time) (pose : Pose) (dims : list double) (frame_id id : string)
    : outcome CollisionObject :=
  let box_dimensions := vec_resize 3 0%float [] in
  d0 <- vec_get dims 0 ;;
  box_dimensions <- vec_set box_dimensions 0 d0 ;;
  d1 <- vec_get dims 1 ;;
  box_dimensions <- vec_set box_dimensions 1 d1 ;;
  d2 <- vec_get dims 2 ;;
  box_dimensions <- vec_set box_dimensions 2 d2 ;;
  let box_object := {| type := BOX; dimensions := box_dimensions |} in
  Returns {|
    header := {| frame_id := frame_id; stamp := now |};
    id := id;
    primitives := primitives default_CollisionObject ++ [box_object];
    primitive_poses := primitive_poses default_CollisionObject ++ [pose];
    operation := ADD
  |}.

(** The locals of [GetCollisionCubes] that its loop updates. *)
Record CubesLocals : Type := mkCubesLocals {
  objs : list CollisionObject;
  dims : list double;
  pose : Pose
}.

Definition cube_of_row
    (clock : Clock) (objects : list (list double)) (object_ids : list string)
    (frame_id : string) (i : nat) (l : CubesLocals) : outcome CubesLocals :=
  row <- vec_get objects i ;;
  x <- vec_get row 0 ;;
  y <- vec_get row 1 ;;
  z <- vec_get row 2 ;;
  let pose := {| position := {| px := x; py := y; pz := z |};
                 orientation := orientation (pose l) |} in
  d <- vec_get row 3 ;;
  dims <- vec_set (dims l) 0 d ;;
  d <- vec_get row 4 ;;
  dims <- vec_set dims 1 d ;;
  d <- vec_get row 5 ;;
  dims <- vec_set dims 2 d ;;
  id <- vec_at object_ids i ;;
  cube <- GetCollisionCube (clock i) pose dims frame_id id ;;
  Returns {| objs := objs l ++ [cube]; dims := dims; pose := pose |}.

Definition GetCollisionCubes
    (clock : Clock) (objects : list (list double)) (object_ids : list string)
    (frame_id : string) : outcome (list CollisionObject * list Diag) :=
  let l := {| objs := [];
              dims := repeat 0%float 3;
              pose := {| position := {| px := 0; py := 0; pz := 0 |};
                         orientation :=
                           {| qx := 0; qy := 0; qz := 0; qw := 1 |} |} |} in
  if negb (List.length object_ids =? List.length objects)%nat then
    Returns (objs l, [IdListLengthMismatch])
  else
    l <- for_loop (List.length objects)
           (cube_of_row clock objects object_ids frame_id) 0 l ;;
    Returns (objs l, []).

(** The locals of [GetCollisionObjects] that change after the file has
    been opened, and what has been printed so far. *)
Record ObjectsLocals : Type := mkObjectsLocals {
  fCfg : FILE;
  sTemp : buffer;
  object_ids : list string;
  objects : list (list double);
  printed : list Diag
}.

(** [if (fscanf(fCfg, "%s", sTemp) < 1) printf(...)]. *)
Definition scan_sTemp (l : ObjectsLocals) : outcome ObjectsLocals :=
  '(n, f, buf) <- fscanf_s (fCfg l) (sTemp l) ;;
  Returns {|
    fCfg := f;
    sTemp := buf;
    object_ids := object_ids l;
    objects := objects l;
    printed := if (n <? 1)%Z then printed l ++ [ParsedStringHasLengthLt1]
               else printed l
  |}.

(** The body of the loop over [j]. *)
Definition read_field (i j : nat) (l : ObjectsLocals) : outcome ObjectsLocals :=
  l <- scan_sTemp l ;;
  if feof (fCfg l) then Returns l
  else
    s <- buffer_string (sTemp l) ;;
    if (String.length s =? 0)%nat then Returns l
    else
      row <- vec_get (objects l) i ;;
      row <- vec_set row j (atof s) ;;
      objects' <- vec_set (objects l) i row ;;
      Returns {| fCfg := fCfg l; sTemp := sTemp l;
                 object_ids := object_ids l; objects := objects';
                 printed := printed l |}.

(** The body of the loop over [i]. *)
Definition read_object (i : nat) (l : ObjectsLocals) : outcome ObjectsLocals :=
  l <- scan_sTemp l ;;
  s <- buffer_string (sTemp l) ;;
  row <- vec_get (objects l) i ;;
  objects' <- vec_set (objects l) i (vec_resize 6 0%float row) ;;
  for_loop 6 (read_field i) 0
    {| fCfg := fCfg l; sTemp := sTemp l;
       object_ids := object_ids l ++ [s]; objects := objects';
       printed := printed l |}.

Definition GetCollisionObjects
    (fs : filesystem) (clock : Clock) (filename frame_id : string)
    : outcome (list CollisionObject * list Diag) :=
  match fopen fs filename with
  | None => Returns ([], [UnableToOpenObjectsFile])
  | Some f =>
      (* get number of objects *)
      l <- scan_sTemp {| fCfg := f; sTemp := None; object_ids := [];
                         objects := []; printed := [] |} ;;
      s <- buffer_string (sTemp l) ;;
      num_obs <- atoi s ;;
      (* get {x y z dimx dimy dimz} for each object *)
      objects' <- resize_rows num_obs (objects l) ;;
      l <- for_loop (Z.to_nat num_obs) read_object 0
             {| fCfg := fCfg l; sTemp := sTemp l;
                object_ids := []; objects := objects';
                printed := printed l ++ [ObjectsInFile num_obs] |} ;;
      '(objs, logged) <-
         GetCollisionCubes clock (objects l) (object_ids l) frame_id ;;
      Returns (objs, printed l ++ logged)
  end.

(** The inner loop of [MakeRobotState]: the position at the first index
    whose name is [var_name], if there is one.  [i] is the index of the
    head of [names] in the message. *)
Fixpoint find_joint_position
    (names : list string) (positions : list double) (i : nat)
    (var_name : string) : outcome (option double) :=
  match names with
  | [] => Returns None
  | n :: names' =>
      if String.eqb n var_name then
        p <- vec_get positions i ;; Returns (Some p)
      else find_joint_position names' positions (S i) var_name
  end.

(** The loop over the planning joints, with [state] as built so far. *)
Fixpoint collect_joint_positions
    (robot_state : RobotStateMsg) (planning_joints : list string)
    (state : RobotState) : outcome (RobotState * bool * list Diag) :=
  match planning_joints with
  | [] => Returns (state, true, [])
  | var_name :: rest =>
      found <- find_joint_position
                 (joint_name (joint_state robot_state))
                 (joint_position (joint_state robot_state)) 0 var_name ;;
      match found with
      | Some p => collect_joint_positions robot_state rest (state ++ [p])
      | None => Returns ([], false, [JointVariableNotFound var_name])
      end
  end.

(** [MakeRobotState(const moveit_msgs::RobotState*, const smpl::RobotModel* )];
    of the model, [getPlanningJoints()] is what is used. *)
Definition MakeRobotState
    (robot_state : RobotStateMsg) (planning_joints : list string)
    : outcome (RobotState * bool * list Diag) :=
  collect_joint_positions robot_state planning_joints [].

(** ** Notions the properties are stated with *)

(** The quaternion of no rotation. *)
Definition identity_orientation : Quaternion :=
  {| qx := 0; qy := 0; qz := 0; qw := 1 |}.

(** An added box at an unrotated pose. *)
Definition added_upright_box (o : CollisionObject) : Prop :=
  operation o = ADD /\
  (exists dx dy dz,
     primitives o = [{| type := BOX; dimensions := [dx; dy; dz] |}]) /\
  (exists p,
     primitive_poses o =
     [{| position := p; orientation := identity_orientation |}]).

(** A box as [GetCollisionCube] builds it. *)
Definition box (frame_id : string) (now : Time) (id : string)
    (x y z dx dy dz : double) : CollisionObject := {|
  header := {| frame_id := frame_id; stamp := now |};
  id := id;
  primitives := [{| type := BOX; dimensions := [dx; dy; dz] |}];
  primitive_poses :=
    [{| position := {| px := x; py := y; pz := z |};
        orientation := identity_orientation |}];
  operation := ADD
|}.

(** The count a file declares: its first word, through [atoi]. *)
Definition declared_count (contents : string) : outcome Z :=
  '(_, _, buf) <- fscanf_s {| unread := contents; eof_indicator := false |} None ;;
  s <- buffer_string buf ;;
  atoi s.

(** The first index at which [names] holds [j]. *)
Fixpoint first_index (names : list string) (j : string) : option nat :=
  match names with
  | [] => None
  | n :: names' =>
      if String.eqb n j then Some 0%nat
      else option_map S (first_index names' j)
  end.

(** The position a message records under the name [j]. *)
Definition recorded_position (js : JointState) (j : string) : option double :=
  match first_index (joint_name js) j with
  | Some i => nth_error (joint_position js) i
  | None => None
  end.

(** The number of words (maximal runs of bytes that are not white space)
    in [s]; [in_word] says whether the byte before [s] is part of a word. *)
Fixpoint count_words_from (in_word : bool) (s : string) : nat :=
  match s with
  | EmptyString => 0
  | String c s' =>
      if isspace c then count_words_from false s'
      else ((if in_word then 0 else 1) + count_words_from true s')%nat
  end.

(** The number of words of a file. *)
Definition count_words (s : string) : nat := count_words_from false s.

(** Every word of [s] fits [sTemp] with its terminating NUL; [run] is the
    length of the word that the byte before [s] ends. *)
Fixpoint words_fit_from (run : nat) (s : string) : bool :=
  match s with
  | EmptyString => true
  | String c s' =>
      if isspace c then words_fit_from 0 s'
      else (S run <? buffer_size)%nat && words_fit_from (S run) s'
  end.

(** Every word of a file is shorter than the 1024 bytes of [sTemp]. *)
Definition words_fit (s : string) : bool := words_fit_from 0 s.

(** [s] consists of white space. *)
Fixpoint all_space (s : string) : bool :=
  match s with
  | EmptyString => true
  | String c s' => isspace c && all_space s'
  end.

(** [s] consists of decimal digits. *)
Fixpoint all_digits (s : string) : bool :=
  match s with
  | EmptyString => true
  | String c s' => isdigit c && all_digits s'
  end.

(** [s] contains a decimal point. *)
Fixpoint contains_point (s : string) : bool :=
  match s with
  | EmptyString => false
  | String c s' => Ascii.eqb c "." || contains_point s'
  end.

(** A decimal numeral as it is written in a record: an optional minus
    sign, digits, and optionally a point followed by digits. *)
Record numeral : Type := mkNumeral {
  negative : bool;
  whole : string;
  fraction : option string
}.

(** The digits after the point, none when there is no point. *)
Definition fraction_digits (n : numeral) : string :=
  match fraction n with Some f => f | None => EmptyString end.

(** The token a numeral is written as. *)
Definition written (n : numeral) : string :=
  ((if negative n then "-" else "") ++ whole n ++
   match fraction n with Some f => "." ++ f | None => "" end)%string.

(** Digits only, and at least one before the point. *)
Definition well_formed (n : numeral) : Prop :=
  all_digits (whole n) = true /\ whole n <> EmptyString /\
  all_digits (fraction_digits n) = true.

(** The double a numeral denotes: the one nearest to its digits read as
    an integer, over the power of ten its fraction has digits, with the
    sign written. *)
Definition value (n : numeral) : double :=
  nearest_double (negative n)
    (digits_value 0 (whole n ++ fraction_digits n)%string)
    (10 ^ Z.of_nat (String.length (fraction_digits n))).

(** The bytes a numeral is written with. *)
Definition numeral_byte (c : ascii) : bool :=
  isdigit c || Ascii.eqb c "-" || Ascii.eqb c ".".

(** [s] consists of such bytes. *)
Fixpoint all_numeral_bytes (s : string) : bool :=
  match s with
  | EmptyString => true
  | String c s' => numeral_byte c && all_numeral_bytes s'
  end.

(** ** Invariants of the loops *)

(** What the loop of [GetCollisionCubes] keeps true: the cubes built so
    far are added upright boxes, and [pose] still has the orientation it
    was given before the loop. *)
Definition cubes_invariant (_ : nat) (l : CubesLocals) : Prop :=
  Forall added_upright_box (objs l) /\
  orientation (pose l) = identity_orientation.

(** The first [n] rows hold six values each. *)
Definition rows_ready (n : nat) (objects : list (list double)) : Prop :=
  forall r, (r < n)%nat ->
    exists row, nth_error objects r = Some row /\ List.length row = 6%nat.

(** The locals after [k] calls of [fscanf] on a file of [W] words that
    declares [N] objects: the words not yet read, what has been printed
    (one line for the count, one for every call that found no word), an
    initialised buffer, and [N] rows. *)
Record scanning (W : nat) (N : Z) (k : nat) (l : ObjectsLocals) : Prop := {
  scanning_fit : words_fit (unread (fCfg l)) = true;
  scanning_pending : count_words (unread (fCfg l)) = (W - k)%nat;
  scanning_printed :
    printed l = ObjectsInFile N :: repeat ParsedStringHasLengthLt1 (k - W);
  scanning_buffer : exists w, sTemp l = Some w;
  scanning_rows : List.length (objects l) = Z.to_nat N
}.

(** ** Files and messages *)

(** The line feed, byte 10. *)
Definition newline : string := String "010" EmptyString.

(** A file system that holds one file. *)
Definition only_file (name contents : string) : filesystem :=
  fun n => if String.eqb n name then Some contents else None.

(** The doubles [0.1] and [0.2] of C++: the ones nearest to 1/10 and to
    2/10. *)
Definition tenth : double := 0x1.999999999999ap-4.
Definition fifth : double := 0x1.999999999999ap-3.

(** [2\nbox1 0 0 0 0.1 0.1 0.1\nbox2 1 0 0 0.2 0.2 0.2\n] *)
Definition two_boxes : string :=
  "2" ++ newline ++
  "box1 0 0 0 0.1 0.1 0.1" ++ newline ++
  "box2 1 0 0 0.2 0.2 0.2" ++ newline.

(** The file of the specification, cut off in the second record. *)
Definition short_read : string :=
  "2" ++ newline ++
  "box1 0 0 0 0.1 0.1 0.1" ++ newline ++
  "box2 1 0 0".

(** One record whose six fields are not numbers. *)
Definition not_numbers : string :=
  "1" ++ newline ++ "box1 a b c d e f" ++ newline.

(** A file that declares -1 objects. *)
Definition minus_one : string := "-1" ++ newline.

(** One record, written without a decimal point anywhere. *)
Definition integer_fields : list string := ["1"; "2"; "3"; "4"; "5"; "6"].

(** A record: its id, then its fields, each after one space. *)
Definition record_line (id : string) (fields : list string) : string :=
  fold_left (fun line field => line ++ " " ++ field)%string fields id.

(** [1\nb 1 2 3 4 5 6\n] *)
Definition whole_numbers : string :=
  "1" ++ newline ++ record_line "b" integer_fields ++ newline.

(** The locals of [GetCollisionObjects] on [whole_numbers] when the
    field [x] of the record is about to be read. *)
Definition before_first_field : ObjectsLocals := {|
  fCfg := {| unread := " 1 2 3 4 5 6" ++ newline; eof_indicator := false |};
  sTemp := Some "b";
  object_ids := ["b"];
  objects := [repeat 0%float 6];
  printed := [ObjectsInFile 1]
|}.

(** The numeral [1]. *)
Definition one : numeral :=
  {| negative := false; whole := "1"; fraction := None |}.

(** A message with three joints, one name twice, and a model that plans
    for two of them in another order. *)
Definition three_joints : RobotStateMsg :=
  {| joint_state := {| joint_name := ["a"; "b"; "a"];
                       joint_position := [1; 2; 3]%float |} |}.

(** A message that names a joint and carries no positions. *)
Definition names_only : RobotStateMsg :=
  {| joint_state := {| joint_name := ["a"]; joint_position := [] |} |}.

(** ** Scenario files as they are written *)

(** The cubes [GetCollisionCubes] builds from the rows [objects] and the
    ids [object_ids], the first of them being number [i]: row by row, the
    first three values as the position, the next three as the dimensions,
    stamped with the [i]-th reading of the clock. *)
Fixpoint cubes_from
    (clock : Clock) (frame_id : string) (i : nat)
    (objects : list (list double)) (object_ids : list string)
    : list CollisionObject :=
  match objects, object_ids with
  | row :: objects', id :: object_ids' =>
      box frame_id (clock i) id
        (nth 0 row 0%float) (nth 1 row 0%float) (nth 2 row 0%float)
        (nth 3 row 0%float) (nth 4 row 0%float) (nth 5 row 0%float)
      :: cubes_from clock frame_id (S i) objects' object_ids'
  | _, _ => []
  end.

(** A word [fscanf] reads whole and [sTemp] holds unchanged: no white
    space and no NUL in it. *)
Fixpoint plain_word (s : string) : bool :=
  match s with
  | EmptyString => true
  | String c s' =>
      negb (isspace c) && negb (nat_of_ascii c =? 0)%nat && plain_word s'
  end.

(** One record of a scenario file. *)
Record box_record : Type := mkBoxRecord {
  record_id : string;
  record_fields : list numeral
}.

(** A record that can be written: a non-empty id without white space,
    six numerals, every token shorter than the buffer. *)
Definition writable (r : box_record) : Prop :=
  record_id r <> EmptyString /\
  plain_word (record_id r) = true /\
  (String.length (record_id r) < buffer_size)%nat /\
  List.length (record_fields r) = 6%nat /\
  Forall (fun n => well_formed n /\
                   (String.length (written n) < buffer_size)%nat)
    (record_fields r).

(** A record on a line of its own, before the text [rest]: a line feed,
    the id, then each field after one space. *)
Definition write_fields (fields : list numeral) (rest : string) : string :=
  fold_right (fun n line => " " ++ written n ++ line)%string rest fields.

Definition write_record (r : box_record) (rest : string) : string :=
  (newline ++ record_id r ++ write_fields (record_fields r) rest)%string.

Definition write_records (records : list box_record) (rest : string) : string :=
  fold_right write_record rest records.

(** A scenario file: the word [count], the records, and a final line
    feed. *)
Definition write_scenario (count : string) (records : list box_record) : string :=
  (count ++ write_records records newline)%string.

(** The row of doubles a record stands for. *)
Definition record_values (r : box_record) : list double :=
  map value (record_fields r).

(** The two records of the file [two_boxes]. *)
Definition box1_record : box_record := {|
  record_id := "box1";
  record_fields :=
    [mkNumeral false "0" None; mkNumeral false "0" None;
     mkNumeral false "0" None; mkNumeral false "0" (Some "1");
     mkNumeral false "0" (Some "1"); mkNumeral false "0" (Some "1")]
|}.

Definition box2_record : box_record := {|
  record_id := "box2";
  record_fields :=
    [mkNumeral false "1" None; mkNumeral false "0" None;
     mkNumeral false "0" None; mkNumeral false "0" (Some "2");
     mkNumeral false "0" (Some "2"); mkNumeral false "0" (Some "2")]
|}.

(** A file whose count line was forgotten: it starts with the first
    record. *)
Definition no_count_line : string :=
  "box1 0 0 0 0.1 0.1 0.1" ++ newline.

(** ** The parameter server *)

(** [XmlRpc::XmlRpcValue]: a value and its type tag.  A struct is kept as
    the list of its members. *)
#[warnings="-register-all"]
Inductive XmlRpcValue : Type :=
| TypeInvalid
| TypeBoolean (b : bool)
| TypeInt (i : Z)
| TypeDouble (d : double)
| TypeString (s : string)
| TypeDateTime
| TypeBase64 (bytes : string)
| TypeArray (a : list XmlRpcValue)
| TypeStruct (m : list (string * XmlRpcValue)).

(** The accessors of [XmlRpcValue] throw [XmlRpc::XmlRpcException] when
    the value has another type than the one asked for. *)
Inductive checked (A : Type) : Type :=
| Got (a : A)
| XmlRpcException.
Arguments XmlRpcException {A}.

Definition and_then {A B : Type} (m : checked A) (k : A -> checked B)
    : checked B :=
  match m with
  | Got a => k a
  | XmlRpcException => XmlRpcException
  end.

Notation "x <~ m ;; k" := (and_then m (fun x => k))
  (at level 61, m at next level, right associativity).

(** [for (int i = lo; i < lo + n; ++i)], in this monad. *)
Fixpoint checked_loop {St : Type}
    (n : nat) (body : nat -> St -> checked St) (lo : nat) (st : St)
    : checked St :=
  match n with
  | O => Got st
  | S n' => st' <~ body lo st ;; checked_loop n' body (S lo) st'
  end.

(** [v.size()]: defined for strings, binary data, arrays and structs. *)
Definition xml_size (v : XmlRpcValue) : checked nat :=
  match v with
  | TypeString s => Got (String.length s)
  | TypeBase64 b => Got (String.length b)
  | TypeArray a => Got (List.length a)
  | TypeStruct m => Got (List.length m)
  | _ => XmlRpcException
  end.

(** [v[i]] on a value that is not [const]: an array gives its element (an
    invalid value past its end, which the array grows by), an invalid
    value becomes an array of invalid values, anything else throws. *)
Definition xml_at (v : XmlRpcValue) (i : nat) : checked XmlRpcValue :=
  match v with
  | TypeArray a => Got (nth i a TypeInvalid)
  | TypeInvalid => Got TypeInvalid
  | _ => XmlRpcException
  end.

Fixpoint xml_lookup (m : list (string * XmlRpcValue)) (key : string)
    : XmlRpcValue :=
  match m with
  | [] => TypeInvalid
  | (k, v) :: m' => if String.eqb k key then v else xml_lookup m' key
  end.

(** [v[key]] on a value that is not [const]: a struct gives its member
    (an invalid value when it has none by that name), an invalid value
    becomes an empty struct, anything else throws. *)
Definition xml_member (v : XmlRpcValue) (key : string) : checked XmlRpcValue :=
  match v with
  | TypeStruct m => Got (xml_lookup m key)
  | TypeInvalid => Got TypeInvalid
  | _ => XmlRpcException
  end.

(** The conversion operators: an invalid value becomes the default value
    of the type asked for. *)
Definition xml_string (v : XmlRpcValue) : checked string :=
  match v with
  | TypeString s => Got s
  | TypeInvalid => Got EmptyString
  | _ => XmlRpcException
  end.

Definition xml_double (v : XmlRpcValue) : checked double :=
  match v with
  | TypeDouble d => Got d
  | TypeInvalid => Got 0%float
  | _ => XmlRpcException
  end.

Definition xml_int (v : XmlRpcValue) : checked Z :=
  match v with
  | TypeInt i => Got i
  | TypeInvalid => Got 0%Z
  | _ => XmlRpcException
  end.

(** What [ros::NodeHandle] is asked: [searchParam] resolves a key to the
    full name of a parameter, [getParam] reads the parameter of that
    name. *)
Record NodeHandle : Type := mkNodeHandle {
  searchParam : string -> option string;
  getParam : string -> option XmlRpcValue
}.

(** [getParam] into a variable of type [T] succeeds when the parameter
    exists and has the type of [T]. *)
Class ParamType (T : Type) : Type := {
  from_param : XmlRpcValue -> option T
}.

#[export] Instance string_param : ParamType string := {|
  from_param := fun v => match v with TypeString s => Some s | _ => None end
|}.

#[export] Instance value_param : ParamType XmlRpcValue := {|
  from_param := Some
|}.

(** What the functions below log. *)
Inductive Logged : Type :=
| FailedToFindKey (key : string)                 (* ROS_WARN, FindParam *)
| FailedToRetrieveParam (full_param : string)    (* ROS_WARN, FindParam *)
| JointStateIsNotAnArray                         (* ROS_WARN *)
| DoublesHaveToContainDecimalPoints              (* ROS_DEBUG *)
| JointStateIsNotOnTheParamServer                (* ROS_WARN *)
| MultiDofJointStateArrayIsEmpty                 (* ROS_WARN *)
| MultiDofJointStateIsNotAnArray                 (* ROS_WARN *)
| ReadInitialState (joints multi_dof_joints : nat) (* ROS_INFO *)
| FailedToGetInitialConfiguration.                (* ROS_ERROR *)

(** [FindParam<T>]: the flag returned, the value left in [out], and
    what was logged. *)
Definition FindParam {T : Type} `{ParamType T}
    (nh : NodeHandle) (key : string) (out : T) : bool * T * list Logged :=
  match searchParam nh key with
  | None => (false, out, [FailedToFindKey key])
  | Some full_param =>
      match getParam nh full_param with
      | Some v =>
          match from_param v with
          | Some t => (true, t, [])
          | None => (false, out, [FailedToRetrieveParam full_param])
          end
      | None => (false, out, [FailedToRetrieveParam full_param])
      end
  end.

Record RobotModelConfig : Type := mkRobotModelConfig {
  kinematics_frame : string;
  chain_tip_link : string
}.

Definition ReadRobotModelConfig (nh : NodeHandle) (config : RobotModelConfig)
    : bool * RobotModelConfig * list Logged :=
  let '(found, frame, logged) :=
    FindParam nh "robot_model/kinematics_frame" (kinematics_frame config) in
  let config := {| kinematics_frame := frame;
                   chain_tip_link := chain_tip_link config |} in
  if negb found then (false, config, logged)
  else
    let '(found, link, logged') :=
      FindParam nh "robot_model/chain_tip_link" (chain_tip_link config) in
    let config := {| kinematics_frame := kinematics_frame config;
                     chain_tip_link := link |} in
    if negb found then (false, config, logged ++ logged')
    else (true, config, logged ++ logged').

Definition GetRobotDescription (nh : NodeHandle)
    : (string * bool) * list Logged :=
  let '(found, robot_description, logged) :=
    FindParam nh "robot_description" EmptyString in
  if negb found then ((EmptyString, false), logged)
  else ((robot_description, true), logged).

(** ** The initial configuration *)

(** [geometry_msgs::Transform], [sensor_msgs::MultiDOFJointState] and
    [moveit_msgs::RobotState] with both of the fields that
    [ReadInitialConfiguration] writes. *)
Module moveit_msgs.

Record Transform : Type := mkTransform {
  translation : Point;
  rotation : Quaternion
}.

Record MultiDOFJointState : Type := mkMultiDOFJointState {
  joint_names : list string;
  transforms : list Transform
}.

Record RobotState : Type := mkRobotState {
  joint_state : JointState;
  multi_dof_joint_state : MultiDOFJointState
}.

End moveit_msgs.

(** A default-constructed transform: all zeros. *)
Definition default_Transform : moveit_msgs.Transform := {|
  moveit_msgs.translation := {| px := 0; py := 0; pz := 0 |};
  moveit_msgs.rotation := {| qx := 0; qy := 0; qz := 0; qw := 0 |}
|}.

(** A default-constructed message: no joints of either kind. *)
Definition default_RobotState : moveit_msgs.RobotState := {|
  moveit_msgs.joint_state := {| joint_name := []; joint_position := [] |};
  moveit_msgs.multi_dof_joint_state :=
    {| moveit_msgs.joint_names := []; moveit_msgs.transforms := [] |}
|}.

(** The part of the message that [MakeRobotState] reads. *)
Definition joint_part (state : moveit_msgs.RobotState) : RobotStateMsg :=
  {| joint_state := moveit_msgs.joint_state state |}.

(** One round of the loop over [initial_configuration/joint_state]. *)
Definition read_joint
    (xlist : XmlRpcValue) (i : nat) (st : JointState * list Logged)
    : checked (JointState * list Logged) :=
  let '(js, logged) := st in
  entry <~ xml_at xlist i ;;
  member <~ xml_member entry "name" ;;
  name <~ xml_string member ;;
  let js := {| joint_name := joint_name js ++ [name];
               joint_position := joint_position js |} in
  entry <~ xml_at xlist i ;;
  member <~ xml_member entry "position" ;;
  match member with
  | TypeDouble d =>
      Got ({| joint_name := joint_name js;
              joint_position := joint_position js ++ [d] |}, logged)
  | TypeInt pos =>
      Got ({| joint_name := joint_name js;
              joint_position := joint_position js ++ [double_of_int pos] |},
           logged ++ [DoublesHaveToContainDecimalPoints])
  | _ => Got (js, logged ++ [DoublesHaveToContainDecimalPoints])
  end.

(** The first half of [ReadInitialConfiguration]. *)
Definition read_joint_state
    (nh : NodeHandle) (xlist : XmlRpcValue) (js : JointState)
    : checked (XmlRpcValue * JointState * list Logged) :=
  let '(found, xlist, logged) :=
    FindParam nh "initial_configuration/joint_state" xlist in
  if found then
    let logged :=
      match xlist with
      | TypeArray _ => logged
      | _ => logged ++ [JointStateIsNotAnArray]
      end in
    size <~ xml_size xlist ;;
    if (0 <? size)%nat then
      st <~ checked_loop size (read_joint xlist) 0 (js, logged) ;;
      Got (xlist, fst st, snd st)
    else Got (xlist, js, logged)
  else Got (xlist, js, logged ++ [JointStateIsNotOnTheParamServer]).

Section MultiDof.

(** [smpl::angles::from_euler_zyx] followed by
    [tf::quaternionEigenToMsg]: the quaternion of a yaw, a pitch and a
    roll, as a message. *)
Variable from_euler_zyx : double -> double -> double -> Quaternion.

(** One round of the loop over
    [initial_configuration/multi_dof_joint_state]. *)
Definition read_multi_dof_joint
    (xlist : XmlRpcValue) (i : nat) (mdjs : moveit_msgs.MultiDOFJointState)
    : checked moveit_msgs.MultiDOFJointState :=
  let field key :=
    entry <~ xml_at xlist i ;; xml_member entry key in
  member <~ field "joint_name" ;;
  name <~ xml_string member ;;
  let names := replace_nth (moveit_msgs.joint_names mdjs) i name in
  member <~ field "yaw" ;; yaw <~ xml_double member ;;
  member <~ field "pitch" ;; pitch <~ xml_double member ;;
  member <~ field "roll" ;; roll <~ xml_double member ;;
  let orientation := from_euler_zyx yaw pitch roll in
  member <~ field "x" ;; x <~ xml_double member ;;
  member <~ field "y" ;; y <~ xml_double member ;;
  member <~ field "z" ;; z <~ xml_double member ;;
  Got {| moveit_msgs.joint_names := names;
         moveit_msgs.transforms :=
           replace_nth (moveit_msgs.transforms mdjs) i
             {| moveit_msgs.translation := {| px := x; py := y; pz := z |};
                moveit_msgs.rotation := orientation |} |}.

(** The second half of [ReadInitialConfiguration]. *)
Definition read_multi_dof_joint_state
    (nh : NodeHandle) (xlist : XmlRpcValue)
    (mdjs : moveit_msgs.MultiDOFJointState)
    : checked (moveit_msgs.MultiDOFJointState * list Logged) :=
  let '(found, xlist, logged) :=
    FindParam nh "initial_configuration/multi_dof_joint_state" xlist in
  if found then
    match xlist with
    | TypeArray a =>
        size <~ xml_size xlist ;;
        if negb (size =? 0)%nat then
          let mdjs := {|
            moveit_msgs.joint_names :=
              vec_resize size EmptyString (moveit_msgs.joint_names mdjs);
            moveit_msgs.transforms :=
              vec_resize size default_Transform (moveit_msgs.transforms mdjs)
          |} in
          mdjs <~ checked_loop size (read_multi_dof_joint xlist) 0 mdjs ;;
          Got (mdjs, logged)
        else Got (mdjs, logged ++ [MultiDofJointStateArrayIsEmpty])
    | _ => Got (mdjs, logged ++ [MultiDofJointStateIsNotAnArray])
    end
  else Got (mdjs, logged).

(** [ReadInitialConfiguration]: the flag returned, the message as left
    behind, and what was logged.  An exception leaves the function with
    the message half written; nothing in this program catches it. *)
Definition ReadInitialConfiguration
    (nh : NodeHandle) (state : moveit_msgs.RobotState)
    : checked (bool * moveit_msgs.RobotState * list Logged) :=
  r <~ read_joint_state nh TypeInvalid (moveit_msgs.joint_state state) ;;
  let '(xlist, js, logged) := r in
  r <~ read_multi_dof_joint_state nh xlist
         (moveit_msgs.multi_dof_joint_state state) ;;
  let '(mdjs, logged') := r in
  Got (true,
       {| moveit_msgs.joint_state := js;
          moveit_msgs.multi_dof_joint_state := mdjs |},
       logged ++ logged' ++
       [ReadInitialState (List.length (joint_name js))
          (List.length (moveit_msgs.joint_names mdjs))]).

(** [InitTestScenarioPrePlanningModel], as far as the start state goes:
    setting the visualizer and the pause before the scene is loaded are
    left out. *)
Definition InitTestScenarioPrePlanningModel
    (ph : NodeHandle) (start_state : moveit_msgs.RobotState)
    : checked (bool * moveit_msgs.RobotState * list Logged) :=
  r <~ ReadInitialConfiguration ph start_state ;;
  let '(ok, start_state, logged) := r in
  if negb ok then
    Got (false, start_state, logged ++ [FailedToGetInitialConfiguration])
  else Got (true, start_state, logged).

End MultiDof.

(** ** What an initial configuration says *)

(** An entry of [initial_configuration/joint_state] that the loop can
    read: a struct whose [name], if it has one, is a string. *)
Definition named_entry (e : XmlRpcValue) : bool :=
  match e with
  | TypeStruct m =>
      match xml_lookup m "name" with
      | TypeString _ | TypeInvalid => true
      | _ => false
      end
  | TypeInvalid => true
  | _ => false
  end.

Definition entry_name (e : XmlRpcValue) : string :=
  match e with
  | TypeStruct m =>
      match xml_lookup m "name" with
      | TypeString s => s
      | _ => EmptyString
      end
  | _ => EmptyString
  end.

(** The position an entry gives, when it gives a number. *)
Definition entry_position (e : XmlRpcValue) : option double :=
  match e with
  | TypeStruct m =>
      match xml_lookup m "position" with
      | TypeDouble d => Some d
      | TypeInt pos => Some (double_of_int pos)
      | _ => None
      end
  | _ => None
  end.

Definition entry_positions (entries : list XmlRpcValue) : list double :=
  flat_map (fun e => match entry_position e with
                     | Some p => [p]
                     | None => []
                     end) entries.

(** The debug line is logged for every position that is not a double. *)
Definition entry_logged (e : XmlRpcValue) : list Logged :=
  match e with
  | TypeStruct m =>
      match xml_lookup m "position" with
      | TypeDouble _ => []
      | _ => [DoublesHaveToContainDecimalPoints]
      end
  | _ => [DoublesHaveToContainDecimalPoints]
  end.

(** The first entry of the list with a given name. *)
Fixpoint first_entry (entries : list XmlRpcValue) (j : string)
    : option XmlRpcValue :=
  match entries with
  | [] => None
  | e :: entries' =>
      if String.eqb (entry_name e) j then Some e else first_entry entries' j
  end.

(** A member that converts to [double]: a double, or none at all. *)
Definition double_member (m : list (string * XmlRpcValue)) (key : string)
    : bool :=
  match xml_lookup m key with
  | TypeDouble _ | TypeInvalid => true
  | _ => false
  end.

Definition member_value (e : XmlRpcValue) (key : string) : double :=
  match e with
  | TypeStruct m =>
      match xml_lookup m key with
      | TypeDouble d => d
      | _ => 0
      end
  | _ => 0
  end.

(** An entry of [initial_configuration/multi_dof_joint_state] that the
    loop can read. *)
Definition dof_entry (e : XmlRpcValue) : bool :=
  match e with
  | TypeStruct m =>
      match xml_lookup m "joint_name" with
      | TypeString _ | TypeInvalid => true
      | _ => false
      end
      && double_member m "yaw" && double_member m "pitch"
      && double_member m "roll" && double_member m "x"
      && double_member m "y" && double_member m "z"
  | TypeInvalid => true
  | _ => false
  end.

Definition dof_name (e : XmlRpcValue) : string :=
  match e with
  | TypeStruct m =>
      match xml_lookup m "joint_name" with
      | TypeString s => s
      | _ => EmptyString
      end
  | _ => EmptyString
  end.

Definition dof_transform
    (from_euler_zyx : double -> double -> double -> Quaternion)
    (e : XmlRpcValue) : moveit_msgs.Transform := {|
  moveit_msgs.translation :=
    {| px := member_value e "x"; py := member_value e "y";
       pz := member_value e "z" |};
  moveit_msgs.rotation :=
    from_euler_zyx (member_value e "yaw") (member_value e "pitch")
      (member_value e "roll")
|}.

(** The keys of an entry that are converted to [double]. *)
Definition dof_keys : list string := ["yaw"; "pitch"; "roll"; "x"; "y"; "z"].

(** ** Writing a path *)

(** A stream opened for writing: the text it has accepted, how many
    writes it has been asked for, and whether [fclose] has been called
    on it. *)
Record Stream : Type := mkStream {
  accepted : string;
  requests : nat;
  closed : bool
}.

Section Writing.

(** Whether the write with a given number fails (a full disk, a broken
    pipe).  What a failed write leaves in the stream is not specified;
    here it leaves the text as it was. *)
Variable fails : nat -> bool.

(** The text [fprintf(f, "%f", x)] prints for [x]. *)
Variable format_f : double -> string.

(** [fputs(s, f) >= 0], and the stream afterwards. *)
Definition fputs (s : string) (f : Stream) : bool * Stream :=
  if fails (requests f) then
    (false, {| accepted := accepted f; requests := S (requests f);
               closed := closed f |})
  else
    (true, {| accepted := accepted f ++ s; requests := S (requests f);
              closed := closed f |}).

(** [fprintf(f, "%f", x) >= 0], and the stream afterwards. *)
Definition fprintf_f (x : double) (f : Stream) : bool * Stream :=
  fputs (format_f x) f.

(** The loop over the fields of one line, from index [i] on: a comma
    before every field but the first. *)
Fixpoint put_fields {A : Type} (put : A -> Stream -> bool * Stream)
    (fields : list A) (i : nat) (f : Stream) : bool * Stream :=
  match fields with
  | [] => (true, f)
  | x :: fields' =>
      let '(ok, f) :=
        if negb (i =? 0)%nat then fputs "," f else (true, f) in
      if negb ok then (false, f)
      else
        let '(ok, f) := put x f in
        if negb ok then (false, f)
        else put_fields put fields' (S i) f
  end.

(** The loop over the points of the path. *)
Fixpoint put_points (path : list RobotState) (f : Stream) : bool * Stream :=
  match path with
  | [] => (true, f)
  | point :: path' =>
      let '(ok, f) := put_fields fprintf_f point 0 f in
      if negb ok then (false, f)
      else
        let '(ok, f) := fputs newline f in
        if negb ok then (false, f)
        else put_points path' f
  end.

(** [WritePathCSV]; of the model, [getPlanningJoints()] is what is used.
    [opens] says whether [fopen(filepath, "w")] gives a stream.  The
    result is the value returned and the stream as the call leaves it. *)
Definition WritePathCSV
    (opens : bool) (planning_joints : list string) (path : list RobotState)
    : Z * option Stream :=
  if negb opens then ((-1)%Z, None)
  else
    let f := {| accepted := EmptyString; requests := 0; closed := false |} in
    let '(ok, f) :=
      put_fields (fun var => fputs (c_string var)) planning_joints 0 f in
    if negb ok then ((-1)%Z, Some f)
    else
      let '(ok, f) := fputs newline f in
      if negb ok then ((-1)%Z, Some f)
      else
        let '(ok, f) := put_points path f in
        if negb ok then ((-1)%Z, Some f)
        else
          (0%Z, Some {| accepted := accepted f; requests := requests f;
                        closed := true |}).

(** The fields of a line after the first, a comma before each. *)
Definition more_fields (fields : list string) : string :=
  fold_right (fun x rest => ("," ++ x ++ rest)%string) EmptyString fields.

(** One line of a CSV file: the fields with commas between them, and a
    line feed. *)
Definition csv_line (fields : list string) : string :=
  (String.concat "," fields ++ newline)%string.

(** The CSV file of a path: a line of joint names, and a line of numbers
    for every point. *)
Definition csv_text (planning_joints : list string) (path : list RobotState)
    : string :=
  (csv_line (map c_string planning_joints)
   ++ String.concat ""
        (map (fun point => csv_line (map format_f point)) path))%string.

End Writing.

(** ** What the parameter server holds *)

(** The string a key resolves to: the key is found, the parameter of the
    name found exists, and it is a string. *)
Definition string_at (nh : NodeHandle) (key : string) : option string :=
  match searchParam nh key with
  | Some full_param =>
      match getParam nh full_param with
      | Some (TypeString s) => Some s
      | _ => None
      end
  | None => None
  end.

(** A parameter server with the given parameters, each found under its
    own name. *)
Definition params (ps : list (string * XmlRpcValue)) : NodeHandle := {|
  searchParam := fun key =>
    if existsb (fun p => String.eqb (fst p) key) ps then Some key else None;
  getParam := fun full_param =>
    option_map snd (find (fun p => String.eqb (fst p) full_param) ps)
|}.

(** ** The state of the robot *)

(** [smpl::urdf::RobotModel] and [smpl::urdf::RobotState] come with the
    headers the file includes; [InitRobotState] uses three of their
    functions, which form the interface below.  [GetVariable] returns a
    pointer, [NULL] where the model has no variable of the name. *)
Class UrdfOps (Model State Var : Type) : Type := {
  InitRobotState_in_model : State -> Model -> bool * State;
  GetVariable : Model -> string -> option Var;
  SetVariablePosition : State -> Var -> double -> State
}.

(** What [InitRobotState] logs. *)
Inductive InitLogged : Type :=
| FailedToInitializeRobotState                       (* ROS_ERROR *)
| VariableNotFound (name : string)                   (* ROS_WARN *)
| SetJointTo (name : string) (position : double).    (* ROS_INFO *)

Section RobotStateOfMessage.
Context {Model State Var : Type} `{UrdfOps Model State Var}.

(** The loop over the names of the message, from index [i] on;
    [position[i]] is read for the log line and for the assignment. *)
Fixpoint set_joints (robot_model : Model)
    (names : list string) (positions : list double) (i : nat)
    (robot_state : State) (logged : list InitLogged)
    : outcome (bool * State * list InitLogged) :=
  match names with
  | [] => Returns (true, robot_state, logged)
  | name :: names' =>
      match GetVariable robot_model name with
      | None => Returns (false, robot_state, logged ++ [VariableNotFound name])
      | Some var =>
          p <- vec_get positions i ;;
          set_joints robot_model names' positions (S i)
            (SetVariablePosition robot_state var p)
            (logged ++ [SetJointTo name p])
      end
  end.

(** [InitRobotState(smpl::urdf::RobotState*, const smpl::urdf::RobotModel*,
    const moveit_msgs::RobotState* )]: the flag returned, the robot
    state as left behind, and what was logged. *)
Definition InitRobotState
    (robot_state : State) (robot_model : Model) (state_msg : RobotStateMsg)
    : outcome (bool * State * list InitLogged) :=
  let '(ok, robot_state) := InitRobotState_in_model robot_state robot_model in
  if negb ok then Returns (false, robot_state, [FailedToInitializeRobotState])
  else
    set_joints robot_model
      (joint_name (joint_state state_msg))
      (joint_position (joint_state state_msg)) 0 robot_state [].

(** The assignments of a list of names and positions, made in order;
    names the model does not have are passed over. *)
Definition assign (robot_model : Model)
    (robot_state : State) (assignments : list (string * double)) : State :=
  fold_left
    (fun st np =>
       match GetVariable robot_model (fst np) with
       | Some var => SetVariablePosition st var (snd np)
       | None => st
       end)
    assignments robot_state.

Definition known (robot_model : Model) (name : string) : Prop :=
  GetVariable robot_model name <> None.

End RobotStateOfMessage.

(** A robot whose variables are the names in a list: a state holds one
    position for each, and a variable is the index of its name. *)
#[export] Instance listed_robot : UrdfOps (list string) (list double) nat := {|
  InitRobotState_in_model := fun _ robot_model =>
    (true, repeat 0%float (List.length robot_model));
  GetVariable := first_index;
  SetVariablePosition := fun st var p => replace_nth st var p
|}.

(** ** Parameters and robots *)

(** An entry of [initial_configuration/joint_state]. *)
Definition joint_entry (n : string) (p : XmlRpcValue) : XmlRpcValue :=
  TypeStruct [("name", TypeString n); ("position", p)].

(** An arm of three joints; the position of the elbow is written
    without a decimal point. *)
Definition arm_configuration : list XmlRpcValue :=
  [joint_entry "shoulder" (TypeDouble 0.5);
   joint_entry "elbow" (TypeInt 1);
   joint_entry "wrist" (TypeDouble (-0.25))].

(** The same arm with the position of the elbow in quotes. *)
Definition quoted_configuration : list XmlRpcValue :=
  [joint_entry "shoulder" (TypeDouble 0.5);
   joint_entry "elbow" (TypeString "1.0");
   joint_entry "wrist" (TypeDouble (-0.25))].

(** An entry of [initial_configuration/multi_dof_joint_state]. *)
Definition dof_joint_entry (n : string) (x y z roll pitch yaw : XmlRpcValue)
    : XmlRpcValue :=
  TypeStruct [("joint_name", TypeString n); ("x", x); ("y", y); ("z", z);
              ("roll", roll); ("pitch", pitch); ("yaw", yaw)].

Definition base_configuration : list XmlRpcValue :=
  [dof_joint_entry "world_joint"
     (TypeDouble 1) (TypeDouble 2) (TypeDouble 0)
     (TypeDouble 0) (TypeDouble 0) (TypeDouble 1.5)].

(** The same base with the yaw written without a decimal point. *)
Definition whole_yaw_configuration : list XmlRpcValue :=
  [dof_joint_entry "world_joint"
     (TypeDouble 1) (TypeDouble 2) (TypeDouble 0)
     (TypeDouble 0) (TypeDouble 0) (TypeInt 1)].

(** A stand-in for the conversion of the angles: it keeps them as they
    are given. *)
Definition angles_as_given (yaw pitch roll : double) : Quaternion :=
  {| qx := roll; qy := pitch; qz := yaw; qw := 1 |}.

(** A message that already holds one joint. *)
Definition torso_state : moveit_msgs.RobotState := {|
  moveit_msgs.joint_state :=
    {| joint_name := ["torso"]; joint_position := [0.125]%float |};
  moveit_msgs.multi_dof_joint_state :=
    {| moveit_msgs.joint_names := ["old_joint"; "older_joint"];
       moveit_msgs.transforms := [default_Transform; default_Transform] |}
|}.

(** A stream on which the third write fails. *)
Definition third_write_fails (n : nat) : bool := (n =? 2)%nat.

(** A formatter for the whole numbers from -1 to 2, standing in for
    [%f] (which prints six decimals) where a path is written out. *)
Definition format_whole (x : double) : string :=
  if (x =? 0)%float then "0"
  else if (x =? 1)%float then "1"
  else if (x =? 2)%float then "2"
  else "-1".

End Scenario.

(* ===================================================================== *)
(** * Part III: properties of the sphere-vs-world query                   *)
(* ===================================================================== *)

Module CollisionFacts.
Import Collision.

Section QueryFacts.
Context {D S I : Type} `{Double D} `{RobotCollisionStateOps D S I}.

Lemma CheckSphereCollision_out_of_bounds
    (grid : OccupancyGrid D) (state : S) (padding : D) (sidx : I) :
  cell_in_bounds grid (center_cell grid state sidx) = false ->
  CheckSphereCollision grid state padding sidx =
  let ss := queried state sidx in
  let '(gx, gy, gz) := center_cell grid state sidx in
  {| ret := false; dist := d_zero; after := updateSphereState state sidx;
     trail := [SphereOutOfBounds (name (model ss)) (pos ss) gx gy gz] |}.
Proof.
  unfold CheckSphereCollision, center_cell, queried, cell_in_bounds.
  destruct (worldToGrid grid _ _ _) as [[gx gy] gz]; cbn.
  intros ->. reflexivity.
Qed.

Lemma CheckSphereCollision_in_bounds
    (grid : OccupancyGrid D) (state : S) (padding : D) (sidx : I) :
  cell_in_bounds grid (center_cell grid state sidx) = true ->
  CheckSphereCollision grid state padding sidx =
  let obs := cell_distance grid (center_cell grid state sidx) in
  {| ret := negb (obs <=? effective_radius grid (queried state sidx) padding)%D;
     dist := obs; after := updateSphereState state sidx; trail := [] |}.
Proof.
  unfold CheckSphereCollision, center_cell, queried, cell_in_bounds,
    cell_distance.
  destruct (worldToGrid grid _ _ _) as [[gx gy] gz]; cbn.
  intros ->; cbn.
  destruct (d_leb _ _); reflexivity.
Qed.

(** C1. A sphere whose center maps to an out-of-bounds cell is reported
    as colliding with distance 0, and exactly one diagnostic (the
    out-of-bounds message, naming the sphere, its center and the cell) is
    emitted; the call returns normally. *)
Theorem out_of_bounds_is_collision
    (grid : OccupancyGrid D) (state : S) (padding : D) (sidx : I) :
  cell_in_bounds grid (center_cell grid state sidx) = false ->
  let o := CheckSphereCollision grid state padding sidx in
  collides o = true /\ dist o = d_zero /\
  exists gx gy gz,
    center_cell grid state sidx = (gx, gy, gz) /\
    trail o = [SphereOutOfBounds (name (model (queried state sidx)))
                 (pos (queried state sidx)) gx gy gz].
Proof.
  intros Hout o; subst o.
  rewrite (CheckSphereCollision_out_of_bounds _ _ _ _ Hout).
  destruct (center_cell grid state sidx) as [[gx gy] gz]; cbn.
  repeat split. exists gx, gy, gz. split; reflexivity.
Qed.

(** C2. For a sphere whose center maps to an in-bounds cell, a collision
    is reported exactly when the stored distance [obs] of that cell
    satisfies [obs <= radius + 0.5 * resolution + padding], and the
    distance returned is [obs] in both outcomes. *)
Theorem in_bounds_collides_iff_within_effective_radius
    (grid : OccupancyGrid D) (state : S) (padding : D) (sidx : I) :
  cell_in_bounds grid (center_cell grid state sidx) = true ->
  let o := CheckSphereCollision grid state padding sidx in
  let obs := cell_distance grid (center_cell grid state sidx) in
  let radius := radius (model (queried state sidx)) in
  (collides o = true <->
   (obs <=? radius + d_half * getResolution grid + padding)%D = true) /\
  dist o = obs.
Proof.
  intros Hin o obs rad; subst o.
  rewrite (CheckSphereCollision_in_bounds _ _ _ _ Hin).
  unfold collides; cbn. fold obs. unfold effective_radius. fold rad.
  rewrite negb_involutive. split; [tauto | reflexivity].
Qed.

End QueryFacts.

(** ** The scenes of the specification, on binary64 *)

(** Scenario 3 of the specification: the sphere at (10, 10, 10) maps to
    cell (537, 575, 500), outside the 150-cell grid. *)
Lemma out_of_bounds_is_collision_witness :
  cell_in_bounds (grid_of empty_world)
    (center_cell (grid_of empty_world) far_away 0%nat) = false /\
  let o := CheckSphereCollision (grid_of empty_world) far_away 0%float 0%nat in
  collides o = true /\ dist o = 0%float /\
  exists gx gy gz,
    center_cell (grid_of empty_world) far_away 0%nat = (gx, gy, gz) /\
    trail o = [SphereOutOfBounds (name (model (queried far_away 0%nat)))
                 (pos (queried far_away 0%nat)) gx gy gz].
Proof.
  assert (Hout : cell_in_bounds (grid_of empty_world)
                   (center_cell (grid_of empty_world) far_away 0%nat) = false)
    by (vm_compute; reflexivity).
  split; [exact Hout|].
  exact (@out_of_bounds_is_collision _ _ _ _ _
           (grid_of empty_world) far_away 0%float 0%nat Hout).
Defined.

(** Scenario 1 of the specification: in the empty world the sphere at the
    base maps to cell (37, 75, 0), which stores the saturation value. *)
Lemma in_bounds_collides_iff_within_effective_radius_witness :
  cell_in_bounds (grid_of empty_world)
    (center_cell (grid_of empty_world) at_base 0%nat) = true /\
  let o := CheckSphereCollision (grid_of empty_world) at_base 0%float 0%nat in
  let obs := cell_distance (grid_of empty_world)
               (center_cell (grid_of empty_world) at_base 0%nat) in
  let radius := radius (model (queried at_base 0%nat)) in
  (collides o = true <->
   (obs <=? radius + d_half * getResolution (grid_of empty_world) + 0%float)%D
     = true) /\
  dist o = obs.
Proof.
  assert (Hin : cell_in_bounds (grid_of empty_world)
                  (center_cell (grid_of empty_world) at_base 0%nat) = true)
    by (vm_compute; reflexivity).
  split; [exact Hin|].
  exact (@in_bounds_collides_iff_within_effective_radius _ _ _ _ _
           (grid_of empty_world) at_base 0%float 0%nat Hin).
Defined.

Example empty_world_is_clear :
  let o := CheckSphereCollision (grid_of empty_world) at_base 0%float 0%nat in
  collides o = false /\ dist o = 0x1.ccccccccccccdp+0%float.
Proof. vm_compute. split; reflexivity. Qed.

(** ** The half-cell guard, over the reals *)

Open Scope R_scope.

Lemma sqr_dist_nonneg a b : 0 <= sqr_dist a b.
Proof.
  unfold sqr_dist.
  pose proof (Rle_0_sqr (vx a - vx b)).
  pose proof (Rle_0_sqr (vy a - vy b)).
  pose proof (Rle_0_sqr (vz a - vz b)).
  unfold Rsqr in *. lra.
Qed.

Lemma euclid_nonneg a b : 0 <= euclid a b.
Proof. apply sqrt_pos. Qed.

Lemma euclid_sqr a b : euclid a b * euclid a b = sqr_dist a b.
Proof. apply sqrt_sqrt, sqr_dist_nonneg. Qed.

Lemma euclid_sym a b : euclid a b = euclid b a.
Proof. unfold euclid. f_equal. unfold sqr_dist. ring. Qed.

(** Cauchy-Schwarz in three dimensions. *)
Lemma dot3_le (u1 u2 u3 v1 v2 v3 s t : R) :
  0 <= s -> 0 <= t ->
  s * s = u1 * u1 + u2 * u2 + u3 * u3 ->
  t * t = v1 * v1 + v2 * v2 + v3 * v3 ->
  u1 * v1 + u2 * v2 + u3 * v3 <= s * t.
Proof.
  intros Hs Ht Es Et.
  apply Rsqr_incr_0_var; [|nra].
  unfold Rsqr.
  replace (s * t * (s * t)) with ((s * s) * (t * t)) by ring.
  rewrite Es, Et.
  pose proof (Rle_0_sqr (u1 * v2 - u2 * v1)).
  pose proof (Rle_0_sqr (u1 * v3 - u3 * v1)).
  pose proof (Rle_0_sqr (u2 * v3 - u3 * v2)).
  unfold Rsqr in *. nra.
Qed.

Lemma euclid_triangle a b c : euclid a c <= euclid a b + euclid b c.
Proof.
  pose proof (euclid_nonneg a b) as Hab.
  pose proof (euclid_nonneg b c) as Hbc.
  apply Rsqr_incr_0_var; [|lra].
  unfold Rsqr.
  pose proof (euclid_sqr a c) as Eac.
  pose proof (euclid_sqr a b) as Eab.
  pose proof (euclid_sqr b c) as Ebc.
  pose proof (@dot3_le (vx a - vx b) (vy a - vy b) (vz a - vz b)
                (vx b - vx c) (vy b - vy c) (vz b - vz c)
                (euclid a b) (euclid b c) Hab Hbc Eab Ebc) as Hcs.
  rewrite Eac.
  replace ((euclid a b + euclid b c) * (euclid a b + euclid b c))
    with (euclid a b * euclid a b + euclid b c * euclid b c
          + 2 * (euclid a b * euclid b c)) by ring.
  rewrite Eab, Ebc. unfold sqr_dist in *. lra.
Qed.

Lemma floor_offset (x o r : R) :
  0 < r ->
  let c := o + (IZR (Int_part ((x - o) / r)) + 1 / 2) * r in
  (x - c) * (x - c) <= (r / 2) * (r / 2).
Proof.
  intros Hr c; subst c.
  destruct (base_Int_part ((x - o) / r)) as [Hlo Hhi].
  set (g := IZR (Int_part ((x - o) / r))) in *.
  assert (Hx : x - o = ((x - o) / r) * r) by (field; lra).
  set (q := (x - o) / r) in *.
  replace (x - (o + (g + 1 / 2) * r)) with ((q - g - 1 / 2) * r) by lra.
  assert (-(1/2) <= q - g - 1 / 2 <= 1 / 2) by lra.
  assert ((q - g - 1/2) * (q - g - 1/2) <= 1 / 4) by nra.
  nra.
Qed.

Lemma in_cell_near_center (G : VoxelGrid R) (p : Vector3 R) :
  0 < resolution G ->
  euclid p (cell_center G (world_to_grid G (vx p) (vy p) (vz p)))
  <= sqrt 3 / 2 * resolution G.
Proof.
  intros Hr.
  assert (H3 : 0 <= sqrt 3) by apply sqrt_pos.
  apply Rsqr_incr_0_var; [|nra].
  unfold Rsqr. rewrite euclid_sqr.
  replace (sqrt 3 / 2 * resolution G * (sqrt 3 / 2 * resolution G))
    with ((sqrt 3 * sqrt 3) * (resolution G / 2 * (resolution G / 2)))
    by field.
  rewrite sqrt_sqrt by lra.
  pose proof (@floor_offset (vx p) (vx (origin G)) _ Hr) as Hx.
  pose proof (@floor_offset (vy p) (vy (origin G)) _ Hr) as Hy.
  pose proof (@floor_offset (vz p) (vz (origin G)) _ Hr) as Hz.
  unfold sqr_dist, world_to_grid, cell_center; cbn in *. lra.
Qed.

Lemma clamped_nearest_le (G : VoxelGrid R) occ c o :
  In o occ -> clamped_nearest G occ c <= cell_dist G c o.
Proof.
  unfold clamped_nearest.
  induction occ as [|o' occ IH]; cbn; [tauto|].
  intros [->|Hin].
  - apply Rbasic_fun.Rmin_l.
  - eapply Rle_trans; [apply Rbasic_fun.Rmin_r | auto].
Qed.

Lemma stored_at_cell (G : VoxelGrid R) occ c :
  field_invariant G occ ->
  cell_in_bounds (grid_of G) c = true ->
  cell_distance (grid_of G) c = clamped_nearest G occ c.
Proof.
  intros Hinv. destruct c as [[gx gy] gz]. cbn. apply Hinv.
Qed.

Section Guard.
Context {S I : Type} `{RobotCollisionStateOps R S I}.

Lemma center_cell_grid_of (G : VoxelGrid R) (state : S) (sidx : I) :
  center_cell (grid_of G) state sidx =
  let p := pos (queried state sidx) in world_to_grid G (vx p) (vy p) (vz p).
Proof. reflexivity. Qed.

(** C3 (as amended). Under the grid invariant, a sphere reported free
    with distance [d] has every obstacle at least [d - (sqrt 3 / 2) r]
    away from its center: the center lies in the queried cell, hence
    within half a cell diagonal of the point the stored distance is
    measured from. *)
Theorem clear_sphere_keeps_distance
    (G : VoxelGrid R) (occ : list (Z * Z * Z))
    (state : S) (padding : R) (sidx : I) :
  0 < resolution G ->
  field_invariant G occ ->
  let o := CheckSphereCollision (grid_of G) state padding sidx in
  collides o = false ->
  obstacles_at_least G occ (pos (queried state sidx))
    (dist o - sqrt 3 / 2 * resolution G).
Proof.
  intros Hr Hinv o Hfree c Hc. subst o.
  destruct (cell_in_bounds (grid_of G) (center_cell (grid_of G) state sidx))
    eqn:Hb.
  - rewrite (CheckSphereCollision_in_bounds _ _ _ _ Hb).
    cbv zeta. unfold dist.
    rewrite (@stored_at_cell _ _ _ Hinv Hb), center_cell_grid_of. cbv zeta.
    set (p := pos (queried state sidx)).
    set (g := world_to_grid G (vx p) (vy p) (vz p)).
    pose proof (@in_cell_near_center G p Hr) as Hnear. fold g in Hnear.
    pose proof (@clamped_nearest_le G occ g c Hc) as Hle.
    unfold cell_dist in Hle.
    pose proof (euclid_triangle (cell_center G g) p (cell_center G c)) as Htri.
    rewrite (euclid_sym (cell_center G g) p) in Htri.
    lra.
  - rewrite (CheckSphereCollision_out_of_bounds _ _ _ _ Hb) in Hfree.
    destruct (center_cell _ _ _) as [[? ?] ?]. discriminate.
Qed.
End Guard.

Lemma diagonal_world_invariant : field_invariant diagonal_world diagonal_obstacle.
Proof. intros gx gy gz _. reflexivity. Qed.

Lemma Int_part_unit (x : R) : 0 <= x < 1 -> Int_part x = 0%Z.
Proof. intros Hx. symmetry. apply Int_part_spec. cbn. lra. Qed.

Lemma corner_sphere_cell :
  center_cell (grid_of diagonal_world) corner_sphere 0%nat = (0, 0, 0)%Z.
Proof.
  unfold center_cell, queried; cbn. unfold world_to_grid; cbn.
  rewrite Int_part_unit by lra. reflexivity.
Qed.

Lemma diagonal_world_at_origin :
  cell_distance (grid_of diagonal_world) (0, 0, 0)%Z = 3.
Proof.
  cbn. unfold cell_dist, euclid, sqr_dist; cbn.
  rewrite Rmin_left.
  - apply sqrt_lem_1; lra.
  - erewrite sqrt_lem_1 with (y := 3); lra.
Qed.

Lemma corner_sphere_query :
  CheckSphereCollision (grid_of diagonal_world) corner_sphere 0 0%nat =
  {| ret := true; dist := 3; after := corner_sphere; trail := [] |}.
Proof.
  rewrite CheckSphereCollision_in_bounds
    by (rewrite corner_sphere_cell; reflexivity).
  cbv zeta. rewrite corner_sphere_cell, diagonal_world_at_origin.
  unfold effective_radius; cbn. unfold Rleb.
  destruct (Rle_dec _ _) as [Hle|_]; [lra | reflexivity].
Qed.

Lemma clear_sphere_keeps_distance_witness :
  0 < resolution diagonal_world /\
  field_invariant diagonal_world diagonal_obstacle /\
  collides (CheckSphereCollision (grid_of diagonal_world) corner_sphere 0 0%nat)
    = false /\
  obstacles_at_least diagonal_world diagonal_obstacle
    (pos (queried corner_sphere 0%nat))
    (dist (CheckSphereCollision (grid_of diagonal_world) corner_sphere 0 0%nat)
     - sqrt 3 / 2 * resolution diagonal_world).
Proof.
  assert (Hr : 0 < resolution diagonal_world) by (cbn; lra).
  assert (Hfree : collides (CheckSphereCollision (grid_of diagonal_world)
                              corner_sphere 0 0%nat) = false)
    by (rewrite corner_sphere_query; reflexivity).
  split; [exact Hr|].
  split; [exact diagonal_world_invariant|].
  split; [exact Hfree|].
  exact (@clear_sphere_keeps_distance _ _ _ diagonal_world diagonal_obstacle
           corner_sphere 0 0%nat Hr diagonal_world_invariant Hfree).
Defined.

(** C3 (as stated) fails: in [diagonal_world] the invariant holds and the
    corner sphere is reported free with [d = 3], yet the obstacle is
    closer than [d - r / 2 = 5 / 2] to the center of the sphere. *)
Lemma half_cell_guard_counterexample :
  let o := CheckSphereCollision (grid_of diagonal_world) corner_sphere 0 0%nat in
  field_invariant diagonal_world diagonal_obstacle /\
  collides o = false /\
  dist o = 3 /\
  ~ obstacles_at_least diagonal_world diagonal_obstacle
      (pos (queried corner_sphere 0%nat))
      (dist o - resolution diagonal_world / 2).
Proof.
  cbv zeta. rewrite corner_sphere_query.
  split; [exact diagonal_world_invariant|].
  split; [reflexivity|]. split; [reflexivity|].
  intros Hclear.
  specialize (Hclear (2, 2, 1)%Z (or_introl eq_refl)).
  cbn in Hclear.
  set (e := euclid _ _) in Hclear.
  assert (He : e * e = 137 / 25).
  { subst e. rewrite euclid_sqr. unfold sqr_dist; cbn. field. }
  assert (0 <= e) by apply euclid_nonneg.
  nra.
Qed.


(** ** Values that are not numbers, and the role of the padding *)

Lemma SFcompare_refl x : x <> S754_nan -> SFcompare x x = Some Eq.
Proof.
  destruct x as [s|s| |s m e]; intros Hx; cbn.
  - reflexivity.
  - now destruct s.
  - now elim Hx.
  - rewrite Z.compare_refl, Pos.compare_cont_refl. now destruct s.
Qed.

Lemma is_nan_Prim2SF x : is_nan x = true -> Prim2SF x = S754_nan.
Proof.
  unfold is_nan. rewrite FloatAxioms.eqb_spec. unfold SFeqb. intros Hx.
  destruct (Prim2SF x) eqn:E; try reflexivity;
    rewrite SFcompare_refl in Hx by discriminate; discriminate Hx.
Qed.

Lemma Prim2SF_is_nan x : Prim2SF x = S754_nan -> is_nan x = true.
Proof.
  intros Hx. unfold is_nan.
  now rewrite FloatAxioms.eqb_spec, Hx.
Qed.

Lemma add_nan_l x y : is_nan x = true -> is_nan (x + y)%float = true.
Proof.
  intros Hx. apply Prim2SF_is_nan.
  now rewrite FloatAxioms.add_spec, (is_nan_Prim2SF _ Hx).
Qed.

Lemma add_nan_r x y : is_nan y = true -> is_nan (x + y)%float = true.
Proof.
  intros Hy. apply Prim2SF_is_nan.
  rewrite FloatAxioms.add_spec, (is_nan_Prim2SF _ Hy).
  now destruct (Prim2SF x).
Qed.

Lemma mul_nan_r x y : is_nan y = true -> is_nan (x * y)%float = true.
Proof.
  intros Hy. apply Prim2SF_is_nan.
  rewrite FloatAxioms.mul_spec, (is_nan_Prim2SF _ Hy).
  now destruct (Prim2SF x).
Qed.

Lemma leb_nan_l x y : is_nan x = true -> (x <=? y)%float = false.
Proof.
  intros Hx. now rewrite FloatAxioms.leb_spec, (is_nan_Prim2SF _ Hx).
Qed.

Lemma leb_nan_r x y : is_nan y = true -> (x <=? y)%float = false.
Proof.
  intros Hy. rewrite FloatAxioms.leb_spec, (is_nan_Prim2SF _ Hy).
  unfold SFleb. now destruct (Prim2SF x).
Qed.

Section NotANumber.
Context {S I : Type} `{RobotCollisionStateOps float S I}.

(** X22. With IEEE doubles, a sphere whose center is in bounds is
    reported free whenever the stored distance, the radius, the resolution
    or the padding is NaN: the comparison with the effective radius is then
    false. *)
Theorem not_a_number_is_reported_free
    (grid : OccupancyGrid float) (state : S) (padding : float) (sidx : I) :
  cell_in_bounds grid (center_cell grid state sidx) = true ->
  is_nan (cell_distance grid (center_cell grid state sidx)) = true \/
  is_nan (radius (model (queried state sidx))) = true \/
  is_nan (getResolution grid) = true \/
  is_nan padding = true ->
  collides (CheckSphereCollision grid state padding sidx) = false.
Proof.
  intros Hin Hnan.
  rewrite (CheckSphereCollision_in_bounds _ _ _ _ Hin).
  unfold collides. cbn [ret]. rewrite negb_involutive.
  unfold effective_radius. cbn [d_leb d_add d_mul d_half binary64].
  destruct Hnan as [Hd|[Hr|[Hg|Hp]]].
  - now apply leb_nan_l.
  - apply leb_nan_r. apply add_nan_l. now apply add_nan_l.
  - apply leb_nan_r. apply add_nan_l. apply add_nan_r. now apply mul_nan_r.
  - apply leb_nan_r. now apply add_nan_r.
Qed.

End NotANumber.

Section PaddingAndDistance.
Context {D S I : Type} `{Double D} `{RobotCollisionStateOps D S I}.

(** X24. The padding enters the verdict only: the distance returned,
    the state left behind and the diagnostics are the same for every
    padding, for every arithmetic of [double]. *)
Theorem padding_changes_the_verdict_only
    (grid : OccupancyGrid D) (state : S) (padding padding' : D) (sidx : I) :
  let o := CheckSphereCollision grid state padding sidx in
  let o' := CheckSphereCollision grid state padding' sidx in
  dist o = dist o' /\ after o = after o' /\ trail o = trail o'.
Proof.
  cbv zeta.
  destruct (cell_in_bounds grid (center_cell grid state sidx)) eqn:Hin.
  - rewrite !(CheckSphereCollision_in_bounds _ _ _ _ Hin). now cbn.
  - rewrite !(CheckSphereCollision_out_of_bounds _ _ _ _ Hin).
    destruct (center_cell grid state sidx) as [[gx gy] gz]. now cbn.
Qed.

End PaddingAndDistance.

Lemma not_a_number_is_reported_free_witness :
  collides (CheckSphereCollision (grid_of empty_world) at_base nan 0%nat)
  = false.
Proof.
  refine (@not_a_number_is_reported_free _ _ _
            (grid_of empty_world) at_base nan 0%nat _ _).
  - vm_compute. reflexivity.
  - right. right. right. reflexivity.
Defined.

End CollisionFacts.

(* ===================================================================== *)
(** * Part IV: properties of scenario loading                             *)
(* ===================================================================== *)

Module ScenarioFacts.
Import Scenario.
Open Scope string_scope.
Open Scope list_scope.

(** ** The outcome monad and the loop *)

Lemma bind_Returns {A B : Type} (m : outcome A) (k : A -> outcome B) (b : B) :
  bind m k = Returns b -> exists a, m = Returns a /\ k a = Returns b.
Proof. destruct m; cbn; intros E; try discriminate. eauto. Qed.

Ltac bind_inv H :=
  let a := fresh "a" in
  let E := fresh "E" in
  apply bind_Returns in H; destruct H as (a & E & H).

(** Partial correctness of a loop: an invariant of the body that holds on
    entry holds of the state the loop returns. *)
Lemma for_loop_invariant {St : Type} (Inv : nat -> St -> Prop)
    (body : nat -> St -> outcome St) (n lo : nat) (st st' : St) :
  (forall i s s', (lo <= i < lo + n)%nat -> Inv i s ->
     body i s = Returns s' -> Inv (S i) s') ->
  Inv lo st ->
  for_loop n body lo st = Returns st' ->
  Inv (lo + n)%nat st'.
Proof.
  revert lo st. induction n as [|n IH]; intros lo st Hbody Hinv Hrun.
  - cbn in Hrun. injection Hrun as <-. now rewrite Nat.add_0_r.
  - cbn in Hrun. bind_inv Hrun.
    replace (lo + S n)%nat with (S lo + n)%nat by lia.
    apply (IH (S lo) a); [|eapply Hbody; eauto; lia|exact Hrun].
    intros i s s' Hi. apply Hbody. lia.
Qed.

(** Total correctness: if the body returns and re-establishes the
    invariant, the loop returns. *)
Lemma for_loop_returns {St : Type} (Inv : nat -> St -> Prop)
    (body : nat -> St -> outcome St) (n lo : nat) (st : St) :
  (forall i s, (lo <= i < lo + n)%nat -> Inv i s ->
     exists s', body i s = Returns s' /\ Inv (S i) s') ->
  Inv lo st ->
  exists st', for_loop n body lo st = Returns st' /\ Inv (lo + n)%nat st'.
Proof.
  revert lo st. induction n as [|n IH]; intros lo st Hbody Hinv.
  - exists st. rewrite Nat.add_0_r. split; [reflexivity | exact Hinv].
  - destruct (Hbody lo st ltac:(lia) Hinv) as (s1 & E1 & Hinv1).
    destruct (IH (S lo) s1) as (st' & E & Hinv').
    + intros i s Hi. apply Hbody. lia.
    + exact Hinv1.
    + exists st'. cbn. rewrite E1; cbn.
      replace (lo + S n)%nat with (S lo + n)%nat by lia. now split.
Qed.

(** ** Cubes *)

Lemma GetCollisionCube_box now pose dims frame_id id o :
  GetCollisionCube now pose dims frame_id id = Returns o ->
  operation o = ADD /\
  (exists dx dy dz,
     primitives o = [{| type := BOX; dimensions := [dx; dy; dz] |}]) /\
  primitive_poses o = [pose] /\ Scenario.id o = id /\
  frame_id = Scenario.frame_id (header o).
Proof.
  unfold GetCollisionCube. intros H.
  repeat (bind_inv H; cbn in H).
  injection H as <-. cbn.
  repeat split; eauto.
Qed.

Lemma cube_of_row_invariant clock objects object_ids frame_id i l l' :
  cubes_invariant i l ->
  cube_of_row clock objects object_ids frame_id i l = Returns l' ->
  cubes_invariant (S i) l'.
Proof.
  intros [Hobjs Hor] H. unfold cube_of_row in H.
  do 12 bind_inv H.
  injection H as <-. split; cbn; [|exact Hor].
  apply Forall_app. split; [exact Hobjs|].
  constructor; [|constructor].
  match goal with
  | Hcube : GetCollisionCube _ _ _ _ _ = Returns _ |- _ =>
      apply GetCollisionCube_box in Hcube;
      destruct Hcube as (Hop & Hprim & Hpose & _)
  end.
  split; [exact Hop|]. split; [exact Hprim|].
  rewrite Hpose, Hor. eauto.
Qed.

Lemma GetCollisionCubes_boxes clock objects object_ids frame_id objs logged :
  GetCollisionCubes clock objects object_ids frame_id = Returns (objs, logged) ->
  Forall added_upright_box objs.
Proof.
  unfold GetCollisionCubes.
  destruct (negb _).
  - intros H. injection H as <- _. constructor.
  - intros H. bind_inv H. injection H as <- _.
    apply (for_loop_invariant cubes_invariant) in E.
    + apply E.
    + intros i s s' _. apply cube_of_row_invariant.
    + split; [constructor | reflexivity].
Qed.

(** C9. Every collision object read from a scenario file has operation
    ADD, exactly one primitive, of type BOX, and exactly one pose, whose
    orientation is the identity quaternion (0, 0, 0, 1): no file yields a
    rotated obstacle or a REMOVE. *)
Theorem scenario_objects_are_added_upright_boxes
    (fs : filesystem) (clock : Clock) (filename frame_id : string)
    (objs : list CollisionObject) (printed : list Diag) :
  GetCollisionObjects fs clock filename frame_id = Returns (objs, printed) ->
  Forall added_upright_box objs.
Proof.
  unfold GetCollisionObjects.
  destruct (fopen fs filename) as [f|].
  - intros H. do 5 bind_inv H.
    destruct (GetCollisionCubes _ _ _ _) as [[objs' logged]| |] eqn:Hcubes;
      cbn in H; try discriminate.
    injection H as <- _.
    eapply GetCollisionCubes_boxes; eauto.
  - intros H. injection H as <- _. constructor.
Qed.

Lemma scenario_objects_are_added_upright_boxes_witness :
  GetCollisionObjects (only_file "objects.txt" two_boxes) Z.of_nat
    "objects.txt" "map" =
  Returns ([box "map" 0%Z "box1" 0 0 0 tenth tenth tenth;
            box "map" 1%Z "box2" 1 0 0 fifth fifth fifth],
           [ObjectsInFile 2]) /\
  Forall added_upright_box
    [box "map" 0%Z "box1" 0 0 0 tenth tenth tenth;
     box "map" 1%Z "box2" 1 0 0 fifth fifth fifth].
Proof.
  assert (Hrun : GetCollisionObjects (only_file "objects.txt" two_boxes)
                   Z.of_nat "objects.txt" "map" =
                 Returns ([box "map" 0%Z "box1" 0 0 0
                             tenth tenth tenth;
                           box "map" 1%Z "box2" 1 0 0
                             fifth fifth fifth],
                          [ObjectsInFile 2]))
    by (vm_compute; reflexivity).
  split; [exact Hrun|].
  exact (@scenario_objects_are_added_upright_boxes
           (only_file "objects.txt" two_boxes) Z.of_nat "objects.txt" "map"
           _ _ Hrun).
Defined.

(** ** The scenario file of the specification *)

(** C5. The file [2\nbox1 0 0 0 0.1 0.1 0.1\nbox2 1 0 0 0.2 0.2 0.2\n]
    parses to exactly two collision objects: "box1" at (0, 0, 0) with box
    dimensions (0.1, 0.1, 0.1), then "box2" at (1, 0, 0) with box
    dimensions (0.2, 0.2, 0.2). *)
Theorem two_boxes_scenario
    (fs : filesystem) (clock : Clock) (filename frame_id : string) :
  fs filename = Some two_boxes ->
  GetCollisionObjects fs clock filename frame_id =
  Returns ([box frame_id (clock 0%nat) "box1" 0 0 0 tenth tenth tenth;
            box frame_id (clock 1%nat) "box2" 1 0 0 fifth fifth fifth],
           [ObjectsInFile 2]).
Proof.
  intros Hfile. unfold GetCollisionObjects, fopen. rewrite Hfile.
  reflexivity.
Qed.

Lemma two_boxes_scenario_witness :
  only_file "objects.txt" two_boxes "objects.txt" = Some two_boxes /\
  GetCollisionObjects (only_file "objects.txt" two_boxes) Z.of_nat
    "objects.txt" "map" =
  Returns ([box "map" 0%Z "box1" 0 0 0 tenth tenth tenth;
            box "map" 1%Z "box2" 1 0 0 fifth fifth fifth],
           [ObjectsInFile 2]).
Proof.
  split; [reflexivity|].
  exact (@two_boxes_scenario (only_file "objects.txt" two_boxes) Z.of_nat
           "objects.txt" "map" eq_refl).
Defined.

(** ** The declared count *)

Lemma atoi_range s n : atoi s = Returns n -> (INT_MIN <= n <= INT_MAX)%Z.
Proof.
  unfold atoi.
  destruct (scan_sign _) as [neg s1]. destruct (scan_digits s1) as [ds r].
  destruct (_ && _)%bool eqn:Hr; [|discriminate].
  intros H; injection H as <-. lia.
Qed.

(** A negative [int] converts to a [size_t] above [max_size()]. *)
Lemma size_t_of_int_negative (n : Z) :
  (INT_MIN <= n < 0)%Z -> (max_size_rows < size_t_of_int n)%Z.
Proof.
  intros Hn. unfold size_t_of_int, max_size_rows, INT_MIN in *.
  replace (n mod 2 ^ 64)%Z with (n + 2 ^ 64)%Z.
  - assert ((2 ^ 63 - 1) / 24 < 2 ^ 63)%Z
      by (apply Z.div_lt_upper_bound; lia).
    lia.
  - symmetry. rewrite <- (Z.mod_add n 1 (2 ^ 64)) by lia.
    apply Z.mod_small. lia.
Qed.

Lemma resize_rows_negative {A : Type} (n : Z) (v : list (list A)) :
  (INT_MIN <= n < 0)%Z -> resize_rows n v = Throws length_error.
Proof.
  intros Hn. unfold resize_rows.
  apply size_t_of_int_negative, Z.ltb_lt in Hn. now rewrite Hn.
Qed.

Lemma atoi_range_of_count contents n :
  declared_count contents = Returns n -> (INT_MIN <= n <= INT_MAX)%Z.
Proof.
  unfold declared_count.
  destruct (fscanf_s _ None) as [[[k f] buf]| |]; cbn; try discriminate.
  destruct (buffer_string buf) as [s| |]; cbn; try discriminate.
  apply atoi_range.
Qed.

(** C10. When the first word of the file parses to a negative count,
    the count converted for [objects.resize] exceeds what a vector can
    hold, and the call leaves through [std::length_error] instead of
    returning an object list (empty or not): a list is returned only when
    the count is non-negative. *)
Theorem negative_count_throws
    (fs : filesystem) (clock : Clock) (filename frame_id contents : string)
    (num_obs : Z) :
  fs filename = Some contents ->
  declared_count contents = Returns num_obs ->
  (num_obs < 0)%Z ->
  (max_size_rows < size_t_of_int num_obs)%Z /\
  GetCollisionObjects fs clock filename frame_id = Throws length_error /\
  forall r, GetCollisionObjects fs clock filename frame_id <> Returns r.
Proof.
  intros Hfile Hcount Hneg.
  pose proof (atoi_range_of_count _ Hcount) as Hrange.
  split; [apply size_t_of_int_negative; lia|].
  enough (E : GetCollisionObjects fs clock filename frame_id
              = Throws length_error)
    by (split; [exact E | intros r; rewrite E; discriminate]).
  unfold GetCollisionObjects, fopen. rewrite Hfile.
  unfold declared_count in Hcount. unfold scan_sTemp; cbn [fCfg sTemp].
  destruct (fscanf_s _ None) as [[[n f] buf]| |]; cbn in *; try discriminate.
  destruct (buffer_string buf) as [s| |]; cbn in *; try discriminate.
  rewrite Hcount; cbn.
  rewrite resize_rows_negative; [reflexivity|].
  apply atoi_range in Hcount. lia.
Qed.

Lemma negative_count_throws_witness :
  only_file "objects.txt" minus_one "objects.txt"
    = Some minus_one /\
  declared_count minus_one = Returns (-1)%Z /\
  (-1 < 0)%Z /\
  (max_size_rows < size_t_of_int (-1))%Z /\
  GetCollisionObjects (only_file "objects.txt" minus_one) Z.of_nat
    "objects.txt" "map" = Throws length_error /\
  forall r, GetCollisionObjects (only_file "objects.txt" minus_one) Z.of_nat
              "objects.txt" "map" <> Returns r.
Proof.
  split; [reflexivity|]. split; [reflexivity|]. split; [reflexivity|].
  exact (@negative_count_throws (only_file "objects.txt" minus_one)
           Z.of_nat "objects.txt" "map" minus_one (-1)%Z
           eq_refl eq_refl eq_refl).
Defined.

(** ** [MakeRobotState] *)

Lemma first_index_None names j : first_index names j = None <-> ~ In j names.
Proof.
  induction names as [|n names IH]; cbn; [tauto|].
  destruct (String.eqb_spec n j) as [->|Hne].
  - split; [discriminate | tauto].
  - destruct (first_index names j); cbn.
    + split; [discriminate|]. intros Hnot. exfalso. apply Hnot. right.
      destruct IH as [_ IH]. 
      destruct (in_dec string_dec j names) as [Hin|Hout]; [exact Hin|].
      specialize (IH Hout). discriminate.
    + split; [|reflexivity]. intros _ [E|Hin]; [congruence|]. now apply IH.
Qed.

Lemma find_joint_position_spec names positions i j :
  (i + List.length names <= List.length positions)%nat ->
  find_joint_position names positions i j =
  Returns match first_index names j with
          | Some k => nth_error positions (i + k)
          | None => None
          end.
Proof.
  revert i. induction names as [|n names IH]; intros i Hlen; cbn in *.
  - reflexivity.
  - destruct (String.eqb n j).
    + rewrite Nat.add_0_r. unfold vec_get.
      destruct (nth_error positions i) eqn:E; [reflexivity|].
      apply nth_error_None in E. lia.
    + rewrite IH by lia.
      destruct (first_index names j) as [k|]; cbn [option_map];
        [|reflexivity].
      now rewrite Nat.add_succ_comm.
Qed.

Lemma first_index_lt names j k :
  first_index names j = Some k -> (k < List.length names)%nat.
Proof.
  revert k. induction names as [|n names IH]; cbn; [discriminate|].
  intros k. destruct (String.eqb n j).
  - intros H; injection H as <-. lia.
  - destruct (first_index names j); cbn; [|discriminate].
    intros H; injection H as <-. specialize (IH _ eq_refl). lia.
Qed.

Lemma collect_joint_positions_spec msg joints state :
  (List.length (joint_name (joint_state msg))
   <= List.length (joint_position (joint_state msg)))%nat ->
  (exists ps,
     collect_joint_positions msg joints state = Returns (state ++ ps, true, []) /\
     Forall2 (fun j p => recorded_position (joint_state msg) j = Some p)
       joints ps) \/
  (exists j,
     In j joints /\ ~ In j (joint_name (joint_state msg)) /\
     collect_joint_positions msg joints state =
     Returns ([], false, [JointVariableNotFound j])).
Proof.
  intros Hlen. revert state.
  induction joints as [|j joints IH]; intros state; cbn.
  - left. exists []. rewrite app_nil_r. split; [reflexivity | constructor].
  - rewrite find_joint_position_spec by (cbn; lia). cbn.
    destruct (first_index (joint_name (joint_state msg)) j) as [k|] eqn:Hk.
    + pose proof (first_index_lt _ _ Hk) as Hlt.
      destruct (nth_error (joint_position (joint_state msg)) k) as [p|] eqn:Hp.
      2:{ apply nth_error_None in Hp. lia. }
      destruct (IH (state ++ [p])) as [(ps & E & Hall)|(j' & Hin & Hout & E)].
      * left. exists (p :: ps). rewrite E, <- app_assoc. split; [reflexivity|].
        constructor; [|exact Hall].
        unfold recorded_position. now rewrite Hk.
      * right. exists j'. split; [now right|]. now split.
    + right. exists j. split; [now left|]. split; [|reflexivity].
      now apply first_index_None.
Qed.

(** C8 (as amended). For a message that carries at least as many
    positions as names, [MakeRobotState] returns.  Either the flag is
    true, nothing is logged, and the vector has one entry per planning
    joint, in the order of the planning joints, each entry the position
    the message records under that joint's name; or the flag is false, the
    vector is empty, and some planning joint is absent from the message
    (the one the error names). *)
Theorem MakeRobotState_all_or_nothing
    (robot_state : RobotStateMsg) (planning_joints : list string) :
  (List.length (joint_name (joint_state robot_state))
   <= List.length (joint_position (joint_state robot_state)))%nat ->
  exists state ok logged,
    MakeRobotState robot_state planning_joints = Returns (state, ok, logged) /\
    ((ok = true /\ logged = [] /\
      Forall2 (fun j p => recorded_position (joint_state robot_state) j = Some p)
        planning_joints state)
     \/
     (ok = false /\ state = [] /\
      exists j, In j planning_joints /\
                ~ In j (joint_name (joint_state robot_state)) /\
                logged = [JointVariableNotFound j])).
Proof.
  intros Hlen. unfold MakeRobotState.
  destruct (collect_joint_positions_spec robot_state planning_joints [] Hlen)
    as [(ps & E & Hall)|(j & Hin & Hout & E)]; rewrite E.
  - exists ps, true, []. split; [reflexivity|]. left. now repeat split.
  - exists [], false, [JointVariableNotFound j]. split; [reflexivity|].
    right. repeat split. eauto.
Qed.

Lemma MakeRobotState_all_or_nothing_witness :
  (List.length (joint_name (joint_state three_joints))
   <= List.length (joint_position (joint_state three_joints)))%nat /\
  MakeRobotState three_joints ["b"; "a"] = Returns ([2; 1]%float, true, []) /\
  exists state ok logged,
    MakeRobotState three_joints ["b"; "a"] = Returns (state, ok, logged) /\
    ((ok = true /\ logged = [] /\
      Forall2 (fun j p => recorded_position (joint_state three_joints) j = Some p)
        ["b"; "a"] state)
     \/
     (ok = false /\ state = [] /\
      exists j, In j ["b"; "a"] /\
                ~ In j (joint_name (joint_state three_joints)) /\
                logged = [JointVariableNotFound j])).
Proof.
  assert (Hlen : (List.length (joint_name (joint_state three_joints))
          <= List.length (joint_position (joint_state three_joints)))%nat)
    by (cbn; lia).
  split; [exact Hlen|]. split; [reflexivity|].
  exact (@MakeRobotState_all_or_nothing three_joints ["b"; "a"] Hlen).
Defined.

(** C8 (as stated) fails: on a message that names a joint and carries no
    position for it, the lookup indexes the position array past its end,
    and the call neither succeeds nor reports failure. *)
Lemma MakeRobotState_names_only :
  MakeRobotState names_only ["a"] = Undefined /\
  forall r, MakeRobotState names_only ["a"] <> Returns r.
Proof. split; [reflexivity | discriminate]. Qed.

(** ** Words of a file *)

Lemma count_words_skip_space s : count_words (skip_space s) = count_words s.
Proof.
  unfold count_words. induction s as [|c s IH]; cbn; [reflexivity|].
  destruct (isspace c) eqn:Hc; [exact IH|]. cbn. now rewrite Hc.
Qed.

Lemma words_fit_skip_space s : words_fit (skip_space s) = words_fit s.
Proof.
  unfold words_fit. induction s as [|c s IH]; cbn; [reflexivity|].
  destruct (isspace c) eqn:Hc; [exact IH|]. cbn. now rewrite Hc.
Qed.

Lemma skip_space_head s c s' : skip_space s = String c s' -> isspace c = false.
Proof.
  induction s as [|a s IH]; cbn; [discriminate|].
  destruct (isspace a) eqn:Ha; [exact IH|].
  intros H; injection H as <- _. exact Ha.
Qed.

Lemma count_words_in_word s :
  count_words_from true s = count_words (snd (scan_word s)).
Proof.
  unfold count_words. induction s as [|c s IH]; cbn; [reflexivity|].
  destruct (isspace c) eqn:Hc; cbn; [now rewrite Hc|].
  rewrite IH. now destruct (scan_word s).
Qed.

Lemma count_words_scan_word c s :
  isspace c = false ->
  count_words (String c s) = S (count_words (snd (scan_word (String c s)))).
Proof.
  intros Hc. unfold count_words at 1. cbn. rewrite Hc. cbn.
  rewrite count_words_in_word. now destruct (scan_word s).
Qed.

Lemma words_fit_scan_word run s :
  words_fit_from run s = true ->
  (fst (scan_word s) = EmptyString \/
   (run + String.length (fst (scan_word s)) < buffer_size)%nat) /\
  words_fit (snd (scan_word s)) = true.
Proof.
  unfold words_fit. revert run.
  induction s as [|c s IH]; intros run; cbn [words_fit_from scan_word];
    [cbn; auto|].
  destruct (isspace c) eqn:Hc.
  - cbn [fst snd words_fit_from]. rewrite Hc. auto.
  - intros H. apply andb_true_iff in H as [Hrun H].
    apply Nat.ltb_lt in Hrun.
    destruct (IH _ H) as [Hw Hr].
    destruct (scan_word s) as [w r]; cbn [fst snd] in *.
    split; [right|exact Hr].
    destruct Hw as [-> | Hw]; cbn [String.length]; lia.
Qed.

(** What one [fscanf] into [sTemp] does to the locals. *)
Lemma scan_sTemp_spec l :
  words_fit (unread (fCfg l)) = true ->
  exists l',
    scan_sTemp l = Returns l' /\
    words_fit (unread (fCfg l')) = true /\
    object_ids l' = object_ids l /\ objects l' = objects l /\
    ((count_words (unread (fCfg l)) = 0%nat /\
      count_words (unread (fCfg l')) = 0%nat /\
      printed l' = printed l ++ [ParsedStringHasLengthLt1] /\
      sTemp l' = sTemp l)
     \/
     (count_words (unread (fCfg l)) = S (count_words (unread (fCfg l'))) /\
      printed l' = printed l /\
      exists w, sTemp l' = Some w)).
Proof.
  intros Hfit. unfold scan_sTemp, fscanf_s.
  rewrite <- words_fit_skip_space in Hfit.
  rewrite <- (count_words_skip_space (unread (fCfg l))).
  destruct (skip_space (unread (fCfg l))) as [|c s] eqn:Hskip.
  - eexists. split; [reflexivity|]. cbn.
    repeat split. left. repeat split.
  - pose proof (skip_space_head _ Hskip) as Hc.
    pose proof (@count_words_scan_word c s Hc) as Hcount.
    destruct (@words_fit_scan_word _ _ Hfit) as [Hw Hr].
    destruct (scan_word (String c s)) as [w r] eqn:Hscan.
    cbn [fst snd] in *.
    assert (Hlen : (String.length w <? buffer_size)%nat = true).
    { apply Nat.ltb_lt. destruct Hw as [-> | Hw]; [cbn; unfold buffer_size|];
        lia. }
    rewrite Hlen. eexists. split; [reflexivity|]. cbn.
    repeat split; [exact Hr|]. right. repeat split; eauto.
Qed.

(** ** Vectors *)

Lemma replace_nth_length {A : Type} (v : list A) i a :
  List.length (replace_nth v i a) = List.length v.
Proof.
  revert i. induction v as [|b v IH]; intros [|i]; cbn; auto.
Qed.

Lemma nth_error_replace_nth_eq {A : Type} (v : list A) i a :
  (i < List.length v)%nat -> nth_error (replace_nth v i a) i = Some a.
Proof.
  revert i. induction v as [|b v IH]; intros [|i]; cbn; try lia; auto.
  intros H. apply IH. lia.
Qed.

Lemma nth_error_replace_nth_ne {A : Type} (v : list A) i r a :
  r <> i -> nth_error (replace_nth v i a) r = nth_error v r.
Proof.
  revert i r. induction v as [|b v IH]; intros [|i] [|r] H; cbn; auto;
    try congruence.
Qed.

Lemma vec_get_in_range {A : Type} (v : list A) i :
  (i < List.length v)%nat -> exists a, vec_get v i = Returns a /\ nth_error v i = Some a.
Proof.
  intros H. unfold vec_get.
  destruct (nth_error v i) as [a|] eqn:E; [eauto|].
  apply nth_error_None in E. lia.
Qed.

Lemma vec_set_in_range {A : Type} (v : list A) i a :
  (i < List.length v)%nat -> vec_set v i a = Returns (replace_nth v i a).
Proof.
  intros H. unfold vec_set.
  destruct (Nat.ltb_spec i (List.length v)); [reflexivity | lia].
Qed.

Lemma vec_resize_length {A : Type} n (d : A) v :
  List.length (vec_resize n d v) = n.
Proof.
  unfold vec_resize. rewrite length_app, length_firstn, repeat_length. lia.
Qed.

Lemma rows_ready_replace n objects i row row' :
  rows_ready n objects ->
  nth_error objects i = Some row ->
  List.length row' = List.length row ->
  rows_ready n (replace_nth objects i row').
Proof.
  intros Hready Hrow Hlen r Hr.
  destruct (Nat.eq_dec r i) as [->|Hne].
  - exists row'. split.
    + apply nth_error_replace_nth_eq. apply nth_error_Some. congruence.
    + destruct (Hready i Hr) as (row0 & E & H6). congruence.
  - rewrite nth_error_replace_nth_ne by exact Hne. now apply Hready.
Qed.

Lemma rows_ready_extend n objects row row' :
  rows_ready n objects ->
  nth_error objects n = Some row ->
  List.length row' = 6%nat ->
  rows_ready (S n) (replace_nth objects n row').
Proof.
  intros Hready Hrow Hlen r Hr.
  destruct (Nat.eq_dec r n) as [->|Hne].
  - exists row'. split; [|exact Hlen].
    apply nth_error_replace_nth_eq. apply nth_error_Some. congruence.
  - rewrite nth_error_replace_nth_ne by exact Hne. apply Hready. lia.
Qed.

(** ** [GetCollisionCubes] returns *)

Lemma GetCollisionCubes_returns clock objects object_ids frame_id :
  List.length object_ids = List.length objects ->
  rows_ready (List.length objects) objects ->
  exists objs,
    GetCollisionCubes clock objects object_ids frame_id = Returns (objs, []) /\
    List.length objs = List.length objects.
Proof.
  intros Hids Hready. unfold GetCollisionCubes.
  rewrite Hids, Nat.eqb_refl. cbn [negb].
  destruct (@for_loop_returns _
              (fun i l => List.length (objs l) = i /\ List.length (dims l) = 3%nat)
              (cube_of_row clock objects object_ids frame_id)
              (List.length objects) 0
              {| objs := []; dims := repeat 0%float 3;
                 pose := {| position := {| px := 0; py := 0; pz := 0 |};
                            orientation := {| qx := 0; qy := 0; qz := 0;
                                              qw := 1 |} |} |})
    as (l & E & Hlen & _).
  - intros i l [_ Hi] [Hobjs Hdims]. cbn in Hi.
    destruct (Hready i Hi) as (row & Hrow & H6).
    unfold cube_of_row, vec_get at 1. rewrite Hrow. cbn [bind].
    destruct row as [|x0 [|x1 [|x2 [|x3 [|x4 [|x5 [|]]]]]]]; try discriminate.
    destruct (dims l) as [|d0 [|d1 [|d2 [|]]]]; try discriminate.
    assert (Hid : (i < List.length object_ids)%nat) by lia.
    unfold vec_at. destruct (nth_error object_ids i) as [id|] eqn:Eid.
    2:{ apply nth_error_None in Eid. lia. }
    cbn. eexists. split; [reflexivity|]. cbn.
    rewrite length_app. cbn. split; [lia | reflexivity].
  - cbn. split; reflexivity.
  - rewrite E. cbn. exists (objs l). split; [reflexivity | exact Hlen].
Qed.

(** ** [GetCollisionObjects] on a file that opens *)

Lemma scanning_step W N k l :
  scanning W N k l ->
  exists l',
    scan_sTemp l = Returns l' /\ scanning W N (S k) l' /\
    object_ids l' = object_ids l /\ objects l' = objects l.
Proof.
  intros [Hfit Hpend Hprint Hbuf Hrows].
  destruct (scan_sTemp_spec l Hfit) as (l' & E & Hfit' & Hids & Hobjs & Hcase).
  exists l'. split; [exact E|]. split; [|now split].
  destruct Hcase as [(H0 & H0' & Hp & Hb) | (HS & Hp & Hb)].
  - constructor.
    + exact Hfit'.
    + lia.
    + rewrite Hp, Hprint.
      replace (S k - W)%nat with (S (k - W)) by lia.
      cbn [repeat]. rewrite repeat_cons. reflexivity.
    + now rewrite Hb.
    + now rewrite Hobjs.
  - constructor.
    + exact Hfit'.
    + lia.
    + rewrite Hp, Hprint. do 2 f_equal. lia.
    + exact Hb.
    + now rewrite Hobjs.
Qed.

Lemma read_field_spec W N k i j l :
  scanning W N k l ->
  rows_ready (S i) (objects l) ->
  (j < 6)%nat ->
  exists l',
    read_field i j l = Returns l' /\ scanning W N (S k) l' /\
    object_ids l' = object_ids l /\ rows_ready (S i) (objects l').
Proof.
  intros Hscan Hready Hj.
  destruct (scanning_step Hscan) as (l1 & E1 & Hscan1 & Hids1 & Hobjs1).
  unfold read_field. rewrite E1. cbn [bind].
  destruct (feof (fCfg l1)).
  { exists l1. rewrite Hobjs1. auto. }
  destruct (scanning_buffer Hscan1) as (w & Hw). rewrite Hw. cbn [buffer_string bind].
  destruct (String.length (c_string w) =? 0)%nat.
  { exists l1. rewrite Hobjs1. auto. }
  rewrite Hobjs1.
  destruct (Hready i ltac:(lia)) as (row & Hrow & H6).
  unfold vec_get. rewrite Hrow. cbn [bind].
  rewrite vec_set_in_range by lia. cbn [bind].
  rewrite vec_set_in_range by (apply nth_error_Some; congruence). cbn [bind].
  eexists. split; [reflexivity|]. split; [|split].
  - destruct Hscan1. constructor; cbn; eauto.
    rewrite replace_nth_length. congruence.
  - exact Hids1.
  - cbn. eapply rows_ready_replace; eauto. apply replace_nth_length.
Qed.

Lemma read_object_spec W N i l :
  scanning W N (1 + 7 * i) l ->
  (i < Z.to_nat N)%nat ->
  List.length (object_ids l) = i ->
  rows_ready i (objects l) ->
  exists l',
    read_object i l = Returns l' /\ scanning W N (1 + 7 * S i) l' /\
    List.length (object_ids l') = S i /\ rows_ready (S i) (objects l').
Proof.
  intros Hscan Hi Hids Hready.
  destruct (scanning_step Hscan) as (l1 & E1 & Hscan1 & Hids1 & Hobjs1).
  unfold read_object. rewrite E1. cbn [bind].
  destruct (scanning_buffer Hscan1) as (w & Hw). rewrite Hw.
  cbn [buffer_string bind].
  assert (Hlen : (i < List.length (objects l1))%nat)
    by (rewrite (scanning_rows Hscan1); exact Hi).
  destruct (vec_get_in_range _ Hlen) as (row & Eget & Hrow).
  rewrite Eget. cbn [bind].
  rewrite vec_set_in_range by exact Hlen. cbn [bind].
  match goal with |- context [for_loop 6 _ 0 ?st] => set (l2 := st) end.
  destruct (@for_loop_returns _
              (fun j l => scanning W N (S (1 + 7 * i) + j) l /\
                          object_ids l = object_ids l2 /\
                          rows_ready (S i) (objects l))
              (read_field i) 6 0 l2) as (l' & E & Hscan' & Hids' & Hready').
  - intros j s [_ Hj] (Hs & Hi' & Hr). cbn in Hj.
    destruct (@read_field_spec W N _ i j s Hs Hr Hj) as (s' & Es & Hs' & Hi'' & Hr').
    exists s'. split; [exact Es|]. split; [|split].
    + now replace (S (1 + 7 * i) + S j)%nat with (S (S (1 + 7 * i) + j)) by lia.
    + congruence.
    + exact Hr'.
  - subst l2. split; [|split].
    + rewrite Nat.add_0_r. destruct Hscan1. constructor; cbn; eauto.
      rewrite replace_nth_length. congruence.
    + reflexivity.
    + cbn [objects]. rewrite Hobjs1 in *.
      eapply rows_ready_extend; eauto. apply vec_resize_length.
  - exists l'. split; [exact E|]. split; [|split].
    + now replace (1 + 7 * S i)%nat with (S (1 + 7 * i) + 6)%nat by lia.
    + rewrite Hids'. subst l2. cbn. rewrite length_app, Hids1, Hids. cbn. lia.
    + exact Hready'.
Qed.

Lemma resize_rows_nonnegative {A : Type} (n : Z) (v : list (list A)) :
  (0 <= n <= INT_MAX)%Z ->
  resize_rows n v = Returns (vec_resize (Z.to_nat n) [] v).
Proof.
  intros Hn. unfold resize_rows, size_t_of_int, max_size_rows, INT_MAX in *.
  rewrite Z.mod_small by lia.
  destruct (Z.ltb_spec ((2 ^ 63 - 1) / 24) n) as [Hlt|_]; [|reflexivity].
  exfalso. revert Hlt. apply Z.le_ngt.
  apply Z.div_le_lower_bound; lia.
Qed.

Lemma GetCollisionObjects_missing_file fs clock filename frame_id :
  fs filename = None ->
  GetCollisionObjects fs clock filename frame_id =
  Returns ([], [UnableToOpenObjectsFile]).
Proof.
  intros Hfile. unfold GetCollisionObjects, fopen. now rewrite Hfile.
Qed.

Lemma GetCollisionObjects_opened fs clock filename frame_id contents N :
  fs filename = Some contents ->
  words_fit contents = true ->
  declared_count contents = Returns N ->
  (0 <= N)%Z ->
  exists objs,
    GetCollisionObjects fs clock filename frame_id =
    Returns (objs,
             ObjectsInFile N ::
             repeat ParsedStringHasLengthLt1
               (1 + 7 * Z.to_nat N - count_words contents)) /\
    List.length objs = Z.to_nat N.
Proof.
  intros Hfile Hfit Hcount HN.
  unfold GetCollisionObjects, fopen. rewrite Hfile.
  set (l0 := {| fCfg := {| unread := contents; eof_indicator := false |};
                sTemp := None; object_ids := []; objects := [];
                printed := [] |}).
  destruct (scan_sTemp_spec l0 Hfit)
    as (l1 & E1 & Hfit1 & Hids1 & Hobjs1 & Hcase).
  rewrite E1. cbn [bind].
  (* the first word is there, and it is the declared count *)
  assert (Hfirst : exists w, sTemp l1 = Some w /\ atoi (c_string w) = Returns N).
  { unfold declared_count in Hcount. unfold scan_sTemp in E1.
    cbn [fCfg sTemp l0] in E1.
    destruct (fscanf_s _ None) as [[[n f] buf]| |]; cbn in *; try discriminate.
    injection E1 as <-. cbn.
    destruct buf as [w|]; cbn in *; [eauto | discriminate]. }
  destruct Hfirst as (w & Hw & Hatoi).
  destruct Hcase as [(_ & _ & _ & Hb) | (HS & Hp & _)];
    [rewrite Hw in Hb; discriminate|].
  rewrite Hw. cbn [buffer_string bind]. rewrite Hatoi. cbn [bind].
  pose proof (atoi_range _ Hatoi) as Hrange.
  rewrite resize_rows_nonnegative by lia. cbn [bind].
  match goal with |- context [for_loop _ read_object 0 ?st] => set (l2 := st) end.
  cbn [l0 fCfg unread] in HS.
  destruct (@for_loop_returns _
              (fun i l => scanning (count_words contents) N (1 + 7 * i) l /\
                          List.length (object_ids l) = i /\
                          rows_ready i (objects l))
              read_object (Z.to_nat N) 0 l2) as (l3 & E3 & Hscan3 & Hids3 & Hready3).
  - intros i s [_ Hi] (Hs & Hi' & Hr). cbn in Hi.
    exact (read_object_spec Hs Hi Hi' Hr).
  - subst l2. split; [|split].
    + constructor; cbn [fCfg sTemp objects printed].
      * exact Hfit1.
      * rewrite HS. lia.
      * rewrite Hp. cbn [l0 printed app Nat.mul Nat.add].
        replace (1 - count_words contents)%nat with 0%nat by lia. reflexivity.
      * eauto.
      * rewrite Hobjs1. apply vec_resize_length.
    + reflexivity.
    + intros r Hr. lia.
  - rewrite E3. cbn [bind].
    cbn [Nat.add] in Hids3, Hready3.
    destruct (@GetCollisionCubes_returns clock (objects l3) (object_ids l3) frame_id)
      as (objs & Ecubes & Hlen).
    + rewrite Hids3. symmetry. apply (scanning_rows Hscan3).
    + rewrite (scanning_rows Hscan3). exact Hready3.
    + rewrite Ecubes. cbn [bind]. exists objs.
      rewrite app_nil_r, (scanning_printed Hscan3).
      split; [reflexivity|].
      rewrite Hlen. apply (scanning_rows Hscan3).
Qed.

(** C4 (as amended). For a file that cannot be opened the parser returns
    the empty object set and logs that it could not open the file.  For a
    file that opens, whose words fit the buffer and whose first word
    parses to a count [N >= 0], it returns exactly [N] objects and prints
    the count line followed by one line for every word that the
    [1 + 7 N] reads found missing, and nothing else: after a short read
    the objects declared are still returned, and a field that is not a
    number draws no diagnostic. *)
Theorem scenario_file_errors
    (fs : filesystem) (clock : Clock) (filename frame_id : string) :
  (fs filename = None ->
   GetCollisionObjects fs clock filename frame_id =
   Returns ([], [UnableToOpenObjectsFile])) /\
  (forall contents N,
     fs filename = Some contents ->
     words_fit contents = true ->
     declared_count contents = Returns N ->
     (0 <= N)%Z ->
     exists objs,
       GetCollisionObjects fs clock filename frame_id =
       Returns (objs,
                ObjectsInFile N ::
                repeat ParsedStringHasLengthLt1
                  (1 + 7 * Z.to_nat N - count_words contents)) /\
       List.length objs = Z.to_nat N).
Proof.
  split.
  - apply GetCollisionObjects_missing_file.
  - intros contents N. apply GetCollisionObjects_opened.
Qed.

(** ** Files with errors *)

Lemma scenario_file_errors_witness :
  (only_file "objects.txt" short_read "missing.txt" = None /\
   GetCollisionObjects (only_file "objects.txt" short_read) Z.of_nat
     "missing.txt" "map" = Returns ([], [UnableToOpenObjectsFile])) /\
  (only_file "objects.txt" short_read "objects.txt" = Some short_read /\
   words_fit short_read = true /\
   declared_count short_read = Returns 2%Z /\
   (0 <= 2)%Z /\
   exists objs,
     GetCollisionObjects (only_file "objects.txt" short_read) Z.of_nat
       "objects.txt" "map" =
     Returns (objs,
              ObjectsInFile 2 ::
              repeat ParsedStringHasLengthLt1
                (1 + 7 * Z.to_nat 2 - count_words short_read)) /\
     List.length objs = Z.to_nat 2).
Proof.
  split.
  - split; [reflexivity|].
    exact (proj1 (scenario_file_errors (only_file "objects.txt" short_read)
                    Z.of_nat "missing.txt" "map") eq_refl).
  - split; [reflexivity|]. split; [reflexivity|]. split; [reflexivity|].
    split; [discriminate|].
    exact (proj2 (scenario_file_errors (only_file "objects.txt" short_read)
                    Z.of_nat "objects.txt" "map")
             short_read 2%Z eq_refl eq_refl eq_refl
             (fun H => match H with eq_refl => I end)).
Defined.

(** C4 (as stated) fails: a file cut off in its second record (12 words
    where 15 are read) still yields both objects, and a record whose
    fields are not numbers yields its object with every field 0 and no
    diagnostic. *)
Lemma erroneous_files_yield_objects :
  (count_words short_read < 1 + 7 * 2)%nat /\
  Forall (fun field => all_digits field = false) ["a"; "b"; "c"; "d"; "e"; "f"] /\
  GetCollisionObjects (only_file "objects.txt" short_read) Z.of_nat
    "objects.txt" "map" =
  Returns ([box "map" 0%Z "box1" 0 0 0 tenth tenth tenth;
            box "map" 1%Z "box2" 1 0 0 0 0 0],
           [ObjectsInFile 2; ParsedStringHasLengthLt1;
            ParsedStringHasLengthLt1; ParsedStringHasLengthLt1]) /\
  GetCollisionObjects (only_file "objects.txt" not_numbers) Z.of_nat
    "objects.txt" "map" =
  Returns ([box "map" 0%Z "box1" 0 0 0 0 0 0], [ObjectsInFile 1]).
Proof.
  split; [apply Nat.ltb_lt; vm_compute; reflexivity|].
  split; [repeat constructor|].
  split; vm_compute; reflexivity.
Qed.

(** ** Numerals with and without a decimal point *)

Lemma isdigit_not_space c : isdigit c = true -> isspace c = false.
Proof.
  unfold isdigit, isspace. intros H.
  apply andb_true_iff in H as [H1 H2].
  apply Nat.leb_le in H1. apply Nat.leb_le in H2.
  destruct (Nat.eqb_spec (nat_of_ascii c) 32); [lia|].
  destruct (Nat.leb_spec 9 (nat_of_ascii c)); [|reflexivity].
  destruct (Nat.leb_spec (nat_of_ascii c) 13); [lia | reflexivity].
Qed.

Lemma isdigit_not_nul c : isdigit c = true -> (nat_of_ascii c =? 0)%nat = false.
Proof.
  unfold isdigit. intros H. apply andb_true_iff in H as [H1 _].
  apply Nat.leb_le in H1. apply Nat.eqb_neq. lia.
Qed.

Lemma numeral_byte_plain c :
  numeral_byte c = true ->
  isspace c = false /\ (nat_of_ascii c =? 0)%nat = false.
Proof.
  unfold numeral_byte. intros H.
  apply orb_true_iff in H as [H|H]; [apply orb_true_iff in H as [H|H]|].
  - split; [now apply isdigit_not_space | now apply isdigit_not_nul].
  - apply Ascii.eqb_eq in H as ->. split; reflexivity.
  - apply Ascii.eqb_eq in H as ->. split; reflexivity.
Qed.

Lemma all_numeral_bytes_app s t :
  all_numeral_bytes (s ++ t)%string = all_numeral_bytes s && all_numeral_bytes t.
Proof.
  induction s as [|c s IH]; cbn [append all_numeral_bytes]; [reflexivity|].
  now rewrite IH, andb_assoc.
Qed.

Lemma all_digits_numeral_bytes s : all_digits s = true -> all_numeral_bytes s = true.
Proof.
  induction s as [|c s IH]; cbn [all_digits all_numeral_bytes]; [reflexivity|].
  intros H. apply andb_true_iff in H as [Hc Hs].
  unfold numeral_byte. now rewrite Hc, IH.
Qed.

Lemma written_numeral_bytes n : well_formed n -> all_numeral_bytes (written n) = true.
Proof.
  intros (Hw & _ & Hf). unfold written, fraction_digits in *.
  rewrite !all_numeral_bytes_app, (all_digits_numeral_bytes _ Hw).
  destruct (negative n), (fraction n) as [f|]; cbn;
    try rewrite (all_digits_numeral_bytes _ Hf); reflexivity.
Qed.

Lemma c_string_plain s : all_numeral_bytes s = true -> c_string s = s.
Proof.
  induction s as [|c s IH]; cbn [all_numeral_bytes c_string]; [reflexivity|].
  intros H. apply andb_true_iff in H as [Hc Hs].
  destruct (numeral_byte_plain _ Hc) as [_ ->]. now rewrite IH.
Qed.

Lemma scan_word_plain s c rest :
  all_numeral_bytes s = true -> isspace c = true ->
  scan_word (s ++ String c rest) = (s, String c rest).
Proof.
  intros Hs Hc. induction s as [|a s IH]; cbn [append scan_word].
  - now rewrite Hc.
  - cbn [all_numeral_bytes] in Hs. apply andb_true_iff in Hs as [Ha Hs].
    destruct (numeral_byte_plain _ Ha) as [-> _]. now rewrite IH.
Qed.

Lemma scan_digits_all ds rest :
  all_digits ds = true ->
  match rest with EmptyString => True | String c _ => isdigit c = false end ->
  scan_digits (ds ++ rest) = (ds, rest).
Proof.
  intros Hds Hrest. induction ds as [|d ds IH]; cbn [append scan_digits].
  - destruct rest as [|c rest]; [reflexivity|].
    cbn [scan_digits]. now rewrite Hrest.
  - cbn [all_digits] in Hds. apply andb_true_iff in Hds as [Hd Hds].
    now rewrite Hd, IH.
Qed.

Lemma append_empty_r s : (s ++ "")%string = s.
Proof. induction s as [|c s IH]; cbn; [reflexivity|]. now rewrite IH. Qed.

Lemma digit_starts_no_word c s :
  isdigit c = true ->
  starts_with "inf" (String c s) = false /\
  starts_with "nan" (String c s) = false.
Proof.
  intros Hd. cbn [starts_with].
  destruct c as [[] [] [] [] [] [] [] []]; try discriminate Hd;
    split; reflexivity.
Qed.

Lemma digits_are_not_hexadecimal s :
  match s with
  | String _ (String x _) => isdigit x = true \/ x = "."%char
  | _ => True
  end ->
  scan_hexadecimal s = None.
Proof.
  destruct s as [|c [|x s1]]; intros Hx.
  - reflexivity.
  - destruct c as [[] [] [] [] [] [] [] []]; reflexivity.
  - assert (Ascii.eqb (tolower x) "x" = false) as E.
    { destruct x as [[] [] [] [] [] [] [] []]; try reflexivity;
        destruct Hx as [Hx|Hx]; discriminate Hx. }
    destruct c as [[] [] [] [] [] [] [] []]; try reflexivity.
    unfold scan_hexadecimal. now rewrite E.
Qed.

Lemma decimal_double_fraction neg m k :
  decimal_double neg m (0 - Z.of_nat k) =
  nearest_double neg m (10 ^ Z.of_nat k).
Proof.
  unfold decimal_double.
  destruct (Z.leb_spec 0 (0 - Z.of_nat k)) as [Hle|Hlt].
  - assert (E : k = 0%nat) by lia. subst k.
    change (0 - Z.of_nat 0)%Z with 0%Z.
    now rewrite Z.pow_0_r, Z.mul_1_r.
  - now replace (- (0 - Z.of_nat k))%Z with (Z.of_nat k) by lia.
Qed.

Lemma atof_written n : well_formed n -> atof (written n) = value n.
Proof.
  intros Hwf. pose proof (written_numeral_bytes Hwf) as Hbytes.
  destruct Hwf as (Hw & Hne & Hf).
  unfold atof. rewrite (c_string_plain _ Hbytes).
  destruct (whole n) as [|d ds] eqn:Ewhole; [congruence|].
  pose proof Hw as Hd. cbn in Hd. apply andb_true_iff in Hd as [Hd Hds].
  assert (Hsign : scan_sign (skip_space (written n)) =
                  (negative n,
                   (String d ds ++ match fraction n with
                                   | Some f => "." ++ f
                                   | None => ""
                                   end)%string)).
  { unfold written. rewrite Ewhole. destruct (negative n); cbn.
    - reflexivity.
    - rewrite (isdigit_not_space _ Hd). cbn.
      destruct d as [[] [] [] [] [] [] [] []]; try discriminate; reflexivity. }
  set (tail := match fraction n with
               | Some f => ("." ++ f)%string
               | None => ""%string
               end) in *.
  rewrite Hsign. cbn [append].
  destruct (@digit_starts_no_word d (ds ++ tail)%string Hd) as [-> ->].
  rewrite digits_are_not_hexadecimal.
  2:{ destruct ds as [|x ds]; cbn [append].
      - subst tail. destruct (fraction n) as [f|]; cbn [append];
          [now right | exact I].
      - left. cbn in Hds. now apply andb_true_iff in Hds as [Hx _]. }
  change (String d (ds ++ tail)) with (String d ds ++ tail)%string.
  subst tail.
  unfold scan_decimal, value, fraction_digits in *. rewrite Ewhole.
  destruct (fraction n) as [f|].
  - rewrite (scan_digits_all (String d ds) ("." ++ f) Hw) by reflexivity.
    cbn [append]. rewrite <- (append_empty_r f) at 1.
    rewrite (scan_digits_all f "" Hf) by exact I.
    cbn [append scan_exponent]. apply decimal_double_fraction.
  - rewrite (scan_digits_all (String d ds) "" Hw) by exact I.
    cbn [append scan_exponent String.length]. rewrite !append_empty_r.
    apply (@decimal_double_fraction (negative n) _ 0).
Qed.

(** [atof] on some spellings: rounding, the range of [double], and the
    spellings that are no decimal numerals. *)
Example atof_of_spellings :
  atof "0.1" = tenth /\ atof "1e23" = 0x1.52d02c7e14af6p+76%float /\
  atof "1e309" = infinity /\ atof "-1e309" = neg_infinity /\
  atof "1e-400" = 0%float /\ atof "-0" = (-0)%float /\
  atof "0x10" = 16%float /\ atof "INF" = infinity /\ atof "nan" = nan /\
  atof "abc" = 0%float.
Proof. vm_compute. repeat split. Qed.

Lemma fscanf_s_word f buf lead w c rest :
  all_space lead = true ->
  w <> EmptyString ->
  all_numeral_bytes w = true ->
  isspace c = true ->
  unread f = (lead ++ w ++ String c rest)%string ->
  (String.length w < buffer_size)%nat ->
  fscanf_s f buf =
  Returns (1%Z,
           {| unread := String c rest; eof_indicator := eof_indicator f |},
           Some w).
Proof.
  intros Hlead Hne Hw Hc Hunread Hlen.
  unfold fscanf_s. rewrite Hunread.
  assert (Hskip : skip_space (lead ++ w ++ String c rest)
                  = (w ++ String c rest)%string).
  { clear Hunread. induction lead as [|a lead IH]; cbn [append skip_space].
    - destruct w as [|a w]; [congruence|].
      cbn [all_numeral_bytes] in Hw. apply andb_true_iff in Hw as [Ha _].
      cbn [append skip_space]. now destruct (numeral_byte_plain _ Ha) as [-> _].
    - cbn [all_space] in Hlead. apply andb_true_iff in Hlead as [-> Hlead].
      now apply IH. }
  rewrite Hskip.
  pose proof (@scan_word_plain w c rest Hw Hc) as Hscan.
  destruct w as [|a w]; [congruence|].
  cbn [append] in *. rewrite Hscan.
  apply Nat.ltb_lt in Hlen. rewrite Hlen.
  cbn [string_is_empty]. now rewrite orb_false_r.
Qed.

(** C6 (as amended). A field written as a decimal numeral (an optional
    minus sign, digits, and optionally a point followed by digits) that
    fits the buffer and is followed by white space is stored as the double
    nearest to the number written (an infinity when the number is beyond
    the range of [double]), whether or not it contains a decimal point. *)
Theorem field_is_read_as_written
    (i j : nat) (l : ObjectsLocals) (n : numeral)
    (lead : string) (c : ascii) (rest : string) (row : list double) :
  well_formed n ->
  all_space lead = true ->
  isspace c = true ->
  unread (fCfg l) = (lead ++ written n ++ String c rest)%string ->
  feof (fCfg l) = false ->
  (String.length (written n) < buffer_size)%nat ->
  nth_error (objects l) i = Some row ->
  (j < List.length row)%nat ->
  exists l',
    read_field i j l = Returns l' /\
    (exists row', nth_error (objects l') i = Some row' /\
                  nth_error row' j = Some (value n)) /\
    printed l' = printed l.
Proof.
  intros Hwf Hlead Hc Hunread Heof Hlen Hrow Hj.
  pose proof (written_numeral_bytes Hwf) as Hbytes.
  assert (Hne : written n <> EmptyString).
  { destruct Hwf as (_ & Hne & _). unfold written.
    destruct (negative n); [discriminate|].
    destruct (whole n); [congruence | discriminate]. }
  unfold read_field, scan_sTemp.
  rewrite (@fscanf_s_word (fCfg l) (sTemp l) lead (written n) c rest
             Hlead Hne Hbytes Hc Hunread Hlen).
  cbn [bind fCfg sTemp objects printed object_ids feof eof_indicator Z.ltb
       Z.compare Pos.compare Pos.compare_cont].
  unfold feof in Heof. rewrite Heof.
  cbn [buffer_string bind]. rewrite (c_string_plain _ Hbytes).
  destruct (written n) as [|a w] eqn:Ew; [congruence|].
  cbn [String.length Nat.eqb]. rewrite <- Ew.
  unfold vec_get. rewrite Hrow. cbn [bind].
  rewrite vec_set_in_range by exact Hj. cbn [bind].
  rewrite vec_set_in_range by (apply nth_error_Some; congruence). cbn [bind].
  eexists. split; [reflexivity|]. cbn [objects printed]. split; [|reflexivity].
  exists (replace_nth row j (atof (written n))). split.
  - apply nth_error_replace_nth_eq. apply nth_error_Some. congruence.
  - rewrite (atof_written Hwf). now apply nth_error_replace_nth_eq.
Qed.

Lemma contains_point_app s t :
  contains_point (s ++ t)%string = contains_point s || contains_point t.
Proof.
  induction s as [|c s IH]; cbn [append contains_point]; [reflexivity|].
  now rewrite IH, orb_assoc.
Qed.

Lemma all_digits_no_point s : all_digits s = true -> contains_point s = false.
Proof.
  induction s as [|c s IH]; cbn [all_digits contains_point]; [reflexivity|].
  intros H. apply andb_true_iff in H as [Hc Hs]. rewrite (IH Hs), orb_false_r.
  destruct (Ascii.eqb_spec c ".") as [->|_]; [discriminate | reflexivity].
Qed.

(** A well-formed numeral is written with a point exactly when it has a
    fraction part. *)
Lemma contains_point_written n :
  well_formed n ->
  contains_point (written n) =
  match fraction n with Some _ => true | None => false end.
Proof.
  intros (Hw & _ & Hf). unfold written, fraction_digits in *.
  rewrite !contains_point_app, (all_digits_no_point _ Hw).
  destruct (negative n), (fraction n); cbn; reflexivity.
Qed.

(** C6 (as stated) fails: the fields of [whole_numbers] are written
    without a decimal point and are read as the numbers written. *)
Lemma whole_numbers_are_read :
  Forall (fun field => contains_point field = false) integer_fields /\
  GetCollisionObjects (only_file "objects.txt" whole_numbers) Z.of_nat
    "objects.txt" "map" =
  Returns ([box "map" 0%Z "b" 1 2 3 4 5 6], [ObjectsInFile 1]).
Proof. split; [repeat constructor | vm_compute; reflexivity]. Qed.

Lemma field_is_read_as_written_witness :
  well_formed one /\
  contains_point (written one) = false /\
  exists l',
    read_field 0 0 before_first_field = Returns l' /\
    (exists row', nth_error (objects l') 0 = Some row' /\
                  nth_error row' 0 = Some (value one)) /\
    printed l' = printed before_first_field.
Proof.
  assert (Hwf : well_formed one)
    by (split; [reflexivity | split; [discriminate | reflexivity]]).
  assert (Hlen : (String.length (written one) < buffer_size)%nat)
    by (cbn; unfold buffer_size; lia).
  assert (Hj : (0 < List.length (repeat 0%float 6))%nat) by (cbn; lia).
  split; [exact Hwf|]. split; [reflexivity|].
  exact (@field_is_read_as_written 0 0 before_first_field one
           " " " " ("2 3 4 5 6" ++ newline)%string (repeat 0%float 6)
           Hwf eq_refl eq_refl eq_refl eq_refl Hlen eq_refl Hj).
Defined.

(** ** Plain words *)

Lemma plain_word_cons c s :
  plain_word (String c s) = true ->
  isspace c = false /\ (nat_of_ascii c =? 0)%nat = false /\ plain_word s = true.
Proof.
  cbn [plain_word]. intros H.
  apply andb_true_iff in H as [H Hs]. apply andb_true_iff in H as [Hc Hn].
  apply negb_true_iff in Hc. apply negb_true_iff in Hn. auto.
Qed.

Lemma numeral_bytes_plain_word s :
  all_numeral_bytes s = true -> plain_word s = true.
Proof.
  induction s as [|c s IH]; cbn [all_numeral_bytes plain_word]; [reflexivity|].
  intros H. apply andb_true_iff in H as [Hc Hs].
  destruct (@numeral_byte_plain c Hc) as [-> ->]. now rewrite IH.
Qed.

Lemma c_string_plain_word s : plain_word s = true -> c_string s = s.
Proof.
  induction s as [|c s IH]; [reflexivity|].
  intros H. apply plain_word_cons in H as (_ & Hn & Hs).
  cbn [c_string]. now rewrite Hn, IH.
Qed.

Lemma scan_word_plain_word s c rest :
  plain_word s = true -> isspace c = true ->
  scan_word (s ++ String c rest) = (s, String c rest).
Proof.
  intros Hs Hc. induction s as [|a s IH]; cbn [append scan_word].
  - now rewrite Hc.
  - apply plain_word_cons in Hs as (Ha & _ & Hs). now rewrite Ha, IH.
Qed.

Lemma scan_word_plain_word_end s :
  plain_word s = true -> scan_word s = (s, EmptyString).
Proof.
  induction s as [|a s IH]; cbn [scan_word]; [reflexivity|].
  intros Hs. apply plain_word_cons in Hs as (Ha & _ & Hs). now rewrite Ha, IH.
Qed.

Lemma skip_space_lead lead s :
  all_space lead = true ->
  skip_space (lead ++ s) = skip_space s.
Proof.
  induction lead as [|a lead IH]; cbn [append all_space skip_space];
    [reflexivity|].
  intros H. apply andb_true_iff in H as [-> H]. now apply IH.
Qed.

(** [fscanf] on a stream that holds white space, a plain word, and then
    white space again. *)
Lemma fscanf_s_plain f buf lead w c rest :
  all_space lead = true ->
  w <> EmptyString ->
  plain_word w = true ->
  isspace c = true ->
  unread f = (lead ++ w ++ String c rest)%string ->
  (String.length w < buffer_size)%nat ->
  fscanf_s f buf =
  Returns (1%Z,
           {| unread := String c rest; eof_indicator := eof_indicator f |},
           Some w).
Proof.
  intros Hlead Hne Hw Hc Hunread Hlen.
  unfold fscanf_s. rewrite Hunread, (@skip_space_lead lead _ Hlead).
  pose proof (@scan_word_plain_word w c rest Hw Hc) as Hscan.
  destruct w as [|a w]; [congruence|].
  apply plain_word_cons in Hw as (Ha & _ & _).
  cbn [append skip_space] in *. rewrite Ha, Hscan.
  apply Nat.ltb_lt in Hlen. rewrite Hlen.
  cbn [string_is_empty]. now rewrite orb_false_r.
Qed.

(** The same when the word ends the file. *)
Lemma fscanf_s_plain_end f buf lead w :
  all_space lead = true ->
  w <> EmptyString ->
  plain_word w = true ->
  unread f = (lead ++ w)%string ->
  (String.length w < buffer_size)%nat ->
  fscanf_s f buf =
  Returns (1%Z, {| unread := EmptyString; eof_indicator := true |}, Some w).
Proof.
  intros Hlead Hne Hw Hunread Hlen.
  unfold fscanf_s.
  rewrite Hunread, (@skip_space_lead lead w Hlead).
  pose proof (@scan_word_plain_word_end w Hw) as Hscan.
  destruct w as [|a w]; [congruence|].
  apply plain_word_cons in Hw as (Ha & _ & _).
  cbn [skip_space]. rewrite Ha, Hscan.
  apply Nat.ltb_lt in Hlen. rewrite Hlen.
  cbn [string_is_empty]. now rewrite orb_true_r.
Qed.

(** ** [GetCollisionCubes], row by row *)

Lemma cubes_loop clock frame_id objects object_ids :
  forall rest rest_ids pre pre_ids l,
    objects = pre ++ rest ->
    object_ids = pre_ids ++ rest_ids ->
    List.length pre_ids = List.length pre ->
    List.length rest_ids = List.length rest ->
    Forall (fun row => (6 <= List.length row)%nat) rest ->
    List.length (dims l) = 3%nat ->
    orientation (pose l) = identity_orientation ->
    exists l',
      for_loop (List.length rest)
        (cube_of_row clock objects object_ids frame_id) (List.length pre) l
      = Returns l' /\
      objs l' = objs l ++ cubes_from clock frame_id (List.length pre) rest rest_ids.
Proof.
  induction rest as [|row rest IH];
    intros rest_ids pre pre_ids l Hobjs Hids Hpre Hrest Hrows Hdims Hor.
  - exists l. cbn. now rewrite app_nil_r.
  - destruct rest_ids as [|id rest_ids]; [discriminate|].
    apply Forall_cons_iff in Hrows as [Hrow Hrows].
    cbn [List.length for_loop cubes_from].
    assert (Eget : vec_get objects (List.length pre) = Returns row).
    { unfold vec_get. rewrite Hobjs, nth_error_app2 by lia.
      now rewrite Nat.sub_diag. }
    assert (Eat : vec_at object_ids (List.length pre) = Returns id).
    { unfold vec_at. rewrite Hids, nth_error_app2 by lia.
      now rewrite Hpre, Nat.sub_diag. }
    unfold cube_of_row at 1. rewrite Eget. cbn [bind].
    destruct row as [|x0 [|x1 [|x2 [|x3 [|x4 [|x5 row]]]]]];
      try (cbn in Hrow; lia).
    destruct (dims l) as [|d0 [|d1 [|d2 [|]]]] eqn:Edims; try discriminate.
    cbn [vec_get nth_error bind vec_set List.length Nat.ltb Nat.leb replace_nth].
    rewrite Eat. cbn [bind].
    unfold GetCollisionCube.
    cbn [vec_get nth_error bind vec_set vec_resize firstn repeat app
         List.length Nat.sub Nat.ltb Nat.leb replace_nth primitives
         primitive_poses default_CollisionObject].
    match goal with
    | |- context [for_loop _ _ _ ?st] => set (l1 := st)
    end.
    destruct (IH rest_ids (pre ++ [x0 :: x1 :: x2 :: x3 :: x4 :: x5 :: row])
                (pre_ids ++ [id]) l1) as (l' & E & Hl').
    all: try (subst l1; cbn; auto; fail).
    all: try (cbn in Hrest; lia).
    + now rewrite Hobjs, <- app_assoc.
    + now rewrite Hids, <- app_assoc.
    + rewrite !length_app, Hpre. reflexivity.
    + exists l'. rewrite length_app in E, Hl'. cbn [List.length] in E, Hl'.
      rewrite Nat.add_1_r in E, Hl'. split; [exact E|].
      rewrite Hl'. subst l1. cbn [objs]. rewrite <- app_assoc. cbn [app].
      unfold box. rewrite Hor. reflexivity.
Qed.

Lemma GetCollisionCubes_rows clock objects object_ids frame_id :
  List.length object_ids = List.length objects ->
  Forall (fun row => (6 <= List.length row)%nat) objects ->
  GetCollisionCubes clock objects object_ids frame_id =
  Returns (cubes_from clock frame_id 0 objects object_ids, []).
Proof.
  intros Hlen Hrows. unfold GetCollisionCubes.
  rewrite Hlen, Nat.eqb_refl. cbn [negb].
  match goal with
  | |- context [for_loop _ _ 0%nat ?st] => set (l0 := st)
  end.
  destruct (@cubes_loop clock frame_id objects object_ids
              objects object_ids [] [] l0)
    as (l' & E & Hl'); try reflexivity; auto.
  cbn [List.length] in E. rewrite E. cbn [bind]. now rewrite Hl'.
Qed.

(** ** Reading what was written *)

Lemma replace_nth_middle {A : Type} (pre : list A) x post y :
  replace_nth (pre ++ x :: post) (List.length pre) y = pre ++ y :: post.
Proof. induction pre as [|a pre IH]; cbn; [reflexivity|]. now rewrite IH. Qed.

Lemma nth_error_middle {A : Type} (pre : list A) x post :
  nth_error (pre ++ x :: post) (List.length pre) = Some x.
Proof. induction pre as [|a pre IH]; cbn; auto. Qed.

Lemma scan_sTemp_plain l lead w c rest :
  all_space lead = true ->
  w <> EmptyString ->
  plain_word w = true ->
  isspace c = true ->
  unread (fCfg l) = (lead ++ w ++ String c rest)%string ->
  (String.length w < buffer_size)%nat ->
  scan_sTemp l =
  Returns {| fCfg := {| unread := String c rest;
                        eof_indicator := eof_indicator (fCfg l) |};
             sTemp := Some w;
             object_ids := object_ids l;
             objects := objects l;
             printed := printed l |}.
Proof.
  intros Hlead Hne Hw Hc Hunread Hlen. unfold scan_sTemp.
  rewrite (@fscanf_s_plain (fCfg l) (sTemp l) lead w c rest
             Hlead Hne Hw Hc Hunread Hlen).
  reflexivity.
Qed.

Lemma written_not_empty n : well_formed n -> written n <> EmptyString.
Proof.
  intros (_ & Hne & _). unfold written.
  destruct (negative n); [discriminate|].
  destruct (whole n); [congruence | discriminate].
Qed.

(** One field of a record, read from a stream that continues with white
    space: the value written is stored in its place. *)
Lemma read_field_numeral l n lead c rest pre row post j :
  well_formed n ->
  (String.length (written n) < buffer_size)%nat ->
  all_space lead = true ->
  isspace c = true ->
  unread (fCfg l) = (lead ++ written n ++ String c rest)%string ->
  eof_indicator (fCfg l) = false ->
  objects l = pre ++ row :: post ->
  (j < List.length row)%nat ->
  read_field (List.length pre) j l =
  Returns {| fCfg := {| unread := String c rest; eof_indicator := false |};
             sTemp := Some (written n);
             object_ids := object_ids l;
             objects := pre ++ replace_nth row j (value n) :: post;
             printed := printed l |}.
Proof.
  intros Hwf Hlen Hlead Hc Hunread Heof Hobjs Hj.
  pose proof (@written_numeral_bytes n Hwf) as Hbytes.
  pose proof (@written_not_empty n Hwf) as Hne.
  unfold read_field.
  rewrite (@scan_sTemp_plain l lead (written n) c rest Hlead Hne
             (@numeral_bytes_plain_word _ Hbytes) Hc Hunread Hlen).
  cbn [bind fCfg sTemp objects printed object_ids feof eof_indicator].
  rewrite Heof. cbn [buffer_string bind].
  rewrite (@c_string_plain _ Hbytes).
  destruct (written n) as [|a w] eqn:Ew; [congruence|].
  cbn [String.length Nat.eqb]. rewrite <- Ew.
  unfold vec_get. rewrite Hobjs, nth_error_middle. cbn [bind].
  rewrite vec_set_in_range by exact Hj. cbn [bind].
  rewrite vec_set_in_range
    by (rewrite length_app; cbn [List.length]; lia).
  cbn [bind]. rewrite replace_nth_middle, (@atof_written n Hwf).
  reflexivity.
Qed.

(** Rewrites the next [read_field] of the goal, when the stream holds one
    white-space byte, a numeral of the context, and white space again. *)
Ltac read_next_field :=
  match goal with
  | |- context [read_field _ _
                  (mkObjectsLocals
                     (mkFILE (String ?ws (written ?n ++ String ?c ?rest)) _)
                     _ _ _ _)] =>
      erewrite (@read_field_numeral _ n (String ws EmptyString) c rest)
  end;
  [ | first [assumption | reflexivity | cbn [List.length]; lia] .. ];
  cbn [bind replace_nth object_ids printed].

Lemma read_object_record l r c rest pre post :
  writable r ->
  isspace c = true ->
  unread (fCfg l) = write_record r (String c rest) ->
  eof_indicator (fCfg l) = false ->
  objects l = pre ++ [] :: post ->
  exists w,
    read_object (List.length pre) l =
    Returns {| fCfg := {| unread := String c rest; eof_indicator := false |};
               sTemp := Some w;
               object_ids := object_ids l ++ [record_id r];
               objects := pre ++ record_values r :: post;
               printed := printed l |}.
Proof.
  destruct r as [id fields]. unfold writable, record_values, write_record.
  cbn [record_id record_fields].
  intros (Hne & Hplain & Hlen & H6 & Hfields) Hc Hunread Heof Hobjs.
  destruct fields as [|f0 [|f1 [|f2 [|f3 [|f4 [|f5 [|]]]]]]];
    try discriminate.
  repeat match goal with
         | H : Forall _ (_ :: _) |- _ =>
             apply Forall_cons_iff in H;
             let Hwf := fresh "Hwf" in
             let Hl := fresh "Hl" in
             destruct H as [[Hwf Hl] H]
         end.
  cbn [write_fields fold_right] in Hunread.
  unfold read_object.
  rewrite (@scan_sTemp_plain l newline id " "%char
             (written f0 ++ " " ++ written f1 ++ " " ++ written f2 ++ " " ++
              written f3 ++ " " ++ written f4 ++ " " ++ written f5 ++
              String c rest)%string
             eq_refl Hne Hplain eq_refl Hunread Hlen).
  cbn [bind fCfg sTemp objects printed object_ids buffer_string].
  rewrite (@c_string_plain_word id Hplain).
  unfold vec_get. rewrite Hobjs, nth_error_middle. cbn [bind].
  rewrite vec_set_in_range by (rewrite length_app; cbn [List.length]; lia).
  cbn [bind]. rewrite replace_nth_middle, Heof.
  cbn [vec_resize firstn repeat app List.length Nat.sub for_loop append].
  eexists.
  do 6 read_next_field.
  cbn [map]. reflexivity.
Qed.

Lemma write_records_head records c rest :
  isspace c = true ->
  exists c' rest',
    write_records records (String c rest) = String c' rest' /\
    isspace c' = true.
Proof.
  intros Hc. destruct records as [|r records]; cbn [write_records fold_right].
  - eauto.
  - unfold write_record. cbn [newline append]. eauto.
Qed.

(** The loop of [GetCollisionObjects] over records as they were written,
    when the stream continues with white space after them. *)
Lemma records_loop c rest :
  isspace c = true ->
  forall records pre post l,
    Forall writable records ->
    unread (fCfg l) = write_records records (String c rest) ->
    eof_indicator (fCfg l) = false ->
    objects l = pre ++ repeat [] (List.length records) ++ post ->
    exists buf,
      for_loop (List.length records) read_object (List.length pre) l =
      Returns {| fCfg := {| unread := String c rest; eof_indicator := false |};
                 sTemp := buf;
                 object_ids := object_ids l ++ map record_id records;
                 objects := pre ++ map record_values records ++ post;
                 printed := printed l |}.
Proof.
  intros Hc.
  induction records as [|r records IH];
    intros pre post l Hall Hunread Heof Hobjs.
  - exists (sTemp l). cbn in *. rewrite !app_nil_r in *.
    destruct l as [[u e] b ids objs out]; cbn in *. now subst.
  - apply Forall_cons_iff in Hall as [Hr Hall].
    cbn [List.length for_loop repeat write_records fold_right] in *.
    destruct (@write_records_head records c rest Hc) as (c' & rest' & Erest & Hc').
    fold (write_records records (String c rest)) in Hunread.
    rewrite Erest in Hunread.
    destruct (@read_object_record l r c' rest' pre
                (repeat [] (List.length records) ++ post)
                Hr Hc' Hunread Heof Hobjs)
      as (w & E).
    rewrite E. cbn [bind].
    match goal with
    | |- context [for_loop _ _ _ ?st] => set (l1 := st)
    end.
    destruct (IH (pre ++ [record_values r]) post l1) as (buf & E1).
    + exact Hall.
    + subst l1. cbn [fCfg unread]. now rewrite Erest.
    + reflexivity.
    + subst l1. cbn [objects]. now rewrite <- app_assoc.
    + exists buf. rewrite length_app in E1. cbn [List.length] in E1.
      rewrite Nat.add_1_r in E1. rewrite E1. subst l1.
      cbn [object_ids printed map]. now rewrite <- !app_assoc.
Qed.

Lemma record_values_length r :
  writable r -> List.length (record_values r) = 6%nat.
Proof.
  intros (_ & _ & _ & H6 & _). unfold record_values. now rewrite length_map.
Qed.

(** X2. Reading back what was written.  A file made of a count word, then
    for every record a line feed, an id and six decimal numerals separated
    by single spaces, then a final line feed, is read by
    [GetCollisionObjects] as exactly these records: one box per record, in
    order, with the id of the record and, for each of its six numerals,
    the double nearest to the number written (an infinity when that is
    beyond the range of [double]); only the count is logged.  The ids and numerals are words without white
    space that fit the buffer, and the count word reads as the number of
    records. *)
Theorem written_scenario_is_read_back
    fs clock filename frame_id count records :
  count <> EmptyString ->
  plain_word count = true ->
  (String.length count < buffer_size)%nat ->
  atoi count = Returns (Z.of_nat (List.length records)) ->
  Forall writable records ->
  fs filename = Some (write_scenario count records) ->
  GetCollisionObjects fs clock filename frame_id =
  Returns (cubes_from clock frame_id 0
             (map record_values records) (map record_id records),
           [ObjectsInFile (Z.of_nat (List.length records))]).
Proof.
  intros Hne Hplain Hlen Hatoi Hall Hfile.
  unfold GetCollisionObjects, fopen. rewrite Hfile.
  destruct (@write_records_head records "010"%char EmptyString eq_refl)
    as (c & rest & Erest & Hc).
  change (String "010" "") with newline in Erest.
  set (N := List.length records) in *.
  match goal with
  | |- context [scan_sTemp ?st] => set (l0 := st)
  end.
  rewrite (@scan_sTemp_plain l0 EmptyString count c rest
             eq_refl Hne Hplain Hc).
  2:{ subst l0. cbn [fCfg unread append]. unfold write_scenario.
      now rewrite Erest. }
  2:{ exact Hlen. }
  cbn [bind fCfg sTemp objects printed object_ids buffer_string l0
       eof_indicator].
  rewrite (@c_string_plain_word count Hplain), Hatoi. cbn [bind].
  pose proof (@atoi_range _ _ Hatoi) as Hrange.
  rewrite resize_rows_nonnegative by lia. cbn [bind].
  rewrite Nat2Z.id. unfold vec_resize.
  rewrite firstn_nil. cbn [app List.length]. rewrite Nat.sub_0_r.
  match goal with
  | |- context [for_loop _ read_object 0%nat ?st] => set (l1 := st)
  end.
  destruct (@records_loop "010"%char EmptyString eq_refl records [] [] l1 Hall)
    as (buf & E).
  - subst l1. cbn [fCfg unread]. exact (eq_sym Erest).
  - reflexivity.
  - subst l1. cbn [objects app]. now rewrite app_nil_r.
  - rewrite app_nil_r in E. cbn [List.length] in E. fold N in E. rewrite E. subst l1.
    cbn [bind objects object_ids printed app].
    rewrite GetCollisionCubes_rows.
    + cbn [bind]. reflexivity.
    + now rewrite !length_map.
    + apply Forall_map. eapply Forall_impl; [|exact Hall].
      intros r Hr. rewrite (record_values_length Hr). lia.
Qed.

(** ** A file that ends without white space *)

Lemma read_field_end i j l lead w :
  all_space lead = true ->
  w <> EmptyString ->
  plain_word w = true ->
  (String.length w < buffer_size)%nat ->
  unread (fCfg l) = (lead ++ w)%string ->
  read_field i j l =
  Returns {| fCfg := {| unread := EmptyString; eof_indicator := true |};
             sTemp := Some w;
             object_ids := object_ids l;
             objects := objects l;
             printed := printed l |}.
Proof.
  intros Hlead Hne Hw Hlen Hunread. unfold read_field, scan_sTemp.
  rewrite (@fscanf_s_plain_end (fCfg l) (sTemp l) lead w
             Hlead Hne Hw Hunread Hlen).
  reflexivity.
Qed.

Lemma for_loop_add {St : Type} (body : nat -> St -> outcome St) n m lo st :
  for_loop (n + m) body lo st =
  bind (for_loop n body lo st) (for_loop m body (lo + n)).
Proof.
  revert lo st. induction n as [|n IH]; intros lo st; cbn [Nat.add for_loop bind].
  - now rewrite Nat.add_0_r.
  - destruct (body lo st) as [st'| |]; cbn [bind]; [|reflexivity..].
    rewrite IH. now rewrite Nat.add_succ_r.
Qed.

Lemma write_records_app records records' rest :
  write_records (records ++ records') rest =
  write_records records (write_records records' rest).
Proof. unfold write_records. apply fold_right_app. Qed.

(** The last record of a file that ends with the record: the sixth field
    is read, and not stored. *)
Lemma read_object_record_end l r pre post :
  writable r ->
  unread (fCfg l) = write_record r EmptyString ->
  eof_indicator (fCfg l) = false ->
  objects l = pre ++ [] :: post ->
  exists w,
    read_object (List.length pre) l =
    Returns {| fCfg := {| unread := EmptyString; eof_indicator := true |};
               sTemp := Some w;
               object_ids := object_ids l ++ [record_id r];
               objects := pre ++ replace_nth (record_values r) 5 0%float :: post;
               printed := printed l |}.
Proof.
  destruct r as [id fields]. unfold writable, record_values, write_record.
  cbn [record_id record_fields].
  intros (Hne & Hplain & Hlen & H6 & Hfields) Hunread Heof Hobjs.
  destruct fields as [|f0 [|f1 [|f2 [|f3 [|f4 [|f5 [|]]]]]]];
    try discriminate.
  repeat match goal with
         | H : Forall _ (_ :: _) |- _ =>
             apply Forall_cons_iff in H;
             let Hwf := fresh "Hwf" in
             let Hl := fresh "Hl" in
             destruct H as [[Hwf Hl] H]
         end.
  cbn [write_fields fold_right] in Hunread.
  rewrite (append_empty_r (written f5)) in Hunread.
  unfold read_object.
  rewrite (@scan_sTemp_plain l newline id " "%char
             (written f0 ++ " " ++ written f1 ++ " " ++ written f2 ++ " " ++
              written f3 ++ " " ++ written f4 ++ " " ++ written f5)%string
             eq_refl Hne Hplain eq_refl Hunread Hlen).
  cbn [bind fCfg sTemp objects printed object_ids buffer_string].
  rewrite (@c_string_plain_word id Hplain).
  unfold vec_get. rewrite Hobjs, nth_error_middle. cbn [bind].
  rewrite vec_set_in_range by (rewrite length_app; cbn [List.length]; lia).
  cbn [bind]. rewrite replace_nth_middle, Heof.
  cbn [vec_resize firstn repeat app List.length Nat.sub for_loop append].
  eexists. do 5 read_next_field.
  erewrite (@read_field_end _ _ _ " " (written f5));
    [ | reflexivity | now apply written_not_empty
      | now apply numeral_bytes_plain_word, written_numeral_bytes
      | assumption | reflexivity ].
  cbn [bind map replace_nth object_ids objects printed]. reflexivity.
Qed.

(** X3. A file that ends with its last numeral, with no white space after
    it, loses that numeral: [GetCollisionObjects] returns every box with
    the doubles nearest to the numbers written, except that the last box
    has 0 as its third dimension, because the end of the file is noticed
    while that numeral is being read and the value is then not stored.
    Nothing but the count is logged. *)
Theorem scenario_without_final_newline_loses_last_value
    fs clock filename frame_id count records last :
  count <> EmptyString ->
  plain_word count = true ->
  (String.length count < buffer_size)%nat ->
  atoi count = Returns (Z.of_nat (List.length records + 1)) ->
  Forall writable records ->
  writable last ->
  fs filename =
    Some (count ++ write_records (records ++ [last]) EmptyString)%string ->
  GetCollisionObjects fs clock filename frame_id =
  Returns (cubes_from clock frame_id 0
             (map record_values records ++
              [replace_nth (record_values last) 5 0%float])
             (map record_id records ++ [record_id last]),
           [ObjectsInFile (Z.of_nat (List.length records + 1))]).
Proof.
  intros Hne Hplain Hlen Hatoi Hall Hlast Hfile.
  unfold GetCollisionObjects, fopen. rewrite Hfile.
  rewrite write_records_app.
  cbn [write_records fold_right]. fold (write_records records).
  unfold write_record at 1. cbn [newline append].
  match goal with
  | |- context [write_records records (String "010" ?t)] => set (rest := t)
  end.
  destruct (@write_records_head records "010"%char rest eq_refl)
    as (c & rest' & Erest & Hc).
  set (N := (List.length records + 1)%nat) in *.
  match goal with
  | |- context [scan_sTemp ?st] => set (l0 := st)
  end.
  rewrite (@scan_sTemp_plain l0 EmptyString count c rest'
             eq_refl Hne Hplain Hc).
  2:{ subst l0. cbn [fCfg unread append]. now rewrite Erest. }
  2:{ exact Hlen. }
  cbn [bind fCfg sTemp objects printed object_ids buffer_string l0
       eof_indicator].
  rewrite (@c_string_plain_word count Hplain), Hatoi. cbn [bind].
  pose proof (@atoi_range _ _ Hatoi) as Hrange.
  rewrite resize_rows_nonnegative by lia. cbn [bind].
  rewrite Nat2Z.id. unfold vec_resize.
  rewrite firstn_nil. cbn [app List.length]. rewrite Nat.sub_0_r.
  subst N. rewrite for_loop_add, repeat_app. cbn [repeat Nat.add].
  match goal with
  | |- context [for_loop _ read_object 0%nat ?st] => set (l1 := st)
  end.
  destruct (@records_loop "010"%char rest eq_refl records [] [[]] l1 Hall)
    as (buf & E).
  - subst l1. cbn [fCfg unread]. exact (eq_sym Erest).
  - reflexivity.
  - reflexivity.
  - cbn [List.length app] in E. rewrite E. cbn [bind Nat.add].
    match goal with
    | |- context [for_loop 1 read_object _ ?st] => set (l2 := st)
    end.
    destruct (@read_object_record_end l2 last (map record_values records) []
                Hlast eq_refl eq_refl eq_refl) as (w & E2).
    rewrite length_map in E2.
    cbn [for_loop]. rewrite E2. cbn [bind].
    subst l2 l1. cbn [objects object_ids printed app].
    rewrite GetCollisionCubes_rows.
    + cbn [bind]. reflexivity.
    + rewrite !length_app, !length_map. reflexivity.
    + apply Forall_app. split.
      * apply Forall_map. eapply Forall_impl; [|exact Hall].
        intros r Hr. rewrite (record_values_length Hr). lia.
      * constructor; [|constructor].
        pose proof (record_values_length Hlast) as H6.
        destruct (record_values last) as [|x0 [|x1 [|x2 [|x3 [|x4 [|x5 t]]]]]];
          try discriminate. cbn. lia.
Qed.

(** X1. When every row holds at least six numbers, [GetCollisionCubes]
    returns: with as many ids as rows, one box per row and in the order of
    the rows, box [i] carrying the [i]-th id, the frame, the [i]-th reading
    of the clock, the first three numbers of its row as position and the
    next three as dimensions (numbers after the sixth are ignored), with
    nothing logged; with another number of ids than rows, no object at all
    and the mismatch logged. *)
Theorem GetCollisionCubes_row_by_row
    (clock : Clock) (objects : list (list double)) (object_ids : list string)
    (frame_id : string) :
  Forall (fun row => (6 <= List.length row)%nat) objects ->
  GetCollisionCubes clock objects object_ids frame_id =
  if (List.length object_ids =? List.length objects)%nat
  then Returns (cubes_from clock frame_id 0 objects object_ids, [])
  else Returns ([], [IdListLengthMismatch]).
Proof.
  intros Hrows.
  destruct (Nat.eqb_spec (List.length object_ids) (List.length objects))
    as [Hlen|Hlen].
  - now apply GetCollisionCubes_rows.
  - unfold GetCollisionCubes.
    apply Nat.eqb_neq in Hlen. now rewrite Hlen.
Qed.

(** ** A count that is no number *)

Lemma scan_sign_other c s :
  c <> "-"%char -> c <> "+"%char -> scan_sign (String c s) = (false, String c s).
Proof.
  intros Hm Hp.
  destruct c as [[] [] [] [] [] [] [] []]; try reflexivity; congruence.
Qed.

Lemma c_string_idempotent s : c_string (c_string s) = c_string s.
Proof.
  induction s as [|c s IH]; cbn [c_string]; [reflexivity|].
  destruct (nat_of_ascii c =? 0)%nat eqn:E; cbn [c_string]; [reflexivity|].
  now rewrite E, IH.
Qed.

Lemma atoi_no_number c s :
  isspace c = false -> isdigit c = false ->
  c <> "-"%char -> c <> "+"%char ->
  atoi (c_string (String c s)) = Returns 0%Z.
Proof.
  intros Hs Hd Hm Hp. cbn [c_string].
  destruct (nat_of_ascii c =? 0)%nat eqn:E0; [reflexivity|].
  unfold atoi. cbn [c_string]. rewrite E0, c_string_idempotent.
  cbn [skip_space]. rewrite Hs, (@scan_sign_other c _ Hm Hp).
  cbn [scan_digits]. rewrite Hd. reflexivity.
Qed.

Lemma fscanf_s_first_byte f buf n f' c w :
  fscanf_s f buf = Returns (n, f', Some (String c w)) ->
  buf = None ->
  isspace c = false.
Proof.
  unfold fscanf_s. intros H ->.
  destruct (skip_space (unread f)) as [|a s] eqn:Hskip; [discriminate|].
  pose proof (skip_space_head _ Hskip) as Ha.
  cbn [scan_word] in H. rewrite Ha in H.
  destruct (scan_word s) as [w' r].
  destruct (_ <? _)%nat; [|discriminate].
  injection H as _ _ E _. now subst.
Qed.

Lemma GetCollisionObjects_zero fs clock filename frame_id contents :
  fs filename = Some contents ->
  declared_count contents = Returns 0%Z ->
  GetCollisionObjects fs clock filename frame_id =
  Returns ([], [ObjectsInFile 0]).
Proof.
  intros Hfile Hcount.
  unfold GetCollisionObjects, fopen. rewrite Hfile.
  unfold declared_count in Hcount. unfold scan_sTemp. cbn [fCfg sTemp].
  unfold fscanf_s in *. cbn [unread eof_indicator] in *.
  destruct (skip_space contents) as [|a t]; [discriminate Hcount|].
  destruct (scan_word (String a t)) as [w r].
  destruct (_ <? _)%nat; [|discriminate Hcount].
  cbn [bind buffer_string sTemp] in *. rewrite Hcount. reflexivity.
Qed.

(** X4. When the first word of the file fits the buffer and does not
    start like a number (its first byte is no digit and no sign),
    [GetCollisionObjects] takes the count to be 0: it returns no object and logs a count of 0, whatever
    follows in the file, and reports no error. *)
Theorem count_that_is_no_number_declares_nothing
    (fs : filesystem) (clock : Clock) (filename frame_id contents : string)
    (f : FILE) (c : ascii) (w : string) :
  fs filename = Some contents ->
  fscanf_s {| unread := contents; eof_indicator := false |} None =
    Returns (1%Z, f, Some (String c w)) ->
  isdigit c = false ->
  c <> "-"%char ->
  c <> "+"%char ->
  GetCollisionObjects fs clock filename frame_id =
  Returns ([], [ObjectsInFile 0]).
Proof.
  intros Hfile Hscan Hd Hm Hp.
  apply GetCollisionObjects_zero with (contents := contents); [exact Hfile|].
  unfold declared_count. rewrite Hscan. cbn [bind buffer_string].
  apply atoi_no_number; auto.
  exact (@fscanf_s_first_byte _ _ _ _ _ _ Hscan eq_refl).
Qed.

(** ** A message in the order of the planning joints *)

Lemma first_index_nth names :
  NoDup names ->
  forall k j, nth_error names k = Some j -> first_index names j = Some k.
Proof.
  induction 1 as [|n names Hn Hnd IH]; intros k j Hk.
  - destruct k; discriminate.
  - cbn [first_index]. destruct k as [|k]; cbn in Hk.
    + injection Hk as ->. now rewrite String.eqb_refl.
    + destruct (String.eqb_spec n j) as [->|Hne].
      * exfalso. apply Hn. eapply nth_error_In; eauto.
      * now rewrite (IH k j Hk).
Qed.

Lemma recorded_positions_unique js joints ps qs :
  Forall2 (fun j p => recorded_position js j = Some p) joints ps ->
  Forall2 (fun j p => recorded_position js j = Some p) joints qs ->
  ps = qs.
Proof.
  intros Hp. revert qs. induction Hp as [|j p joints ps Hj Hp IH];
    intros qs Hq; inversion Hq; subst; [reflexivity|].
  f_equal; [congruence | now apply IH].
Qed.

Lemma recorded_in_order names values :
  NoDup names ->
  forall post_n post_v pre_n pre_v,
    names = pre_n ++ post_n ->
    values = pre_v ++ post_v ->
    List.length pre_n = List.length pre_v ->
    List.length post_n = List.length post_v ->
    Forall2
      (fun j p =>
         recorded_position
           {| joint_name := names; joint_position := values |} j = Some p)
      post_n post_v.
Proof.
  intros Hnd. induction post_n as [|j post_n IH];
    intros post_v pre_n pre_v Hn Hv Hpre Hpost.
  - destruct post_v; [constructor | discriminate].
  - destruct post_v as [|p post_v]; [discriminate|].
    constructor.
    + unfold recorded_position. cbn [joint_name joint_position].
      rewrite (@first_index_nth names Hnd (List.length pre_n) j)
        by (rewrite Hn; apply nth_error_middle).
      rewrite Hv, Hpre. apply nth_error_middle.
    + apply (IH post_v (pre_n ++ [j]) (pre_v ++ [p])).
      * now rewrite Hn, <- app_assoc.
      * now rewrite Hv, <- app_assoc.
      * rewrite !length_app, Hpre. reflexivity.
      * cbn in Hpost. lia.
Qed.

(** X5. A message that lists the planning joints, each once and in their
    order, with one position for each, is read back by [MakeRobotState] as
    exactly these positions, with the flag set and nothing logged. *)
Theorem MakeRobotState_reads_back
    (planning_joints : list string) (state : RobotState) :
  NoDup planning_joints ->
  List.length state = List.length planning_joints ->
  MakeRobotState
    {| joint_state := {| joint_name := planning_joints;
                         joint_position := state |} |}
    planning_joints =
  Returns (state, true, []).
Proof.
  intros Hnd Hlen.
  set (msg := {| joint_state := {| joint_name := planning_joints;
                                   joint_position := state |} |}).
  pose proof (@recorded_in_order planning_joints state Hnd
                planning_joints state [] [] eq_refl eq_refl eq_refl
                (eq_sym Hlen)) as Hall.
  unfold MakeRobotState.
  destruct (@collect_joint_positions_spec msg planning_joints [])
    as [(ps & E & Hps)|(j & Hin & Hout & _)].
  - subst msg. cbn. lia.
  - rewrite E. cbn [app].
    now rewrite (@recorded_positions_unique _ _ _ _ Hps Hall).
  - exfalso. apply Hout. exact Hin.
Qed.

(** ** Witnesses *)

Ltac prove_writable :=
  repeat split;
  try discriminate; try reflexivity;
  try (apply Nat.ltb_lt; vm_compute; reflexivity);
  repeat (constructor;
          [ repeat split; try discriminate; try reflexivity;
            apply Nat.ltb_lt; vm_compute; reflexivity | ]);
  try constructor.

Lemma box1_record_writable : writable box1_record.
Proof. prove_writable. Qed.

Lemma box2_record_writable : writable box2_record.
Proof. prove_writable. Qed.

Example two_boxes_as_written :
  write_scenario "2" [box1_record; box2_record] = two_boxes.
Proof. reflexivity. Qed.

Lemma GetCollisionCubes_row_by_row_witness :
  Forall (fun row => (6 <= List.length row)%nat) [[1; 2; 3; 4; 5; 6; 7]%float] /\
  GetCollisionCubes Z.of_nat [[1; 2; 3; 4; 5; 6; 7]%float] ["a"] "map" =
  Returns ([box "map" 0%Z "a" 1 2 3 4 5 6], []).
Proof.
  assert (H : Forall (fun row => (6 <= List.length row)%nat)
                [[1; 2; 3; 4; 5; 6; 7]%float])
    by (constructor; [cbn; lia | constructor]).
  split; [exact H|].
  exact (@GetCollisionCubes_row_by_row Z.of_nat [[1; 2; 3; 4; 5; 6; 7]%float]
           ["a"] "map" H).
Defined.

Lemma written_scenario_is_read_back_witness :
  GetCollisionObjects (only_file "objects.txt" two_boxes) Z.of_nat
    "objects.txt" "map" =
  Returns (cubes_from Z.of_nat "map" 0
             (map record_values [box1_record; box2_record])
             (map record_id [box1_record; box2_record]),
           [ObjectsInFile 2]).
Proof.
  exact (@written_scenario_is_read_back
           (only_file "objects.txt" two_boxes) Z.of_nat "objects.txt" "map"
           "2" [box1_record; box2_record]
           (fun E => match E with end) eq_refl
           (proj1 (Nat.ltb_lt 1 buffer_size) eq_refl) eq_refl
           (Forall_cons _ box1_record_writable
              (Forall_cons _ box2_record_writable (Forall_nil _)))
           eq_refl).
Defined.

Lemma scenario_without_final_newline_loses_last_value_witness :
  GetCollisionObjects
    (only_file "objects.txt"
       ("2" ++ write_records ([box1_record] ++ [box2_record]) EmptyString)%string)
    Z.of_nat "objects.txt" "map" =
  Returns ([box "map" 0%Z "box1" 0 0 0 tenth tenth tenth;
            box "map" 1%Z "box2" 1 0 0 fifth fifth 0],
           [ObjectsInFile 2]).
Proof.
  exact (@scenario_without_final_newline_loses_last_value
           (only_file "objects.txt"
              ("2" ++ write_records ([box1_record] ++ [box2_record])
                        EmptyString)%string)
           Z.of_nat "objects.txt" "map" "2" [box1_record] box2_record
           (fun E => match E with end) eq_refl
           (proj1 (Nat.ltb_lt 1 buffer_size) eq_refl) eq_refl
           (Forall_cons _ box1_record_writable (Forall_nil _))
           box2_record_writable eq_refl).
Defined.

Lemma count_that_is_no_number_declares_nothing_witness :
  GetCollisionObjects (only_file "objects.txt" no_count_line) Z.of_nat
    "objects.txt" "map" =
  Returns ([], [ObjectsInFile 0]).
Proof.
  exact (@count_that_is_no_number_declares_nothing
           (only_file "objects.txt" no_count_line) Z.of_nat
           "objects.txt" "map" no_count_line
           {| unread := " 0 0 0 0.1 0.1 0.1" ++ newline;
              eof_indicator := false |}
           "b"%char "ox1"
           eq_refl eq_refl eq_refl
           (fun E => match E with end) (fun E => match E with end)).
Defined.

Lemma MakeRobotState_reads_back_witness :
  MakeRobotState
    {| joint_state := {| joint_name := ["a"; "b"];
                         joint_position := [1; 2]%float |} |}
    ["a"; "b"] =
  Returns ([1; 2]%float, true, []).
Proof.
  assert (Hnd : NoDup ["a"; "b"]).
  { constructor; [intros [E|[]]; discriminate|].
    constructor; [intros []|constructor]. }
  exact (@MakeRobotState_reads_back ["a"; "b"] [1; 2]%float Hnd eq_refl).
Defined.

(** ** The initial configuration *)

Lemma nth_middle_default {A : Type} (pre : list A) x post d :
  nth (List.length pre) (pre ++ x :: post) d = x.
Proof. induction pre as [|a pre IH]; cbn; auto. Qed.

Lemma read_joint_entry pre e post js logged :
  named_entry e = true ->
  read_joint (TypeArray (pre ++ e :: post)) (List.length pre) (js, logged) =
  Got ({| joint_name := joint_name js ++ [entry_name e];
          joint_position :=
            joint_position js ++ entry_positions [e] |},
       logged ++ entry_logged e).
Proof.
  intros He. unfold read_joint, xml_at. cbn [and_then].
  rewrite nth_middle_default.
  unfold entry_positions, entry_position, entry_logged, entry_name.
  cbn [flat_map].
  destruct e as [| | | | | | | |m]; try discriminate He;
    cbn [xml_member and_then xml_string].
  - cbn [app]. now rewrite !app_nil_r.
  - cbn [named_entry] in He.
    destruct (xml_lookup m "name"); try discriminate He;
      cbn [xml_string and_then joint_name joint_position];
      destruct (xml_lookup m "position"); cbn [app];
        rewrite ?app_nil_r; destruct js; reflexivity.
Qed.

Lemma read_joints_loop post :
  forall pre js logged,
    forallb named_entry post = true ->
    checked_loop (List.length post) (read_joint (TypeArray (pre ++ post)))
      (List.length pre) (js, logged) =
    Got ({| joint_name := joint_name js ++ map entry_name post;
            joint_position := joint_position js ++ entry_positions post |},
         logged ++ flat_map entry_logged post).
Proof.
  induction post as [|e post IH]; intros pre js logged Hall.
  - cbn. rewrite !app_nil_r. now destruct js.
  - cbn [forallb] in Hall. apply andb_prop in Hall as [He Hall].
    cbn [List.length checked_loop].
    rewrite (@read_joint_entry pre e post js logged He). cbn [and_then].
    replace (pre ++ e :: post) with ((pre ++ [e]) ++ post)
      by now rewrite <- app_assoc.
    replace (S (List.length pre)) with (List.length (pre ++ [e]))
      by (rewrite length_app; cbn; lia).
    rewrite (IH (pre ++ [e]) _ _ Hall).
    cbn [joint_name joint_position map flat_map].
    unfold entry_positions. cbn [flat_map].
    now rewrite <- !app_assoc.
Qed.

Lemma FindParam_found {T : Type} `{ParamType T}
    (nh : NodeHandle) key full_param v t (out : T) :
  searchParam nh key = Some full_param ->
  getParam nh full_param = Some v ->
  from_param v = Some t ->
  FindParam nh key out = (true, t, []).
Proof. intros Hs Hg Hf. unfold FindParam. now rewrite Hs, Hg, Hf. Qed.

Lemma FindParam_not_set {T : Type} `{ParamType T}
    (nh : NodeHandle) key (out : T) :
  searchParam nh key = None ->
  FindParam nh key out = (false, out, [FailedToFindKey key]).
Proof. intros Hs. unfold FindParam. now rewrite Hs. Qed.

Lemma read_joint_state_array nh full_param entries xlist js :
  searchParam nh "initial_configuration/joint_state" = Some full_param ->
  getParam nh full_param = Some (TypeArray entries) ->
  forallb named_entry entries = true ->
  read_joint_state nh xlist js =
  Got (TypeArray entries,
       {| joint_name := joint_name js ++ map entry_name entries;
          joint_position := joint_position js ++ entry_positions entries |},
       flat_map entry_logged entries).
Proof.
  intros Hs Hg Hall. unfold read_joint_state.
  rewrite (@FindParam_found XmlRpcValue value_param nh _ full_param
             (TypeArray entries) (TypeArray entries) xlist Hs Hg eq_refl).
  cbn [xml_size and_then].
  destruct entries as [|e entries].
  - cbn. rewrite !app_nil_r. now destruct js.
  - replace (0 <? List.length (e :: entries))%nat with true
      by (symmetry; apply Nat.ltb_lt; cbn; lia).
    pose proof (@read_joints_loop (e :: entries) [] js [] Hall) as E.
    cbn [app] in E. change (@List.length XmlRpcValue []) with 0%nat in E.
    cbv zeta. rewrite E. reflexivity.
Qed.

Lemma double_member_value m key :
  double_member m key = true ->
  xml_double (xml_lookup m key) = Got (member_value (TypeStruct m) key).
Proof.
  unfold double_member, member_value.
  destruct (xml_lookup m key); intros H; try discriminate H; reflexivity.
Qed.

Lemma read_multi_dof_entry from_euler_zyx pre e post mdjs :
  dof_entry e = true ->
  read_multi_dof_joint from_euler_zyx (TypeArray (pre ++ e :: post))
    (List.length pre) mdjs =
  Got {| moveit_msgs.joint_names :=
           replace_nth (moveit_msgs.joint_names mdjs) (List.length pre)
             (dof_name e);
         moveit_msgs.transforms :=
           replace_nth (moveit_msgs.transforms mdjs) (List.length pre)
             (dof_transform from_euler_zyx e) |}.
Proof.
  intros He. unfold read_multi_dof_joint, xml_at. cbn [and_then].
  rewrite nth_middle_default.
  destruct e as [| | | | | | | |m]; try discriminate He.
  - reflexivity.
  - cbn [dof_entry] in He.
    repeat (apply andb_prop in He as [He ?]).
    cbn [xml_member and_then].
    rewrite !double_member_value by assumption. cbn [and_then].
    unfold dof_name, dof_transform.
    destruct (xml_lookup m "joint_name"); try discriminate He; reflexivity.
Qed.

Lemma read_multi_dof_loop from_euler_zyx post :
  forall pre done_names rest_names done_transforms rest_transforms,
    forallb dof_entry post = true ->
    List.length done_names = List.length pre ->
    List.length done_transforms = List.length pre ->
    List.length rest_names = List.length post ->
    List.length rest_transforms = List.length post ->
    checked_loop (List.length post)
      (read_multi_dof_joint from_euler_zyx (TypeArray (pre ++ post)))
      (List.length pre)
      {| moveit_msgs.joint_names := done_names ++ rest_names;
         moveit_msgs.transforms := done_transforms ++ rest_transforms |} =
    Got {| moveit_msgs.joint_names := done_names ++ map dof_name post;
           moveit_msgs.transforms :=
             done_transforms ++ map (dof_transform from_euler_zyx) post |}.
Proof.
  induction post as [|e post IH];
    intros pre dn rn dt rt Hall Hdn Hdt Hrn Hrt.
  - destruct rn; [|discriminate]. destruct rt; [|discriminate]. reflexivity.
  - destruct rn as [|n rn]; [discriminate|].
    destruct rt as [|t rt]; [discriminate|].
    cbn [forallb] in Hall. apply andb_prop in Hall as [He Hall].
    cbn [List.length checked_loop].
    rewrite (@read_multi_dof_entry from_euler_zyx pre e post _ He).
    cbn [and_then moveit_msgs.joint_names moveit_msgs.transforms].
    rewrite <- Hdn. rewrite replace_nth_middle. rewrite Hdn.
    rewrite <- Hdt. rewrite replace_nth_middle. rewrite Hdt.
    replace (pre ++ e :: post) with ((pre ++ [e]) ++ post)
      by now rewrite <- app_assoc.
    replace (S (List.length pre)) with (List.length (pre ++ [e]))
      by (rewrite length_app; cbn; lia).
    replace (dn ++ dof_name e :: rn) with ((dn ++ [dof_name e]) ++ rn)
      by now rewrite <- app_assoc.
    replace (dt ++ dof_transform from_euler_zyx e :: rt)
      with ((dt ++ [dof_transform from_euler_zyx e]) ++ rt)
      by now rewrite <- app_assoc.
    rewrite (IH (pre ++ [e])); try assumption.
    + cbn [map]. now rewrite <- !app_assoc.
    + rewrite !length_app. cbn. lia.
    + rewrite !length_app. cbn. lia.
    + cbn in Hrn. lia.
    + cbn in Hrt. lia.
Qed.

Lemma read_multi_dof_not_set from_euler_zyx nh xlist mdjs :
  searchParam nh "initial_configuration/multi_dof_joint_state" = None ->
  read_multi_dof_joint_state from_euler_zyx nh xlist mdjs =
  Got (mdjs,
       [FailedToFindKey "initial_configuration/multi_dof_joint_state"]).
Proof.
  intros Hs. unfold read_multi_dof_joint_state.
  now rewrite (@FindParam_not_set XmlRpcValue value_param nh _ xlist Hs).
Qed.

Lemma read_joint_state_not_set nh xlist js :
  searchParam nh "initial_configuration/joint_state" = None ->
  read_joint_state nh xlist js =
  Got (xlist, js,
       [FailedToFindKey "initial_configuration/joint_state";
        JointStateIsNotOnTheParamServer]).
Proof.
  intros Hs. unfold read_joint_state.
  now rewrite (@FindParam_not_set XmlRpcValue value_param nh _ xlist Hs).
Qed.

Lemma checked_loop_throws {St : Type} (body : nat -> St -> checked St) i :
  (forall st, body i st = XmlRpcException) ->
  forall n lo st,
    (lo <= i < lo + n)%nat ->
    checked_loop n body lo st = XmlRpcException.
Proof.
  intros Hi. induction n as [|n IH]; intros lo st Hlt; [lia|].
  cbn [checked_loop].
  destruct (Nat.eq_dec lo i) as [->|Hne].
  - now rewrite Hi.
  - destruct (body lo st) as [st'|]; cbn [and_then]; [|reflexivity].
    apply IH. lia.
Qed.

(** X6. When [initial_configuration/joint_state] is an array of structs
    whose names are strings (or missing) and no multi-dof parameter is set,
    [ReadInitialConfiguration] returns true and appends to the joint state
    the message already holds: every name, in order, and the position of
    every entry whose position is a double or an integer.  The multi-dof
    part of the message is untouched; the debug line is logged once for
    every position that is not a double. *)
Theorem joint_state_is_appended
    from_euler_zyx nh full_param entries state :
  searchParam nh "initial_configuration/joint_state" = Some full_param ->
  getParam nh full_param = Some (TypeArray entries) ->
  forallb named_entry entries = true ->
  searchParam nh "initial_configuration/multi_dof_joint_state" = None ->
  ReadInitialConfiguration from_euler_zyx nh state =
  Got (true,
       {| moveit_msgs.joint_state :=
            {| joint_name :=
                 joint_name (moveit_msgs.joint_state state)
                 ++ map entry_name entries;
               joint_position :=
                 joint_position (moveit_msgs.joint_state state)
                 ++ entry_positions entries |};
          moveit_msgs.multi_dof_joint_state :=
            moveit_msgs.multi_dof_joint_state state |},
       flat_map entry_logged entries ++
       [FailedToFindKey "initial_configuration/multi_dof_joint_state";
        ReadInitialState
          (List.length (joint_name (moveit_msgs.joint_state state))
           + List.length entries)
          (List.length
             (moveit_msgs.joint_names
                (moveit_msgs.multi_dof_joint_state state)))]).
Proof.
  intros Hs Hg Hall Hm. unfold ReadInitialConfiguration.
  rewrite (@read_joint_state_array nh full_param entries _ _ Hs Hg Hall).
  cbn [and_then].
  rewrite (@read_multi_dof_not_set from_euler_zyx nh _ _ Hm).
  cbn [and_then joint_name app].
  now rewrite length_app, length_map.
Qed.

(** X7. When [initial_configuration/multi_dof_joint_state] is a non-empty
    array of structs with string names and double values and no joint
    state parameter is set, [ReadInitialConfiguration] returns true and
    replaces the multi-dof joints the message held: afterwards it holds
    exactly one name and one transform per entry, in order, the transform
    made of [x], [y], [z] and of the quaternion of [yaw], [pitch], [roll];
    a missing value counts as 0.  The joint state is untouched. *)
Theorem multi_dof_joint_state_is_replaced
    from_euler_zyx nh full_param entries state :
  searchParam nh "initial_configuration/joint_state" = None ->
  searchParam nh "initial_configuration/multi_dof_joint_state"
  = Some full_param ->
  getParam nh full_param = Some (TypeArray entries) ->
  entries <> [] ->
  forallb dof_entry entries = true ->
  ReadInitialConfiguration from_euler_zyx nh state =
  Got (true,
       {| moveit_msgs.joint_state := moveit_msgs.joint_state state;
          moveit_msgs.multi_dof_joint_state :=
            {| moveit_msgs.joint_names := map dof_name entries;
               moveit_msgs.transforms :=
                 map (dof_transform from_euler_zyx) entries |} |},
       [FailedToFindKey "initial_configuration/joint_state";
        JointStateIsNotOnTheParamServer;
        ReadInitialState
          (List.length (joint_name (moveit_msgs.joint_state state)))
          (List.length entries)]).
Proof.
  intros Hj Hs Hg Hne Hall. unfold ReadInitialConfiguration.
  rewrite (@read_joint_state_not_set nh _ _ Hj). cbn [and_then].
  unfold read_multi_dof_joint_state.
  rewrite (@FindParam_found XmlRpcValue value_param nh _ full_param
             (TypeArray entries) (TypeArray entries) TypeInvalid Hs Hg eq_refl).
  cbn [xml_size and_then].
  destruct entries as [|e entries]; [contradiction|].
  replace (List.length (e :: entries) =? 0)%nat with false
    by (symmetry; apply Nat.eqb_neq; cbn; lia).
  cbn [negb].
  pose proof (@read_multi_dof_loop from_euler_zyx (e :: entries) [] [] 
                (vec_resize (List.length (e :: entries)) EmptyString
                   (moveit_msgs.joint_names
                      (moveit_msgs.multi_dof_joint_state state)))
                []
                (vec_resize (List.length (e :: entries)) default_Transform
                   (moveit_msgs.transforms
                      (moveit_msgs.multi_dof_joint_state state)))
                Hall eq_refl eq_refl
                (vec_resize_length _ _ _) (vec_resize_length _ _ _)) as E.
  cbn [app] in E. change (@List.length XmlRpcValue []) with 0%nat in E.
  rewrite E. cbn [and_then app moveit_msgs.joint_names].
  now rewrite length_map.
Qed.

(** X8. When [initial_configuration/joint_state] is set to something that
    is not an array, [ReadInitialConfiguration] leaves through an
    [XmlRpcException], unless the value is an empty string, empty binary
    data or an empty struct: the warning it logs does not stop it from
    asking the value for its size and its elements. *)
Theorem joint_state_that_is_no_array_throws
    from_euler_zyx nh full_param v state :
  searchParam nh "initial_configuration/joint_state" = Some full_param ->
  getParam nh full_param = Some v ->
  (forall entries, v <> TypeArray entries) ->
  xml_size v <> Got 0%nat ->
  ReadInitialConfiguration from_euler_zyx nh state = XmlRpcException.
Proof.
  intros Hs Hg Hv Hsize. unfold ReadInitialConfiguration, read_joint_state.
  rewrite (@FindParam_found XmlRpcValue value_param nh _ full_param
             v v TypeInvalid Hs Hg eq_refl).
  destruct v as [| | | |s| |b|a|m]; try reflexivity.
  - destruct s; [now elim Hsize|]. reflexivity.
  - destruct b; [now elim Hsize|]. reflexivity.
  - now elim (Hv a).
  - destruct m; [now elim Hsize|]. reflexivity.
Qed.

Lemma read_multi_dof_joint_throws from_euler_zyx entries i m key mdjs :
  nth i entries TypeInvalid = TypeStruct m ->
  In key dof_keys ->
  double_member m key = false ->
  read_multi_dof_joint from_euler_zyx (TypeArray entries) i mdjs
  = XmlRpcException.
Proof.
  intros Hi Hkey Hm.
  assert (xml_double (xml_lookup m key) = XmlRpcException) as Hthrow.
  { unfold double_member in Hm.
    destruct (xml_lookup m key); try discriminate Hm; reflexivity. }
  unfold read_multi_dof_joint, xml_at. cbn [and_then]. rewrite Hi.
  cbn [xml_member and_then].
  destruct (xml_string (xml_lookup m "joint_name")); cbn [and_then];
    [|reflexivity].
  cbn [dof_keys In] in Hkey.
  repeat (destruct Hkey as [Hkey|Hkey]; [subst key|]); [..|contradiction];
    repeat first
      [ rewrite Hthrow; reflexivity
      | match goal with
        | |- and_then (xml_double (xml_lookup m ?k)) _ = _ =>
            destruct (xml_double (xml_lookup m k)); cbn [and_then];
            [|reflexivity]
        end ].
Qed.

(** X9. When one entry of [initial_configuration/multi_dof_joint_state]
    has a [yaw], [pitch], [roll], [x], [y] or [z] that is present and not a
    double (an integer, say), [ReadInitialConfiguration] leaves through an
    [XmlRpcException], whatever else the parameter server holds: unlike the
    positions of the joint state, these values are not converted from
    integers. *)
Theorem multi_dof_value_that_is_no_double_throws
    from_euler_zyx nh full_param entries m key state :
  searchParam nh "initial_configuration/multi_dof_joint_state"
  = Some full_param ->
  getParam nh full_param = Some (TypeArray entries) ->
  In (TypeStruct m) entries ->
  In key dof_keys ->
  double_member m key = false ->
  ReadInitialConfiguration from_euler_zyx nh state = XmlRpcException.
Proof.
  intros Hs Hg Hin Hkey Hm. unfold ReadInitialConfiguration.
  destruct (read_joint_state nh TypeInvalid (moveit_msgs.joint_state state))
    as [[[xlist js] logged]|]; cbn [and_then]; [|reflexivity].
  unfold read_multi_dof_joint_state.
  rewrite (@FindParam_found XmlRpcValue value_param nh _ full_param
             (TypeArray entries) (TypeArray entries) xlist Hs Hg eq_refl).
  cbn [xml_size and_then].
  destruct (In_nth _ _ TypeInvalid Hin) as (i & Hlt & Hi).
  replace (List.length entries =? 0)%nat with false
    by (symmetry; apply Nat.eqb_neq; lia).
  cbn [negb].
  rewrite (@checked_loop_throws _
             (read_multi_dof_joint from_euler_zyx (TypeArray entries)) i).
  - reflexivity.
  - intros st.
    apply (@read_multi_dof_joint_throws from_euler_zyx entries i m key st
             Hi Hkey Hm).
  - lia.
Qed.

Lemma entry_positions_app entries entries' :
  entry_positions (entries ++ entries') =
  entry_positions entries ++ entry_positions entries'.
Proof. unfold entry_positions. apply flat_map_app. Qed.

Lemma entry_positions_length entries :
  (forall e, In e entries -> entry_position e <> None) ->
  List.length (entry_positions entries) = List.length entries.
Proof.
  induction entries as [|e entries IH]; intros Hall; [reflexivity|].
  change (e :: entries) with ([e] ++ entries) at 1.
  rewrite entry_positions_app, length_app, IH
    by (intros e' He'; apply Hall; now right).
  unfold entry_positions. cbn [flat_map].
  destruct (entry_position e) eqn:E; [reflexivity|].
  now elim (Hall e (or_introl eq_refl)).
Qed.

Lemma recorded_first_entry entries j p :
  (forall e, In e entries -> entry_position e <> None) ->
  recorded_position
    {| joint_name := map entry_name entries;
       joint_position := entry_positions entries |} j = Some p ->
  exists e, first_entry entries j = Some e /\ entry_position e = Some p.
Proof.
  unfold recorded_position. cbn [joint_name joint_position].
  revert p. induction entries as [|e entries IH]; intros p Hall H.
  - discriminate H.
  - cbn [map first_index first_entry] in *.
    destruct (entry_position e) as [pe|] eqn:Epe;
      [|now elim (Hall e (or_introl eq_refl))].
    change (e :: entries) with ([e] ++ entries) in H.
    rewrite entry_positions_app in H.
    unfold entry_positions at 1 in H. cbn [flat_map] in H.
    rewrite Epe in H. cbn [app] in H.
    destruct (String.eqb (entry_name e) j).
    + cbn in H. injection H as <-. now exists e.
    + destruct (first_index (map entry_name entries) j) as [k|] eqn:Ek;
        cbn [option_map] in H; [|discriminate H].
      cbn [nth_error] in H.
      apply IH; [intros e' He'; apply Hall; now right | exact H].
Qed.

(** X10. Reading the initial configuration into an empty message and then
    calling [MakeRobotState]: when no multi-dof parameter is set, every
    entry of the joint state list has a string name and a numeric position
    and every planning joint is named by some entry, both calls succeed and the state holds, for each
    planning joint in order, the position of the first entry with its
    name. *)
Theorem planning_state_of_initial_configuration
    from_euler_zyx nh full_param entries planning_joints :
  searchParam nh "initial_configuration/joint_state" = Some full_param ->
  getParam nh full_param = Some (TypeArray entries) ->
  forallb named_entry entries = true ->
  (forall e, In e entries -> entry_position e <> None) ->
  searchParam nh "initial_configuration/multi_dof_joint_state" = None ->
  Forall (fun j => In j (map entry_name entries)) planning_joints ->
  exists msg logged state,
    ReadInitialConfiguration from_euler_zyx nh default_RobotState
    = Got (true, msg, logged) /\
    MakeRobotState (joint_part msg) planning_joints
    = Returns (state, true, []) /\
    Forall2
      (fun j p =>
         exists e, first_entry entries j = Some e /\
                   entry_position e = Some p)
      planning_joints state.
Proof.
  intros Hs Hg Hall Hnum Hm Hjoints. unfold ReadInitialConfiguration.
  rewrite (@read_joint_state_array nh full_param entries _ _ Hs Hg Hall).
  cbn [and_then].
  rewrite (@read_multi_dof_not_set from_euler_zyx nh _ _ Hm).
  cbn [and_then default_RobotState moveit_msgs.joint_state joint_name
       joint_position app].
  eexists _, _.
  set (msg := {| joint_state :=
                   {| joint_name := map entry_name entries;
                      joint_position := entry_positions entries |} |}).
  destruct (@collect_joint_positions_spec msg planning_joints [])
    as [(ps & E & Hps)|(j & Hin & Hout & _)].
  - subst msg. cbn [joint_state joint_name joint_position].
    rewrite length_map, (entry_positions_length entries Hnum). lia.
  - exists ps. split; [reflexivity|]. split.
    + unfold MakeRobotState, joint_part.
      cbn [moveit_msgs.joint_state]. exact E.
    + eapply Forall2_impl; [|exact Hps].
      intros j p Hj. now apply recorded_first_entry.
  - exfalso. apply Hout. subst msg. cbn [joint_state joint_name].
    rewrite Forall_forall in Hjoints. now apply Hjoints.
Qed.

Lemma find_joint_position_first pre j rest positions i :
  ~ In j pre ->
  find_joint_position (pre ++ j :: rest) positions i j =
  bind (vec_get positions (i + List.length pre))
       (fun p => Returns (Some p)).
Proof.
  revert i. induction pre as [|n pre IH]; intros i Hout.
  - cbn [app find_joint_position List.length].
    now rewrite String.eqb_refl, Nat.add_0_r.
  - cbn [app find_joint_position List.length].
    destruct (String.eqb_spec n j) as [->|Hne].
    + elim Hout. now left.
    + rewrite IH by (intros Hin; apply Hout; now right).
      now rewrite Nat.add_succ_comm.
Qed.

(** X11. An entry whose position is neither a double nor an integer
    contributes its name and no position, so the positions after it move
    up by one: when no multi-dof parameter is set, the message starts
    empty, the entries before it all have numeric positions and other
    names and the entry after it has a numeric position, [MakeRobotState]
    asked for the joint of that entry returns the position of the entry
    after it, with the flag set and nothing logged. *)
Theorem position_that_is_no_number_shifts_the_next
    from_euler_zyx nh full_param pre bad next post p :
  searchParam nh "initial_configuration/joint_state" = Some full_param ->
  getParam nh full_param = Some (TypeArray (pre ++ bad :: next :: post)) ->
  forallb named_entry (pre ++ bad :: next :: post) = true ->
  (forall e, In e pre -> entry_position e <> None) ->
  ~ In (entry_name bad) (map entry_name pre) ->
  entry_position bad = None ->
  entry_position next = Some p ->
  searchParam nh "initial_configuration/multi_dof_joint_state" = None ->
  exists msg logged,
    ReadInitialConfiguration from_euler_zyx nh default_RobotState
    = Got (true, msg, logged) /\
    MakeRobotState (joint_part msg) [entry_name bad]
    = Returns ([p], true, []).
Proof.
  intros Hs Hg Hall Hpre Hout Hbad Hnext Hm.
  unfold ReadInitialConfiguration.
  rewrite (@read_joint_state_array nh full_param _ _ _ Hs Hg Hall).
  cbn [and_then].
  rewrite (@read_multi_dof_not_set from_euler_zyx nh _ _ Hm).
  cbn [and_then default_RobotState moveit_msgs.joint_state joint_name
       joint_position app].
  eexists _, _. split; [reflexivity|].
  unfold MakeRobotState, joint_part.
  cbn [moveit_msgs.joint_state collect_joint_positions joint_state
       joint_name joint_position].
  rewrite map_app. cbn [map].
  rewrite (@find_joint_position_first _ _ _ _ 0%nat Hout).
  rewrite length_map. cbn [Nat.add].
  rewrite entry_positions_app.
  change (bad :: next :: post) with ([bad] ++ [next] ++ post).
  rewrite !entry_positions_app.
  unfold entry_positions at 2 3. cbn [flat_map].
  rewrite Hbad, Hnext. cbn [app].
  unfold vec_get.
  rewrite <- (entry_positions_length pre Hpre), nth_error_middle.
  reflexivity.
Qed.

(** ** Writing a path *)

Lemma append_assoc (s t u : string) :
  ((s ++ t) ++ u)%string = (s ++ (t ++ u))%string.
Proof. induction s as [|c s IH]; cbn; [reflexivity | now rewrite IH]. Qed.

Lemma concat_more_fields x fields :
  String.concat "," (x :: fields) = (x ++ more_fields fields)%string.
Proof.
  revert x. induction fields as [|y fields IH]; intros x.
  - cbn. now rewrite append_empty_r.
  - change (String.concat "," (x :: y :: fields))
      with (x ++ "," ++ String.concat "," (y :: fields))%string.
    now rewrite IH.
Qed.

Section WritingFacts.
Variable fails : nat -> bool.
Variable format_f : double -> string.

Lemma fputs_closed s f : closed (snd (fputs fails s f)) = closed f.
Proof. unfold fputs. now destruct (fails (requests f)). Qed.

Lemma fputs_accepted s f f' :
  fputs fails s f = (true, f') ->
  accepted f' = (accepted f ++ s)%string.
Proof.
  unfold fputs. destruct (fails (requests f)); intros E; inversion E.
  reflexivity.
Qed.

Lemma fputs_works s f :
  (forall n, fails n = false) ->
  fputs fails s f =
  (true, {| accepted := accepted f ++ s; requests := S (requests f);
            closed := closed f |}).
Proof. intros Hno. unfold fputs. now rewrite Hno. Qed.

Lemma put_fields_closed {A : Type} (text : A -> string) fields :
  forall i f,
    closed (snd (put_fields fails (fun x => fputs fails (text x)) fields i f))
    = closed f.
Proof.
  induction fields as [|x fields IH]; intros i f; cbn [put_fields];
    [reflexivity|].
  destruct (negb (i =? 0)%nat).
  - pose proof (fputs_closed "," f) as Hc.
    destruct (fputs fails "," f) as [[|] f1]; cbn [negb snd] in *;
      [|exact Hc].
    pose proof (fputs_closed (text x) f1) as Hc1.
    destruct (fputs fails (text x) f1) as [[|] f2]; cbn [negb snd] in *;
      [|congruence].
    rewrite IH. congruence.
  - cbn [negb].
    pose proof (fputs_closed (text x) f) as Hc1.
    destruct (fputs fails (text x) f) as [[|] f2]; cbn [negb snd] in *;
      [|congruence].
    rewrite IH. congruence.
Qed.

Lemma put_fields_accepted {A : Type} (text : A -> string) fields :
  forall i f f',
    put_fields fails (fun x => fputs fails (text x)) fields i f = (true, f') ->
    accepted f' =
    (accepted f ++
     match fields, i with
     | [], _ => EmptyString
     | _ :: _, O => String.concat "," (map text fields)
     | _ :: _, S _ => more_fields (map text fields)
     end)%string.
Proof.
  induction fields as [|x fields IH]; intros i f f' E; cbn [put_fields] in E.
  - inversion E. now rewrite append_empty_r.
  - assert (forall f1,
              (let '(ok, f2) := fputs fails (text x) f1 in
               if negb ok then (false, f2)
               else put_fields fails (fun x => fputs fails (text x))
                      fields (S i) f2) = (true, f') ->
              accepted f' =
              (accepted f1 ++ text x ++ more_fields (map text fields))%string)
      as Hrest.
    { intros f1 E1.
      destruct (fputs fails (text x) f1) as [[|] f2] eqn:E2; cbn [negb] in E1;
        [|discriminate E1].
      rewrite (IH _ _ _ E1), (fputs_accepted _ _ E2), append_assoc.
      destruct fields; reflexivity. }
    destruct i as [|i]; cbn [Nat.eqb negb] in E.
    + rewrite (Hrest f E). cbn [map]. now rewrite concat_more_fields.
    + destruct (fputs fails "," f) as [[|] f1] eqn:E1; cbn [negb] in E;
        [|discriminate E].
      rewrite (Hrest f1 E), (fputs_accepted _ _ E1), append_assoc.
      reflexivity.
Qed.

Lemma put_points_closed path :
  forall f, closed (snd (put_points fails format_f path f)) = closed f.
Proof.
  induction path as [|point path IH]; intros f; cbn [put_points];
    [reflexivity|].
  unfold fprintf_f.
  pose proof (@put_fields_closed _ format_f point 0%nat f) as Hc.
  destruct (put_fields _ _ point 0%nat f) as [[|] f1]; cbn [negb snd] in *;
    [|exact Hc].
  pose proof (fputs_closed newline f1) as Hc1.
  destruct (fputs fails newline f1) as [[|] f2]; cbn [negb snd] in *;
    [|congruence].
  rewrite IH. congruence.
Qed.

Lemma concat_lines line lines :
  String.concat "" (line :: lines) = (line ++ String.concat "" lines)%string.
Proof.
  destruct lines; cbn; [now rewrite append_empty_r | reflexivity].
Qed.

Lemma csv_line_fields {A : Type} (text : A -> string) (fields : list A) :
  csv_line (map text fields) =
  (match fields with
   | [] => EmptyString
   | _ :: _ => String.concat "," (map text fields)
   end ++ newline)%string.
Proof. now destruct fields. Qed.

Lemma put_points_accepted path :
  forall f f',
    put_points fails format_f path f = (true, f') ->
    accepted f' =
    (accepted f ++
     String.concat ""
       (map (fun point => csv_line (map format_f point)) path))%string.
Proof.
  induction path as [|point path IH]; intros f f' E; cbn [put_points] in E.
  - inversion E. cbn. now rewrite append_empty_r.
  - unfold fprintf_f in E.
    destruct (put_fields _ _ point 0%nat f) as [[|] f1] eqn:E1;
      cbn [negb] in E; [|discriminate E].
    destruct (fputs fails newline f1) as [[|] f2] eqn:E2;
      cbn [negb] in E; [|discriminate E].
    rewrite (IH _ _ E), (fputs_accepted _ _ E2),
      (put_fields_accepted format_f _ _ _ E1).
    cbn [map]. rewrite concat_lines, csv_line_fields, !append_assoc.
    reflexivity.
Qed.

(** X15. Whenever [WritePathCSV] returns 0, the stream has accepted the
    whole file and has been closed: a line of the names of the planning
    joints (each up to its first NUL) with commas between them, then for
    every point of the path a line of its numbers with commas between
    them, every line ended by a line feed.  A point has as many fields as
    it has numbers, whatever the number of joints. *)
Theorem WritePathCSV_zero_is_the_whole_file opens planning_joints path :
  fst (WritePathCSV fails format_f opens planning_joints path) = 0%Z ->
  exists f,
    snd (WritePathCSV fails format_f opens planning_joints path) = Some f /\
    accepted f = csv_text format_f planning_joints path /\
    closed f = true.
Proof.
  unfold WritePathCSV. destruct opens; cbn [negb]; [|discriminate].
  destruct (put_fields _ _ planning_joints 0%nat _) as [[|] f1] eqn:E1;
    cbn [negb]; [|discriminate].
  destruct (fputs fails newline f1) as [[|] f2] eqn:E2;
    cbn [negb]; [|discriminate].
  destruct (put_points fails format_f path f2) as [[|] f3] eqn:E3;
    cbn [negb]; [|discriminate].
  intros _. eexists. split; [reflexivity|]. split; [|reflexivity].
  cbn [accepted].
  rewrite (put_points_accepted _ _ E3), (fputs_accepted _ _ E2),
    (put_fields_accepted c_string _ _ _ E1).
  cbn [accepted append]. unfold csv_text.
  now rewrite csv_line_fields.
Qed.

(** X16. Whenever [WritePathCSV] does not return 0 it returns -1, and a
    stream it has opened is left open: no path through a failed write
    calls [fclose]. *)
Theorem WritePathCSV_failure_leaves_the_stream_open
    opens planning_joints path :
  fst (WritePathCSV fails format_f opens planning_joints path) <> 0%Z ->
  fst (WritePathCSV fails format_f opens planning_joints path) = (-1)%Z /\
  forall f,
    snd (WritePathCSV fails format_f opens planning_joints path) = Some f ->
    closed f = false.
Proof.
  unfold WritePathCSV. destruct opens; cbn [negb].
  2:{ intros _. split; [reflexivity | discriminate]. }
  pose proof (@put_fields_closed _ c_string planning_joints 0%nat
                {| accepted := EmptyString; requests := 0; closed := false |})
    as C1.
  destruct (put_fields _ _ planning_joints 0%nat _) as [[|] f1];
    cbn [negb snd fst closed] in *.
  2:{ intros _. split; [reflexivity|]. intros f E. inversion E. now subst. }
  pose proof (fputs_closed newline f1) as C2.
  destruct (fputs fails newline f1) as [[|] f2]; cbn [negb snd fst] in *.
  2:{ intros _. split; [reflexivity|]. intros f E. inversion E. subst.
      congruence. }
  pose proof (put_points_closed path f2) as C3.
  destruct (put_points fails format_f path f2) as [[|] f3];
    cbn [negb snd fst] in *.
  - intros Hne. now elim Hne.
  - intros _. split; [reflexivity|]. intros f E. inversion E. subst.
    congruence.
Qed.

End WritingFacts.

Lemma put_fields_works {A : Type} fails (text : A -> string) fields :
  (forall n, fails n = false) ->
  forall i f,
    fst (put_fields fails (fun x => fputs fails (text x)) fields i f) = true.
Proof.
  intros Hno. induction fields as [|x fields IH]; intros i f;
    cbn [put_fields]; [reflexivity|].
  destruct (negb (i =? 0)%nat); rewrite ?fputs_works by exact Hno;
    cbn [negb]; apply IH.
Qed.

Lemma put_points_works fails format_f path :
  (forall n, fails n = false) ->
  forall f, fst (put_points fails format_f path f) = true.
Proof.
  intros Hno. induction path as [|point path IH]; intros f;
    cbn [put_points]; [reflexivity|].
  unfold fprintf_f.
  pose proof (@put_fields_works _ fails format_f point Hno 0%nat f) as E.
  destruct (put_fields _ _ point 0%nat f) as [ok f1]. cbn [fst] in E.
  subst ok. cbn [negb]. rewrite fputs_works by exact Hno. cbn [negb].
  apply IH.
Qed.

(** X17. When the file opens and no write fails, [WritePathCSV] returns
    0, for every list of joints and every path. *)
Theorem WritePathCSV_writes_when_nothing_fails
    fails format_f planning_joints path :
  (forall n, fails n = false) ->
  fst (WritePathCSV fails format_f true planning_joints path) = 0%Z.
Proof.
  intros Hno. unfold WritePathCSV. cbn [negb].
  pose proof (@put_fields_works _ fails c_string planning_joints Hno 0%nat
                {| accepted := EmptyString; requests := 0; closed := false |})
    as E1.
  destruct (put_fields _ _ planning_joints 0%nat _) as [ok f1].
  cbn [fst] in E1. subst ok. cbn [negb].
  rewrite fputs_works by exact Hno. cbn [negb].
  pose proof (@put_points_works fails format_f path Hno
                {| accepted := accepted f1 ++ newline;
                   requests := S (requests f1); closed := closed f1 |}) as E3.
  destruct (put_points _ _ path _) as [ok f3]. cbn [fst] in E3. subst ok.
  reflexivity.
Qed.

(** ** The robot description and the model configuration *)

Lemma FindParam_string nh key out :
  FindParam nh key out =
  match string_at nh key with
  | Some s => (true, s, [])
  | None =>
      (false, out,
       [match searchParam nh key with
        | Some full_param => FailedToRetrieveParam full_param
        | None => FailedToFindKey key
        end])
  end.
Proof.
  unfold FindParam, string_at.
  destruct (searchParam nh key) as [full_param|]; [|reflexivity].
  destruct (getParam nh full_param) as [v|]; [|reflexivity].
  destruct v; reflexivity.
Qed.

(** X12. [ReadRobotModelConfig] returns true exactly when both
    [robot_model/kinematics_frame] and [robot_model/chain_tip_link]
    resolve to string parameters; the configuration then holds these two
    strings and nothing is logged. *)
Theorem ReadRobotModelConfig_succeeds_iff nh config :
  fst (fst (ReadRobotModelConfig nh config)) = true <->
  exists frame link,
    string_at nh "robot_model/kinematics_frame" = Some frame /\
    string_at nh "robot_model/chain_tip_link" = Some link /\
    ReadRobotModelConfig nh config =
    (true, {| kinematics_frame := frame; chain_tip_link := link |}, []).
Proof.
  unfold ReadRobotModelConfig. rewrite FindParam_string.
  destruct (string_at nh "robot_model/kinematics_frame") as [frame|];
    cbn [negb fst].
  - rewrite FindParam_string.
    destruct (string_at nh "robot_model/chain_tip_link") as [link|];
      cbn [negb fst kinematics_frame chain_tip_link app].
    + split; [|reflexivity]. intros _. now exists frame, link.
    + split; [discriminate|]. intros (? & ? & _ & E & _). discriminate E.
  - split; [discriminate|]. intros (? & ? & E & _). discriminate E.
Qed.

(** X13. When the kinematics frame resolves and the chain tip link does
    not, [ReadRobotModelConfig] returns false with one warning logged, and
    the configuration is left half written: the frame is the new one, the
    tip link the old one. *)
Theorem ReadRobotModelConfig_keeps_half_on_failure nh config frame :
  string_at nh "robot_model/kinematics_frame" = Some frame ->
  string_at nh "robot_model/chain_tip_link" = None ->
  exists warning,
    ReadRobotModelConfig nh config =
    (false,
     {| kinematics_frame := frame;
        chain_tip_link := chain_tip_link config |},
     [warning]).
Proof.
  intros Hframe Hlink. unfold ReadRobotModelConfig.
  rewrite FindParam_string, Hframe. cbn [negb chain_tip_link].
  rewrite FindParam_string, Hlink. cbn [negb kinematics_frame app]. eexists. reflexivity.
Qed.

(** X14. [GetRobotDescription] returns the string that
    [robot_description] resolves to, with true and nothing logged; when the
    key resolves to no string parameter it returns the empty string with
    false, and one warning is logged. *)
Theorem GetRobotDescription_is_the_string_parameter nh :
  match string_at nh "robot_description" with
  | Some description =>
      GetRobotDescription nh = ((description, true), [])
  | None =>
      exists warning,
        GetRobotDescription nh = ((EmptyString, false), [warning])
  end.
Proof.
  unfold GetRobotDescription. rewrite FindParam_string.
  destruct (string_at nh "robot_description"); cbn [negb].
  - reflexivity.
  - eexists. reflexivity.
Qed.

(** ** The state of the robot *)

Lemma entry_positions_short entries bad :
  In bad entries ->
  entry_position bad = None ->
  (List.length (entry_positions entries) < List.length entries)%nat.
Proof.
  intros Hin Hbad.
  assert (forall es, List.length (entry_positions es) <= List.length es)%nat
    as Hle.
  { induction es as [|e es IH]; [cbn; lia|].
    change (e :: es) with ([e] ++ es) at 1.
    rewrite entry_positions_app, length_app.
    unfold entry_positions at 1. cbn [flat_map].
    destruct (entry_position e); cbn; lia. }
  induction entries as [|e entries IH]; [contradiction|].
  change (e :: entries) with ([e] ++ entries) at 1.
  rewrite entry_positions_app, length_app.
  unfold entry_positions at 1. cbn [flat_map].
  destruct Hin as [->|Hin].
  - rewrite Hbad. cbn. specialize (Hle entries). lia.
  - specialize (IH Hin). destruct (entry_position e); cbn; lia.
Qed.

Section RobotStateFacts.
Context {Model State Var : Type} `{UrdfOps Model State Var}.

Lemma set_joints_short (robot_model : Model) names :
  forall positions i (robot_state : State) logged,
    Forall (known robot_model) names ->
    (i <= List.length positions < i + List.length names)%nat ->
    set_joints robot_model names positions i robot_state logged = Undefined.
Proof.
  induction names as [|name names IH];
    intros positions i robot_state logged Hknown Hlen.
  - cbn in Hlen. lia.
  - inversion Hknown as [|? ? Hname Hnames]; subst.
    cbn [set_joints]. unfold known in Hname.
    destruct (GetVariable robot_model name) as [var|]; [|now elim Hname].
    unfold vec_get.
    destruct (nth_error positions i) as [p|] eqn:Ep; cbn [bind];
      [|reflexivity].
    apply IH; [exact Hnames|].
    assert (i < List.length positions)%nat
      by (apply nth_error_Some; congruence).
    cbn [List.length] in Hlen. lia.
Qed.

Lemma set_joints_known (robot_model : Model) names :
  forall rest done todo (robot_state : State) logged,
    Forall (known robot_model) names ->
    (List.length names <= List.length todo)%nat ->
    set_joints robot_model (names ++ rest) (done ++ todo) (List.length done)
      robot_state logged =
    set_joints robot_model rest (done ++ todo)
      (List.length done + List.length names)
      (assign robot_model robot_state (combine names todo))
      (logged ++ map (fun np => SetJointTo (fst np) (snd np))
                     (combine names todo)).
Proof.
  induction names as [|name names IH];
    intros rest done todo robot_state logged Hknown Hlen.
  - cbn. now rewrite Nat.add_0_r, app_nil_r.
  - destruct todo as [|p todo]; [cbn in Hlen; lia|].
    inversion Hknown as [|? ? Hname Hnames]; subst.
    cbn [app set_joints]. unfold known in Hname.
    destruct (GetVariable robot_model name) as [var|] eqn:Evar;
      [|now elim Hname].
    unfold vec_get. rewrite nth_error_middle. cbn [bind].
    replace (done ++ p :: todo) with ((done ++ [p]) ++ todo)
      by now rewrite <- app_assoc.
    replace (S (List.length done)) with (List.length (done ++ [p]))
      by (rewrite length_app; cbn; lia).
    rewrite IH by (try assumption; cbn in Hlen; lia).
    cbn [combine map List.length]. unfold assign. cbn [fold_left fst snd].
    rewrite Evar, length_app, <- !app_assoc. cbn [List.length app].
    f_equal. lia.
Qed.

(** X18. When the robot state initialises, the model knows every name of
    the message and the message holds fewer positions than names,
    [InitRobotState] reads a position past the end of the vector: its
    behaviour is undefined. *)
Theorem InitRobotState_fewer_positions_than_names
    (robot_state : State) (robot_model : Model) (state_msg : RobotStateMsg) :
  fst (InitRobotState_in_model robot_state robot_model) = true ->
  Forall (known robot_model) (joint_name (joint_state state_msg)) ->
  (List.length (joint_position (joint_state state_msg))
   < List.length (joint_name (joint_state state_msg)))%nat ->
  InitRobotState robot_state robot_model state_msg = Undefined.
Proof.
  intros Hinit Hknown Hlen. unfold InitRobotState.
  destruct (InitRobotState_in_model robot_state robot_model) as [ok st].
  cbn [fst] in Hinit. subst ok. cbn [negb].
  apply set_joints_short; [exact Hknown | lia].
Qed.

(** X19. When the robot state initialises and the message names a
    variable the model does not have, after names it has and for which it
    holds positions, [InitRobotState] returns false with the robot
    state changed: the joints named before the unknown one have been set,
    in order, each logged, and the warning names the unknown variable; the
    names after it are not looked at. *)
Theorem InitRobotState_sets_the_joints_before_an_unknown_one
    (robot_state : State) (robot_model : Model)
    (known_names : list string) (unknown : string) (more_names : list string)
    (positions : list double) :
  fst (InitRobotState_in_model robot_state robot_model) = true ->
  Forall (known robot_model) known_names ->
  GetVariable robot_model unknown = None ->
  (List.length known_names <= List.length positions)%nat ->
  InitRobotState robot_state robot_model
    {| joint_state :=
         {| joint_name := known_names ++ unknown :: more_names;
            joint_position := positions |} |} =
  Returns
    (false,
     assign robot_model
       (snd (InitRobotState_in_model robot_state robot_model))
       (combine known_names positions),
     map (fun np => SetJointTo (fst np) (snd np))
       (combine known_names positions)
     ++ [VariableNotFound unknown]).
Proof.
  intros Hinit Hknown Hunknown Hlen. unfold InitRobotState.
  destruct (InitRobotState_in_model robot_state robot_model) as [ok st].
  cbn [fst snd] in *. subst ok. cbn [negb joint_state joint_name joint_position].
  pose proof (@set_joints_known robot_model known_names
                (unknown :: more_names) [] positions st [] Hknown Hlen) as E.
  cbn [app List.length] in E. rewrite E.
  cbn [set_joints]. now rewrite Hunknown.
Qed.

(** X20. When the robot state initialises, the model knows every name of
    the message and there is a position for every name, [InitRobotState]
    returns true, having assigned to each named variable its position, in
    the order of the message (so the last of several entries for one name
    decides), and having logged each assignment; positions beyond the
    names are ignored. *)
Theorem InitRobotState_sets_every_joint
    (robot_state : State) (robot_model : Model) (state_msg : RobotStateMsg) :
  fst (InitRobotState_in_model robot_state robot_model) = true ->
  Forall (known robot_model) (joint_name (joint_state state_msg)) ->
  (List.length (joint_name (joint_state state_msg))
   <= List.length (joint_position (joint_state state_msg)))%nat ->
  let assignments :=
    combine (joint_name (joint_state state_msg))
      (joint_position (joint_state state_msg)) in
  InitRobotState robot_state robot_model state_msg =
  Returns
    (true,
     assign robot_model
       (snd (InitRobotState_in_model robot_state robot_model)) assignments,
     map (fun np => SetJointTo (fst np) (snd np)) assignments).
Proof.
  intros Hinit Hknown Hlen. cbv zeta. unfold InitRobotState.
  destruct (InitRobotState_in_model robot_state robot_model) as [ok st].
  cbn [fst snd] in *. subst ok. cbn [negb].
  pose proof (@set_joints_known robot_model
                (joint_name (joint_state state_msg)) [] []
                (joint_position (joint_state state_msg)) st [] Hknown Hlen)
    as E.
  rewrite app_nil_r in E. cbn [app List.length] in E. rewrite E.
  reflexivity.
Qed.

(** X21. Reading the initial configuration into an empty message and
    then calling [InitRobotState]: when no multi-dof parameter is set, the
    robot state initialises, some entry of the joint state list has a
    position that is neither a double nor an integer, and the model knows
    every name, the first call succeeds and the behaviour of the
    second is undefined. *)
Theorem initial_configuration_without_a_position_is_undefined
    from_euler_zyx nh full_param entries bad
    (robot_state : State) (robot_model : Model) :
  searchParam nh "initial_configuration/joint_state" = Some full_param ->
  getParam nh full_param = Some (TypeArray entries) ->
  forallb named_entry entries = true ->
  In bad entries ->
  entry_position bad = None ->
  searchParam nh "initial_configuration/multi_dof_joint_state" = None ->
  fst (InitRobotState_in_model robot_state robot_model) = true ->
  Forall (known robot_model) (map entry_name entries) ->
  exists msg logged,
    ReadInitialConfiguration from_euler_zyx nh default_RobotState
    = Got (true, msg, logged) /\
    InitRobotState robot_state robot_model (joint_part msg) = Undefined.
Proof.
  intros Hs Hg Hall Hin Hbad Hm Hinit Hknown.
  unfold ReadInitialConfiguration.
  rewrite (@read_joint_state_array nh full_param entries _ _ Hs Hg Hall).
  cbn [and_then].
  rewrite (@read_multi_dof_not_set from_euler_zyx nh _ _ Hm).
  cbn [and_then default_RobotState moveit_msgs.joint_state joint_name
       joint_position app].
  eexists _, _. split; [reflexivity|].
  unfold InitRobotState, joint_part.
  destruct (InitRobotState_in_model robot_state robot_model) as [ok st].
  cbn [fst] in Hinit. subst ok.
  cbn [negb moveit_msgs.joint_state joint_state joint_name joint_position].
  apply set_joints_short; [exact Hknown|].
  rewrite length_map.
  pose proof (entry_positions_short entries bad Hin Hbad). lia.
Qed.

End RobotStateFacts.

(** ** Witnesses: the initial configuration *)

Lemma joint_state_is_appended_witness :
  ReadInitialConfiguration angles_as_given
    (params [("initial_configuration/joint_state",
              TypeArray arm_configuration)])
    torso_state =
  Got (true,
       {| moveit_msgs.joint_state :=
            {| joint_name := ["torso"; "shoulder"; "elbow"; "wrist"];
               joint_position := [0.125; 0.5; 1; -0.25]%float |};
          moveit_msgs.multi_dof_joint_state :=
            moveit_msgs.multi_dof_joint_state torso_state |},
       [DoublesHaveToContainDecimalPoints;
        FailedToFindKey "initial_configuration/multi_dof_joint_state";
        ReadInitialState 4 2]).
Proof.
  exact (@joint_state_is_appended angles_as_given
           (params [("initial_configuration/joint_state",
                     TypeArray arm_configuration)])
           "initial_configuration/joint_state" arm_configuration torso_state
           eq_refl eq_refl eq_refl eq_refl).
Defined.

Lemma multi_dof_joint_state_is_replaced_witness :
  ReadInitialConfiguration angles_as_given
    (params [("initial_configuration/multi_dof_joint_state",
              TypeArray base_configuration)])
    torso_state =
  Got (true,
       {| moveit_msgs.joint_state := moveit_msgs.joint_state torso_state;
          moveit_msgs.multi_dof_joint_state :=
            {| moveit_msgs.joint_names := ["world_joint"];
               moveit_msgs.transforms :=
                 [{| moveit_msgs.translation :=
                       {| px := 1; py := 2; pz := 0 |};
                     moveit_msgs.rotation :=
                       angles_as_given 1.5 0 0 |}] |} |},
       [FailedToFindKey "initial_configuration/joint_state";
        JointStateIsNotOnTheParamServer;
        ReadInitialState 1 1]).
Proof.
  refine (@multi_dof_joint_state_is_replaced angles_as_given
            (params [("initial_configuration/multi_dof_joint_state",
                      TypeArray base_configuration)])
            "initial_configuration/multi_dof_joint_state" base_configuration
            torso_state eq_refl eq_refl eq_refl _ eq_refl).
  discriminate.
Defined.

Lemma joint_state_that_is_no_array_throws_witness :
  ReadInitialConfiguration angles_as_given
    (params [("initial_configuration/joint_state", TypeDouble 0.5)])
    default_RobotState = XmlRpcException.
Proof.
  refine (@joint_state_that_is_no_array_throws angles_as_given
           (params [("initial_configuration/joint_state",
                     TypeDouble 0.5)])
           "initial_configuration/joint_state" (TypeDouble 0.5)
           default_RobotState eq_refl eq_refl _ _);
    [intros entries | cbn]; discriminate.
Defined.

Lemma multi_dof_value_that_is_no_double_throws_witness :
  ReadInitialConfiguration angles_as_given
    (params [("initial_configuration/multi_dof_joint_state",
              TypeArray whole_yaw_configuration)])
    default_RobotState = XmlRpcException.
Proof.
  exact (@multi_dof_value_that_is_no_double_throws angles_as_given
           (params [("initial_configuration/multi_dof_joint_state",
                     TypeArray whole_yaw_configuration)])
           "initial_configuration/multi_dof_joint_state"
           whole_yaw_configuration
           [("joint_name", TypeString "world_joint");
            ("x", TypeDouble 1); ("y", TypeDouble 2); ("z", TypeDouble 0);
            ("roll", TypeDouble 0); ("pitch", TypeDouble 0);
            ("yaw", TypeInt 1)]
           "yaw" default_RobotState eq_refl eq_refl
           (or_introl eq_refl) (or_introl eq_refl) eq_refl).
Defined.

Lemma planning_state_of_initial_configuration_witness :
  exists msg logged state,
    ReadInitialConfiguration angles_as_given
      (params [("initial_configuration/joint_state",
                TypeArray arm_configuration)])
      default_RobotState
    = Got (true, msg, logged) /\
    MakeRobotState (joint_part msg) ["wrist"; "shoulder"]
    = Returns (state, true, []) /\
    Forall2
      (fun j p =>
         exists e, first_entry arm_configuration j = Some e /\
                   entry_position e = Some p)
      ["wrist"; "shoulder"] state.
Proof.
  refine (@planning_state_of_initial_configuration angles_as_given
            (params [("initial_configuration/joint_state",
                      TypeArray arm_configuration)])
            "initial_configuration/joint_state" arm_configuration
            ["wrist"; "shoulder"] eq_refl eq_refl eq_refl _ eq_refl _).
  - intros e [<-|[<-|[<-|[]]]]; discriminate.
  - repeat (apply Forall_cons; [vm_compute; auto 10|]). apply Forall_nil.
Defined.

Lemma position_that_is_no_number_shifts_the_next_witness :
  exists msg logged,
    ReadInitialConfiguration angles_as_given
      (params [("initial_configuration/joint_state",
                TypeArray quoted_configuration)])
      default_RobotState
    = Got (true, msg, logged) /\
    MakeRobotState (joint_part msg) ["elbow"] = Returns ([-0.25]%float, true, []).
Proof.
  refine (@position_that_is_no_number_shifts_the_next angles_as_given
            (params [("initial_configuration/joint_state",
                      TypeArray quoted_configuration)])
            "initial_configuration/joint_state"
            [joint_entry "shoulder" (TypeDouble 0.5)]
            (joint_entry "elbow" (TypeString "1.0"))
            (joint_entry "wrist" (TypeDouble (-0.25))) []
            (-0.25) eq_refl eq_refl eq_refl _ _ eq_refl eq_refl eq_refl).
  - intros e [<-|[]]; discriminate.
  - intros [E|[]]; discriminate E.
Defined.

(** ** Witnesses: the parameter server, the path, the robot state *)

Lemma ReadRobotModelConfig_keeps_half_on_failure_witness :
  exists warning,
    ReadRobotModelConfig
      (params [("robot_model/kinematics_frame", TypeString "base_link");
               ("robot_model/chain_tip_link", TypeInt 7)])
      {| kinematics_frame := "old_frame"; chain_tip_link := "old_link" |} =
    (false,
     {| kinematics_frame := "base_link"; chain_tip_link := "old_link" |},
     [warning]).
Proof.
  exact (@ReadRobotModelConfig_keeps_half_on_failure
           (params [("robot_model/kinematics_frame", TypeString "base_link");
                    ("robot_model/chain_tip_link", TypeInt 7)])
           {| kinematics_frame := "old_frame"; chain_tip_link := "old_link" |}
           "base_link" eq_refl eq_refl).
Defined.

Lemma WritePathCSV_zero_is_the_whole_file_witness :
  exists f,
    snd (WritePathCSV (fun _ => false) format_whole true ["a"; "b"]
           [[0; 1]%float; [2; -1]%float]) = Some f /\
    accepted f = csv_text format_whole ["a"; "b"] [[0; 1]%float; [2; -1]%float] /\
    closed f = true.
Proof.
  exact (@WritePathCSV_zero_is_the_whole_file (fun _ => false) format_whole
           true ["a"; "b"] [[0; 1]%float; [2; -1]%float] eq_refl).
Defined.

Lemma WritePathCSV_failure_leaves_the_stream_open_witness :
  fst (WritePathCSV third_write_fails format_whole true ["a"; "b"]
         [[0; 1]%float]) = (-1)%Z /\
  forall f,
    snd (WritePathCSV third_write_fails format_whole true ["a"; "b"]
           [[0; 1]%float]) = Some f ->
    closed f = false.
Proof.
  refine (@WritePathCSV_failure_leaves_the_stream_open third_write_fails
            format_whole true ["a"; "b"] [[0; 1]%float] _).
  vm_compute. discriminate.
Defined.

Lemma WritePathCSV_writes_when_nothing_fails_witness :
  fst (WritePathCSV (fun _ => false) format_whole true ["a"; "b"]
         [[0; 1]%float; [2; -1]%float]) = 0%Z.
Proof.
  exact (@WritePathCSV_writes_when_nothing_fails (fun _ => false)
           format_whole ["a"; "b"] [[0; 1]%float; [2; -1]%float]
           (fun _ => eq_refl)).
Defined.

Example path_as_written :
  csv_text format_whole ["a"; "b"] [[0; 1]%float; [2; -1]%float] =
  ("a,b" ++ newline ++ "0,1" ++ newline ++ "2,-1" ++ newline)%string.
Proof. reflexivity. Qed.

Lemma InitRobotState_fewer_positions_than_names_witness :
  InitRobotState [] ["a"; "b"; "c"] names_only = Undefined.
Proof.
  refine (@InitRobotState_fewer_positions_than_names _ _ _ listed_robot
            [] ["a"; "b"; "c"] names_only eq_refl _ _).
  - repeat constructor; discriminate.
  - cbn. lia.
Defined.

Lemma InitRobotState_sets_the_joints_before_an_unknown_one_witness :
  InitRobotState [] ["a"; "b"; "c"]
    {| joint_state :=
         {| joint_name := ["b"] ++ "z" :: ["a"];
            joint_position := [1; 2; 3]%float |} |} =
  Returns (false, [0; 1; 0]%float, [SetJointTo "b" 1; VariableNotFound "z"]).
Proof.
  refine (@InitRobotState_sets_the_joints_before_an_unknown_one
            _ _ _ listed_robot [] ["a"; "b"; "c"] ["b"] "z" ["a"]
            [1; 2; 3]%float eq_refl _ eq_refl _).
  - repeat constructor; discriminate.
  - cbn. lia.
Defined.

Lemma InitRobotState_sets_every_joint_witness :
  InitRobotState [] ["a"; "b"; "c"] three_joints =
  Returns
    (true,
     assign ["a"; "b"; "c"] [0; 0; 0]%float
       (combine (joint_name (joint_state three_joints))
          (joint_position (joint_state three_joints))),
     map (fun np => SetJointTo (fst np) (snd np))
       (combine (joint_name (joint_state three_joints))
          (joint_position (joint_state three_joints)))).
Proof.
  refine (@InitRobotState_sets_every_joint _ _ _ listed_robot
            [] ["a"; "b"; "c"] three_joints eq_refl _ _).
  - repeat constructor; discriminate.
  - cbn. lia.
Defined.

Lemma initial_configuration_without_a_position_is_undefined_witness :
  exists msg logged,
    ReadInitialConfiguration angles_as_given
      (params [("initial_configuration/joint_state",
                TypeArray quoted_configuration)])
      default_RobotState
    = Got (true, msg, logged) /\
    InitRobotState [] ["shoulder"; "elbow"; "wrist"] (joint_part msg)
    = Undefined.
Proof.
  refine (@initial_configuration_without_a_position_is_undefined
            _ _ _ listed_robot angles_as_given
            (params [("initial_configuration/joint_state",
                      TypeArray quoted_configuration)])
            "initial_configuration/joint_state" quoted_configuration
            (joint_entry "elbow" (TypeString "1.0"))
            [] ["shoulder"; "elbow"; "wrist"]
            eq_refl eq_refl eq_refl _ eq_refl eq_refl eq_refl _).
  - right. left. reflexivity.
  - repeat constructor; discriminate.
Defined.

(** X25. [InitTestScenarioPrePlanningModel] never returns false: whenever
    it returns, it returns true with the message and the log of
    [ReadInitialConfiguration], whose result is always true; the branch
    that logs the failure to get the initial configuration is never
    taken. *)
Theorem initial_configuration_is_never_refused
    from_euler_zyx ph start_state ok state logged :
  InitTestScenarioPrePlanningModel from_euler_zyx ph start_state
  = Got (ok, state, logged) ->
  ok = true /\
  ReadInitialConfiguration from_euler_zyx ph start_state
  = Got (true, state, logged).
Proof.
  unfold InitTestScenarioPrePlanningModel, ReadInitialConfiguration.
  destruct (read_joint_state ph TypeInvalid
              (moveit_msgs.joint_state start_state))
    as [[[xlist js] logged1]|]; cbn [and_then]; [|discriminate].
  destruct (read_multi_dof_joint_state from_euler_zyx ph xlist
              (moveit_msgs.multi_dof_joint_state start_state))
    as [[mdjs logged2]|]; cbn [and_then negb]; [|discriminate].
  intros E. inversion E. split; reflexivity.
Qed.

Lemma initial_configuration_is_never_refused_witness :
  true = true /\
  ReadInitialConfiguration angles_as_given
    (params [("initial_configuration/joint_state",
              TypeArray arm_configuration)])
    default_RobotState =
  Got (true,
       {| moveit_msgs.joint_state :=
            {| joint_name := ["shoulder"; "elbow"; "wrist"];
               joint_position := [0.5; 1; -0.25]%float |};
          moveit_msgs.multi_dof_joint_state :=
            moveit_msgs.multi_dof_joint_state default_RobotState |},
       [DoublesHaveToContainDecimalPoints;
        FailedToFindKey "initial_configuration/multi_dof_joint_state";
        ReadInitialState 3 0]).
Proof.
  exact (@initial_configuration_is_never_refused angles_as_given
           (params [("initial_configuration/joint_state",
                     TypeArray arm_configuration)])
           default_RobotState true _ _ eq_refl).
Defined.

End ScenarioFacts.
